(** * ai-assistant-web: the streaming chat pipeline, its tool registry and
      its model client adapter

    A shallow embedding of

    - [observability] (correlation identifier, logger, metrics),
    - [openai.ts] ([normalizeMessages], [handleOpenAIError]),
    - the tool service ([toolRegistry], [validateParameters], [executeTool]),
    - the memory service ([getSession], [saveMessage], [getMessages]),
    - the chat service ([processChat], [transformStream]),
    - the metrics recorder, the middleware ([middleware],
      [applyRateLimit]) and the authentication module ([getUserId],
      [generateApiKey]),

    followed by the properties established about them.

    Asynchronous code is sequential here: every [await] of the source sits in
    a single flow, so a promise is the computation it stands for and a
    rejected promise is a thrown exception.  Effects are explicit: a
    computation is a function from the [World] (module-level variables, the
    database tables, the trace of observable effects) to an outcome and a new
    world.  What the JavaScript runtime and the external collaborators
    (provider, database, clock, random source, tool implementations) do is
    collected in a record [Env], over which every statement is quantified. *)

From Stdlib Require Import ZArith NArith List String Ascii Bool Lia.
From Stdlib Require Import QArith_base DecimalString.
Import ListNotations.

Close Scope Q_scope.
Local Open Scope list_scope.
Local Open Scope string_scope.
Local Open Scope Z_scope.

Set Implicit Arguments.
Set Warnings "-register-all".

(* ===================================================================== *)
(** * JavaScript values *)
(* ===================================================================== *)

(** The values the pipeline handles are the ones [JSON.parse] produces, plus
    [undefined] and the BigInt.  A parameter object is a
    [Record<string, unknown>] and the result of a tool is [unknown], so
    either may hold a value that [JSON.stringify] refuses; the BigInt is the
    one kind of such values that is a term here (an object that contains
    itself is not).  Numbers are restricted to integers: no function of the
    pipeline looks at a number beyond its [typeof].  The field list of a
    [JObject] is kept in property enumeration order, with distinct keys. *)
Inductive JsValue : Type :=
| JUndefined
| JNull
| JBool (b : bool)
| JNumber (n : Z)
| JBigInt (n : Z)
| JString (s : string)
| JArray (items : list JsValue)
| JObject (fields : list (string * JsValue)).

(** [typeof value] *)
Definition typeof (v : JsValue) : string :=
  match v with
  | JUndefined => "undefined"
  | JNull => "object"
  | JBool _ => "boolean"
  | JNumber _ => "number"
  | JBigInt _ => "bigint"
  | JString _ => "string"
  | JArray _ => "object"
  | JObject _ => "object"
  end.

(** [value === undefined || value === null] *)
Definition is_nullish (v : JsValue) : bool :=
  match v with
  | JUndefined | JNull => true
  | _ => false
  end.

(** A string is falsy exactly when it is empty; [undefined] and [null] are
    falsy. *)
Definition str_truthy (s : string) : bool :=
  match s with
  | EmptyString => false
  | String _ _ => true
  end.

(** [a || b] where [a] is an optional string and [b] a string. *)
Definition or_else (a : option string) (b : string) : string :=
  match a with
  | Some s => if str_truthy s then s else b
  | None => b
  end.

(** [a || undefined] *)
Definition or_undefined (a : option string) : option string :=
  match a with
  | Some s => if str_truthy s then Some s else None
  | None => None
  end.

(** Decimal rendering of an integer, as [String(n)] gives it. *)
Definition Z_to_string (z : Z) : string :=
  NilZero.string_of_int (Z.to_int z).

Definition nat_to_string (n : nat) : string := Z_to_string (Z.of_nat n).

(** Property tables and [Map]s are association lists in enumeration order;
    [eqb] compares keys. *)
Section JsMap.
Variables K V : Type.
Variable eqb : K -> K -> bool.

(** [Map.prototype.get], or a property read: the first binding of [k]. *)
Fixpoint Map_get (k : K) (l : list (K * V)) : option V :=
  match l with
  | [] => None
  | (k', v) :: rest => if eqb k k' then Some v else Map_get k rest
  end.

(** [Map.prototype.set]: an existing key keeps its position, a new key goes
    last. *)
Fixpoint Map_set (k : K) (v : V) (l : list (K * V)) : list (K * V) :=
  match l with
  | [] => [(k, v)]
  | (k', v') :: rest =>
      if eqb k k' then (k', v) :: rest else (k', v') :: Map_set k v rest
  end.
End JsMap.

Definition assoc {V : Type} : string -> list (string * V) -> option V :=
  Map_get String.eqb.

(** The own and inherited property names of [Object.prototype]. *)
Definition Object_prototype_keys : list string :=
  [ "constructor"; "hasOwnProperty"; "isPrototypeOf"; "propertyIsEnumerable";
    "toLocaleString"; "toString"; "valueOf"; "__proto__";
    "__defineGetter__"; "__defineSetter__"; "__lookupGetter__";
    "__lookupSetter__" ].

Definition in_list (s : string) (l : list string) : bool :=
  existsb (String.eqb s) l.

(** [Array.prototype.join]: [undefined] and [null] elements render as the
    empty string. *)
Fixpoint join (sep : string) (l : list string) : string :=
  match l with
  | [] => ""
  | [x] => x
  | x :: rest => x ++ sep ++ join sep rest
  end.

(** [String(value)], as [join] applies it to array elements. *)
Fixpoint js_to_string (v : JsValue) : string :=
  match v with
  | JUndefined => "undefined"
  | JNull => "null"
  | JBool true => "true"
  | JBool false => "false"
  | JNumber n => Z_to_string n
  | JBigInt n => Z_to_string n
  | JString s => s
  | JArray items =>
      join "," (map (fun x => if is_nullish x then "" else js_to_string x) items)
  | JObject _ => "[object Object]"
  end.

Definition join_values (sep : string) (l : list JsValue) : string :=
  join sep (map (fun x => if is_nullish x then "" else js_to_string x) l).

(** SameValueZero, the comparison of [Array.prototype.includes].  An array or
    an object is only equal to itself, and a value handed in from outside is
    never the very object an [enum] list holds. *)
Definition same_value_zero (a b : JsValue) : bool :=
  match a, b with
  | JUndefined, JUndefined => true
  | JNull, JNull => true
  | JBool x, JBool y => Bool.eqb x y
  | JNumber x, JNumber y => Z.eqb x y
  | JBigInt x, JBigInt y => Z.eqb x y
  | JString x, JString y => String.eqb x y
  | _, _ => false
  end.

Definition includes (l : list JsValue) (v : JsValue) : bool :=
  existsb (same_value_zero v) l.

(* ===================================================================== *)
(** * Exceptions, outcomes and the effect monad *)
(* ===================================================================== *)

(** What a [throw] can carry.  [JsError] is any instance of [Error] that is
    not an [APIError] ([TypeError], [SyntaxError], [new Error(..)], the
    provider SDK's own error classes); [ApiError] is the [APIError] class of
    [openai.ts]; [Thrown] is a value that is not an [Error]. *)
Inductive Exn : Type :=
| JsError (message : string)
| ApiError (code message : string) (status : option Z)
| Thrown (v : JsValue).

(** [error instanceof Error ? error.message : 'Unknown error'] *)
Definition error_message (e : Exn) : string :=
  match e with
  | JsError m => m
  | ApiError _ m _ => m
  | Thrown _ => "Unknown error"
  end.

Inductive Outcome (A : Type) : Type :=
| Ok (a : A)
| Throw (e : Exn).

Arguments Ok {A} a.
Arguments Throw {A} e.

Inductive LogLevel : Type := Debug | Info | Warn | Error.

Inductive Role : Type := System | User | Assistant | Tool.

Definition Role_eqb (a b : Role) : bool :=
  match a, b with
  | System, System | User, User | Assistant, Assistant | Tool, Tool => true
  | _, _ => false
  end.

(** [ChatMessage] of [openai.ts] *)
Record ChatMessage : Type := {
  msg_role : Role;
  msg_content : string;
  msg_name : option string;
  msg_toolCallId : option string
}.

(** A message in the provider's wire format
    ([ChatCompletionMessageParam]). *)
Inductive MessageParam : Type :=
| SystemParam (content : string)
| UserParam (content : string) (name : option string)
| AssistantParam (content : string) (name : option string)
| ToolParam (content : string) (tool_call_id : string).

(* ===================================================================== *)
(** * Stream chunks ([StreamChunk] of [openai.ts]) *)
(* ===================================================================== *)

(** An optional field is an [option]; [delta.content] may also be [null],
    which is [Some None]. *)
Record FunctionDelta : Type := {
  fn_name : option string;
  fn_arguments : option string
}.

Record ToolCallDelta : Type := {
  tc_index : Z;
  tc_id : option string;
  tc_function : option FunctionDelta
}.

Record Delta : Type := {
  delta_role : option string;
  delta_content : option (option string);
  delta_toolCalls : option (list ToolCallDelta)
}.

Record Choice : Type := {
  choice_index : Z;
  choice_delta : Delta;
  finishReason : option string
}.

Record StreamChunk : Type := {
  chunk_id : string;
  chunk_created : Z;
  chunk_model : string;
  choices : list Choice
}.

(** What [reader.read()] settles to while the stream has data: a chunk, or
    a rejection.  A stream is the list of these; past its end [read] reports
    [done]. *)
Inductive ReadResult : Type :=
| ReadValue (value : StreamChunk)
| ReadFailure (e : Exn).

(** The entry kept per index in [toolCallsBuffer]. *)
Record ToolCallEntry : Type := {
  entry_id : string;
  entry_name : string;
  entry_arguments : string
}.

Definition ToolCallsBuffer : Type := list (Z * ToolCallEntry).

(* ===================================================================== *)
(** * Tools *)
(* ===================================================================== *)

(** [ToolResult] of the tool service *)
Record ToolResult : Type := {
  success : bool;
  result : option JsValue;
  error : option string;
  executionTimeMs : Z
}.

(** [type?: string | string[]] of a property schema *)
Inductive SchemaType : Type :=
| TypeName (t : string)
| TypeNames (ts : list string).

Record PropertySchema : Type := {
  prop_type : option SchemaType;
  prop_description : option string;
  prop_enum : option (list JsValue);
  prop_default : option JsValue
}.

Record ParameterSchema : Type := {
  properties : list (string * PropertySchema);
  required : option (list string)
}.

Record ToolDefinition : Type := {
  tool_name : string;
  tool_description : string;
  parameters : ParameterSchema
}.

(** An entry of [toolRegistry].  The implementation of a tool is outside the
    pipeline: [execute params n] is what its promise settles to when it is
    started at tick [n] of the world. *)
Record RegisteredTool : Type := {
  execute : JsValue -> nat -> Outcome ToolResult;
  definition : ToolDefinition
}.

(** [OpenAI.Chat.ChatCompletionTool], as [convertToOpenAITools] builds it *)
Record OpenAIProperty : Type := {
  oa_type : option SchemaType;
  oa_description : option string;
  oa_enum : option (list JsValue)
}.

Record OpenAITool : Type := {
  oa_name : string;
  oa_tool_description : string;
  oa_properties : list (string * OpenAIProperty);
  oa_required : option (list string)
}.

(** The argument of [openai.chat.completions.create] *)
Record CompletionRequest : Type := {
  req_model : string;
  req_messages : list MessageParam;
  req_temperature : option Q;
  req_max_tokens : option Z;
  req_stream : bool;
  req_tools : option (list OpenAITool)
}.

(* ===================================================================== *)
(** * The world *)
(* ===================================================================== *)

(** A row of the session table.  *)
Record SessionRow : Type := {
  session_id : string;
  session_userId : string;
  session_title : string;
  session_systemPrompt : option string;
  session_metadata : JsValue;
  session_createdAt : Z;
  session_updatedAt : Z
}.

(** A row of the message table.  The identifier and the creation time are
    given by the database; the table is kept in creation order, which is
    the order [createdAt: 'asc'] reads it in. *)
Record MessageRow : Type := {
  row_sessionId : string;
  row_role : Role;
  row_content : string;
  row_name : option string;
  row_toolCallId : option string
}.

(** Observable effects, oldest first in the trace. *)
Inductive Event : Type :=
| Log (level : LogLevel) (message correlation : string)
      (meta : list (string * JsValue))
| CounterInc (name : string)
| LatencyRec (name : string) (ms : Z)
| ToolInvoked (name : string) (params : JsValue)
| MessageCreated (row : MessageRow)
| CompletionCall (req : CompletionRequest)
| Enqueue (bytes : string)
| Close
| StreamError (e : Exn).

Record World : Type := {
  correlationId : option string;
  toolRegistry : list (string * RegisteredTool);
  sessions : list SessionRow;
  messages : list MessageRow;
  trace : list Event;
  ticks : nat
}.

(** The runtime and the collaborators.  [ticks] counts the consultations of
    these oracles, so that two calls may answer differently. *)
Record Env : Type := {
  (** [JSON.parse]; a [Throw] is its [SyntaxError] *)
  JSON_parse : string -> Outcome JsValue;
  (** the text [JSON.stringify] gives for a defined value that it
      serialises *)
  JSON_stringify : JsValue -> string;
  (** [openai.chat.completions.create]: the stream it resolves to, or the
      rejection *)
  completions_create : CompletionRequest -> nat -> Outcome (list ReadResult);
  (** the rejection of the database operation started at a tick, if it
      fails *)
  db_fails : nat -> option Exn;
  (** [Date.now()] at a tick *)
  clock : nat -> Z;
  (** the random bits [randomUUID] draws at a tick *)
  entropy : nat -> N;
  (** whether [Array.prototype] has a property of that name *)
  Array_prototype_has : string -> bool
}.

Definition M (A : Type) : Type := World -> Outcome A * World.

Definition ret {A : Type} (a : A) : M A := fun w => (Ok a, w).

Definition throw {A : Type} (e : Exn) : M A := fun w => (Throw e, w).

Definition bind {A B : Type} (m : M A) (f : A -> M B) : M B :=
  fun w =>
    match m w with
    | (Ok a, w') => f a w'
    | (Throw e, w') => (Throw e, w')
    end.

(** [try { m } catch (error) { handler error }]: what [m] did to the world
    before it threw stays done. *)
Definition try_catch {A : Type} (m : M A) (handler : Exn -> M A) : M A :=
  fun w =>
    match m w with
    | (Ok a, w') => (Ok a, w')
    | (Throw e, w') => handler e w'
    end.

Declare Scope js_scope.
Delimit Scope js_scope with js.
Notation "x <- m ;; k" := (bind m (fun x => k))
  (at level 61, m at next level, right associativity) : js_scope.
Notation "m ;;; k" := (bind m (fun _ => k))
  (at level 61, right associativity) : js_scope.
Local Open Scope js_scope.

(** [for (const x of xs) { body x }] *)
Fixpoint for_of {A : Type} (xs : list A) (body : A -> M unit) : M unit :=
  match xs with
  | [] => ret tt
  | x :: rest => body x ;;; for_of rest body
  end.

Definition set_correlationId (c : option string) (w : World) : World :=
  {| correlationId := c; toolRegistry := toolRegistry w;
     sessions := sessions w; messages := messages w;
     trace := trace w; ticks := ticks w |}.

Definition set_toolRegistry (r : list (string * RegisteredTool)) (w : World)
  : World :=
  {| correlationId := correlationId w; toolRegistry := r;
     sessions := sessions w; messages := messages w;
     trace := trace w; ticks := ticks w |}.

Definition set_sessions (s : list SessionRow) (w : World) : World :=
  {| correlationId := correlationId w; toolRegistry := toolRegistry w;
     sessions := s; messages := messages w;
     trace := trace w; ticks := ticks w |}.

Definition set_messages (m : list MessageRow) (w : World) : World :=
  {| correlationId := correlationId w; toolRegistry := toolRegistry w;
     sessions := sessions w; messages := m;
     trace := trace w; ticks := ticks w |}.

Definition set_trace (t : list Event) (w : World) : World :=
  {| correlationId := correlationId w; toolRegistry := toolRegistry w;
     sessions := sessions w; messages := messages w;
     trace := t; ticks := ticks w |}.

Definition set_ticks (n : nat) (w : World) : World :=
  {| correlationId := correlationId w; toolRegistry := toolRegistry w;
     sessions := sessions w; messages := messages w;
     trace := trace w; ticks := n |}.

(** An effect becomes visible. *)
Definition emit (ev : Event) : M unit :=
  fun w => (Ok tt, set_trace (trace w ++ [ev]) w).

(** The number of the next oracle consultation. *)
Definition tick : M nat :=
  fun w => (Ok (ticks w), set_ticks (S (ticks w)) w).

Definition gets {A : Type} (f : World -> A) : M A := fun w => (Ok (f w), w).

Definition modify (f : World -> World) : M unit := fun w => (Ok tt, f w).

(** A value computed without the world, which may be a throw. *)
Definition lift {A : Type} (o : Outcome A) : M A := fun w => (o, w).

Definition newline : string := String (ascii_of_nat 10) EmptyString.

(* ===================================================================== *)
(** * [crypto.randomUUID] *)
(* ===================================================================== *)

Definition hex_digit (n : N) : ascii :=
  match N.modulo n 16 with
  | 0%N => "0" | 1%N => "1" | 2%N => "2" | 3%N => "3"
  | 4%N => "4" | 5%N => "5" | 6%N => "6" | 7%N => "7"
  | 8%N => "8" | 9%N => "9" | 10%N => "a" | 11%N => "b"
  | 12%N => "c" | 13%N => "d" | 14%N => "e" | _ => "f"
  end%char.

(** The low [4 * count] bits of [n], most significant digit first. *)
Fixpoint hex_digits (count : nat) (n : N) : string :=
  match count with
  | O => EmptyString
  | S c => String (hex_digit (N.shiftr n (4 * N.of_nat c))) (hex_digits c n)
  end.

(** A version 4 UUID from 128 random bits. *)
Definition randomUUID (r : N) : string :=
  hex_digits 8 (N.shiftr r 96) ++ "-" ++
  hex_digits 4 (N.shiftr r 80) ++ "-" ++
  String "4"%char (hex_digits 3 (N.shiftr r 64)) ++ "-" ++
  String (hex_digit (8 + N.modulo (N.shiftr r 60) 4)) (hex_digits 3 (N.shiftr r 48))
  ++ "-" ++ hex_digits 12 r.

(* ===================================================================== *)
(** * [handleOpenAIError] and [normalizeMessages] ([openai.ts]) *)
(* ===================================================================== *)

(** The [unknown] value [handleOpenAIError] receives, as far as the function
    looks at it: the answers of its four [instanceof] tests, [error.status]
    (a number or [undefined]) and [error.message]. *)
Record CaughtError : Type := {
  instanceof_APIError : bool;
  instanceof_RateLimitError : bool;
  instanceof_APIConnectionError : bool;
  instanceof_APIConnectionTimeoutError : bool;
  caught_status : option Z;
  caught_message : string
}.

(** An instance of the [APIError] class of [openai.ts] *)
Record APIError : Type := {
  api_code : string;
  api_message : string;
  api_status : option Z;
  originalError : CaughtError
}.

(** The table [errorCodes], keyed by status; the messages of the entry for
    400 depends on the error. *)
Definition errorCodes (e : CaughtError) : list (Z * (string * string)) :=
  [ (400, ("BAD_REQUEST",
           or_else (Some (caught_message e)) "Invalid request to OpenAI API"));
    (401, ("UNAUTHORIZED", "Invalid API key or authentication failure"));
    (403, ("FORBIDDEN", "Access to this resource is forbidden"));
    (404, ("NOT_FOUND", "The requested resource was not found"));
    (429, ("RATE_LIMITED", "Rate limit exceeded. Please retry later"));
    (500, ("INTERNAL_ERROR", "OpenAI internal server error"));
    (503, ("SERVICE_UNAVAILABLE",
           "OpenAI service is temporarily unavailable")) ].

Definition handleOpenAIError (e : CaughtError) : APIError :=
  if instanceof_APIError e then
    let errorInfo :=
      match caught_status e with
      | Some status =>
          match Map_get Z.eqb status (errorCodes e) with
          | Some info => info
          | None =>
              ("UNKNOWN_ERROR",
               or_else (Some (caught_message e)) "An unknown error occurred")
          end
      | None =>
          ("UNKNOWN_ERROR",
           or_else (Some (caught_message e)) "An unknown error occurred")
      end in
    {| api_code := fst errorInfo; api_message := snd errorInfo;
       api_status := caught_status e; originalError := e |}
  else if instanceof_RateLimitError e then
    {| api_code := "RATE_LIMITED";
       api_message := "Rate limit exceeded. Please retry later";
       api_status := Some 429; originalError := e |}
  else if instanceof_APIConnectionError e then
    {| api_code := "CONNECTION_ERROR";
       api_message := "Failed to connect to OpenAI API";
       api_status := None; originalError := e |}
  else if instanceof_APIConnectionTimeoutError e then
    {| api_code := "TIMEOUT";
       api_message := "Request to OpenAI API timed out";
       api_status := None; originalError := e |}
  else
    {| api_code := "INTERNAL_ERROR";
       api_message := "An unexpected error occurred";
       api_status := None; originalError := e |}.

Definition normalizeMessage (msg : ChatMessage) : MessageParam :=
  match msg_role msg with
  | Tool => ToolParam (msg_content msg) (or_else (msg_toolCallId msg) "")
  | Assistant => AssistantParam (msg_content msg) (or_undefined (msg_name msg))
  | User => UserParam (msg_content msg) (or_undefined (msg_name msg))
  | System => SystemParam (msg_content msg)
  end.

Definition normalizeMessages (messages : list ChatMessage)
  : list MessageParam :=
  map normalizeMessage messages.

(* ===================================================================== *)
(** * Serialisation *)
(* ===================================================================== *)

(** Whether [JSON.stringify] serialises a value.  It throws a [TypeError]
    on a BigInt, wherever the value holds it: as an element, or as the
    value of a property. *)
Fixpoint serialisable (v : JsValue) : bool :=
  match v with
  | JBigInt _ => false
  | JArray items => forallb serialisable items
  | JObject fields =>
      (fix all (l : list (string * JsValue)) : bool :=
         match l with
         | [] => true
         | (_, x) :: rest => serialisable x && all rest
         end) fields
  | _ => true
  end.

(** [JSON.stringify(value)], which may throw.  The wording of the message
    is the engine's. *)
Definition stringify (E : Env) (v : JsValue) : Outcome string :=
  if serialisable v then Ok (JSON_stringify E v)
  else Throw (JsError "Do not know how to serialize a BigInt").

(** ** The pipeline's own objects *)

Definition opt_string_to_js (o : option string) : JsValue :=
  match o with
  | Some s => JString s
  | None => JUndefined
  end.

(** A [ToolResult] as the object it is; an absent field is [undefined]. *)
Definition ToolResult_to_js (r : ToolResult) : JsValue :=
  JObject
    [ ("success", JBool (success r));
      ("result", match result r with Some v => v | None => JUndefined end);
      ("error", opt_string_to_js (error r));
      ("executionTimeMs", JNumber (executionTimeMs r)) ].

Definition ToolCallDelta_to_js (tc : ToolCallDelta) : JsValue :=
  JObject
    [ ("index", JNumber (tc_index tc));
      ("id", opt_string_to_js (tc_id tc));
      ("type", JString "function");
      ("function",
        match tc_function tc with
        | Some f =>
            JObject [ ("name", opt_string_to_js (fn_name f));
                      ("arguments", opt_string_to_js (fn_arguments f)) ]
        | None => JUndefined
        end) ].

Definition Delta_to_js (d : Delta) : JsValue :=
  JObject
    [ ("role", opt_string_to_js (delta_role d));
      ("content",
        match delta_content d with
        | Some (Some s) => JString s
        | Some None => JNull
        | None => JUndefined
        end);
      ("toolCalls",
        match delta_toolCalls d with
        | Some tcs => JArray (map ToolCallDelta_to_js tcs)
        | None => JUndefined
        end) ].

Definition Choice_to_js (c : Choice) : JsValue :=
  JObject
    [ ("index", JNumber (choice_index c));
      ("delta", Delta_to_js (choice_delta c));
      ("finishReason",
        match finishReason c with
        | Some s => JString s
        | None => JNull
        end) ].

Definition StreamChunk_to_js (v : StreamChunk) : JsValue :=
  JObject
    [ ("id", JString (chunk_id v));
      ("object", JString "chat.completion.chunk");
      ("created", JNumber (chunk_created v));
      ("model", JString (chunk_model v));
      ("choices", JArray (map Choice_to_js (choices v))) ].

Definition Role_to_string (r : Role) : string :=
  match r with
  | System => "system"
  | User => "user"
  | Assistant => "assistant"
  | Tool => "tool"
  end.

(* ===================================================================== *)
(** * Parameter validation (pure part of the tool service) *)
(* ===================================================================== *)

(** Whether [field] names an own element of an array of the given items:
    the decimal index of one of them. *)
Fixpoint array_own (field : string) (i : nat) (items : list JsValue)
  : option JsValue :=
  match items with
  | [] => None
  | x :: rest =>
      if String.eqb field (nat_to_string i) then Some x
      else array_own field (S i) rest
  end.

Fixpoint indexed (i : nat) (items : list JsValue) : list (string * JsValue) :=
  match items with
  | [] => []
  | x :: rest => (nat_to_string i, x) :: indexed (S i) rest
  end.

Fixpoint characters (s : string) : list JsValue :=
  match s with
  | EmptyString => []
  | String c rest => JString (String c EmptyString) :: characters rest
  end.

Section Validation.
Variable E : Env.

(** [!(field in parameters) || parameters[field] === undefined ||
    parameters[field] === null].  The [in] operator throws a [TypeError]
    on anything but an object; it finds inherited properties too, whose
    values are functions and so neither [undefined] nor [null]. *)
Definition missing_required (field : string) (parameters : JsValue)
  : Outcome bool :=
  match parameters with
  | JObject fields =>
      Ok match assoc field fields with
         | Some v => is_nullish v
         | None => negb (in_list field Object_prototype_keys)
         end
  | JArray items =>
      Ok match array_own field 0 items with
         | Some v => is_nullish v
         | None =>
             negb (String.eqb field "length"
                   || Array_prototype_has E field
                   || in_list field Object_prototype_keys)
         end
  | _ =>
      Throw (JsError ("Cannot use 'in' operator to search for '" ++ field
                      ++ "' in " ++ js_to_string parameters))
  end.

(** The loop over [requiredFields]: the message of the first field that is
    missing. *)
Fixpoint check_required (requiredFields : list string)
         (parameters : JsValue) : Outcome (option string) :=
  match requiredFields with
  | [] => Ok None
  | field :: rest =>
      match missing_required field parameters with
      | Throw e => Throw e
      | Ok true => Ok (Some ("Missing required field: " ++ field))
      | Ok false => check_required rest parameters
      end
  end.

(** [Object.entries(parameters)] *)
Definition Object_entries (parameters : JsValue)
  : Outcome (list (string * JsValue)) :=
  match parameters with
  | JObject fields => Ok fields
  | JArray items => Ok (indexed 0 items)
  | JString s => Ok (indexed 0 (characters s))
  | JNumber _ | JBigInt _ | JBool _ => Ok []
  | JUndefined | JNull =>
      Throw (JsError "Cannot convert undefined or null to object")
  end.

(** What [properties?.[key]] reads from [Object.prototype] when
    [properties] has no own [key]: a function or an object, truthy, with
    neither a [type] nor an [enum]. *)
Definition inherited_schema : PropertySchema :=
  {| prop_type := None; prop_description := None;
     prop_enum := None; prop_default := None |}.

(** [properties?.[key]] *)
Definition lookup_schema (key : string)
           (props : list (string * PropertySchema))
  : option PropertySchema :=
  match assoc key props with
  | Some p => Some p
  | None =>
      if in_list key Object_prototype_keys then Some inherited_schema
      else None
  end.

(** [Array.isArray(propSchema.type) ? propSchema.type : [propSchema.type]] *)
Definition allowedTypes (p : PropertySchema) : list (option string) :=
  match prop_type p with
  | Some (TypeNames ts) => map Some ts
  | Some (TypeName t) => [Some t]
  | None => [None]
  end.

Definition includes_type (l : list (option string)) (t : string) : bool :=
  existsb (fun o => match o with
                    | Some t' => String.eqb t t'
                    | None => false
                    end) l.

Definition join_types (l : list (option string)) : string :=
  join " or " (map (fun o => match o with
                             | Some t => t
                             | None => ""
                             end) l).

(** The body of the loop over [Object.entries(parameters)]: [None] when
    the loop goes on to the next entry. *)
Definition check_entry (props : list (string * PropertySchema))
           (entry : string * JsValue) : option string :=
  let (key, value) := entry in
  match lookup_schema key props with
  | None => None
  | Some propSchema =>
      let allowed := allowedTypes propSchema in
      let actualType := typeof value in
      if negb (includes_type allowed actualType)
         && negb (includes_type allowed "null")
      then Some ("Invalid type for " ++ key ++ ": expected "
                 ++ join_types allowed ++ ", got " ++ actualType)
      else
        match prop_enum propSchema with
        | Some enum =>
            if negb (includes enum value)
            then Some ("Invalid value for " ++ key ++ ": must be one of "
                       ++ join_values ", " enum)
            else None
        | None => None
        end
  end.

Fixpoint first_error (props : list (string * PropertySchema))
         (entries : list (string * JsValue)) : option string :=
  match entries with
  | [] => None
  | entry :: rest =>
      match check_entry props entry with
      | Some msg => Some msg
      | None => first_error props rest
      end
  end.

(** [ToolService.validateParameters]: the error message, [None] for
    [null], or the [TypeError] of a parameter value that is not an
    object. *)
Definition validateParameters (parameters : JsValue)
           (schema : ParameterSchema) : Outcome (option string) :=
  match required schema with
  | None => Ok None
  | Some requiredFields =>
      match check_required requiredFields parameters with
      | Throw e => Throw e
      | Ok (Some msg) => Ok (Some msg)
      | Ok None =>
          match Object_entries parameters with
          | Throw e => Throw e
          | Ok entries => Ok (first_error (properties schema) entries)
          end
      end
  end.
End Validation.

(* ===================================================================== *)
(** * The services *)
(* ===================================================================== *)

Section Services.
Variable E : Env.

(** ** Observability *)

(** [Date.now()] *)
Definition Date_now : M Z :=
  n <- tick ;; ret (clock E n).

(** [getCorrelationId]: the module variable [correlationId] is filled on
    the first call, and whenever it holds a falsy value. *)
Definition getCorrelationId : M string :=
  current <- gets correlationId ;;
  match or_undefined current with
  | Some id => ret id
  | None =>
      n <- tick ;;
      let id := randomUUID (entropy E n) in
      modify (set_correlationId (Some id)) ;;;
      ret id
  end.

Definition setCorrelationId (id : string) : M unit :=
  modify (set_correlationId (Some id)).

(** [observability.logger.info], [.warn] and [.error]: [formatLog] reads
    the correlation identifier, then the entry goes to the console.  The
    entry's timestamp is left out. *)
Definition logger (level : LogLevel) (message : string)
           (meta : list (string * JsValue)) : M unit :=
  id <- getCorrelationId ;;
  emit (Log level message id meta).

Definition incrementCounter (name : string) : M unit :=
  emit (CounterInc name).

Definition recordLatency (name : string) (latencyMs : Z) : M unit :=
  emit (LatencyRec name latencyMs).

(** ** Tool service *)

(** [getRegisteredTools] *)
Definition getRegisteredTools : M (list ToolDefinition) :=
  gets (fun w => map (fun t => definition (snd t)) (toolRegistry w)).

(** [registerTool] *)
Definition registerTool (name : string) (def : ToolDefinition)
           (exec : JsValue -> nat -> Outcome ToolResult) : M unit :=
  modify (fun w =>
    set_toolRegistry
      (Map_set String.eqb name {| execute := exec; definition := def |}
               (toolRegistry w)) w).

(** [await tool.execute(parameters)] *)
Definition run_tool (toolName : string) (tool : RegisteredTool)
           (params : JsValue) : M ToolResult :=
  emit (ToolInvoked toolName params) ;;;
  n <- tick ;;
  lift (execute tool params n).

(** [ToolService.executeTool].  The argument of the first log call is built
    before the call: its [JSON.stringify(parameters)] comes before the
    lookup in the registry and is inside no [try]. *)
Definition executeTool (toolName : string) (params : JsValue)
  : M ToolResult :=
  correlationId <- getCorrelationId ;;
  startTime <- Date_now ;;
  text <- lift (stringify E params) ;;
  logger Info "Executing tool"
    [ ("correlationId", JString correlationId);
      ("toolName", JString toolName);
      ("parameters", JString text) ] ;;;
  tool <- gets (fun w => assoc toolName (toolRegistry w)) ;;
  match tool with
  | None =>
      t <- Date_now ;;
      ret {| success := false; result := None;
             error := Some ("Tool not found: " ++ toolName);
             executionTimeMs := t - startTime |}
  | Some tool =>
      validationError <-
        lift (validateParameters E params (parameters (definition tool))) ;;
      match or_undefined validationError with
      | Some msg =>
          t <- Date_now ;;
          ret {| success := false; result := None;
                 error := Some msg;
                 executionTimeMs := t - startTime |}
      | None =>
          try_catch
            (r <- run_tool toolName tool params ;;
             logger Info "Tool execution completed"
               [ ("correlationId", JString correlationId);
                 ("toolName", JString toolName);
                 ("success", JBool (success r));
                 ("executionTimeMs", JNumber (executionTimeMs r)) ] ;;;
             recordLatency ("tool_" ++ toolName) (executionTimeMs r) ;;;
             ret r)
            (fun e =>
               logger Error "Tool execution failed"
                 [ ("correlationId", JString correlationId);
                   ("toolName", JString toolName);
                   ("error", JString (error_message e)) ] ;;;
               t <- Date_now ;;
               ret {| success := false; result := None;
                      error := Some (error_message e);
                      executionTimeMs := t - startTime |})
      end
  end.

(** ** Memory service *)

(** A database operation: it may reject. *)
Definition db_call : M unit :=
  n <- tick ;;
  match db_fails E n with
  | Some e => throw e
  | None => ret tt
  end.

Definition find_session (sessionId : string) (w : World)
  : option SessionRow :=
  find (fun s => String.eqb (session_id s) sessionId) (sessions w).

(** [MemoryService.getSession]; the [messageCount] it adds to the row is
    left out, no caller in the pipeline reads it. *)
Definition getSession (sessionId : string) : M (option SessionRow) :=
  correlationId <- getCorrelationId ;;
  try_catch
    (db_call ;;;
     session <- gets (find_session sessionId) ;;
     match session with
     | None =>
         logger Warn "Session not found"
           [ ("correlationId", JString correlationId);
             ("sessionId", JString sessionId) ] ;;;
         ret None
     | Some s => ret (Some s)
     end)
    (fun e =>
       logger Error "Failed to get session"
         [ ("correlationId", JString correlationId);
           ("sessionId", JString sessionId);
           ("error", JString (error_message e)) ] ;;;
       throw (JsError "Failed to get session")).

Definition touch_session (sessionId : string) (t : Z) (s : SessionRow)
  : SessionRow :=
  if String.eqb (session_id s) sessionId then
    {| session_id := session_id s; session_userId := session_userId s;
       session_title := session_title s;
       session_systemPrompt := session_systemPrompt s;
       session_metadata := session_metadata s;
       session_createdAt := session_createdAt s;
       session_updatedAt := t |}
  else s.

(** [prisma.session.update({ where: { id }, data: { updatedAt } })]: it
    rejects when no such row exists. *)
Definition update_session_timestamp (sessionId : string) : M unit :=
  t <- Date_now ;;
  db_call ;;;
  session <- gets (find_session sessionId) ;;
  match session with
  | None => throw (JsError "Record to update not found.")
  | Some _ =>
      modify (fun w =>
        set_sessions (map (touch_session sessionId t) (sessions w)) w)
  end.

(** [MemoryService.saveMessage] *)
Definition saveMessage (sessionId : string) (message : ChatMessage)
  : M MessageRow :=
  correlationId <- getCorrelationId ;;
  logger Info "Saving message"
    [ ("correlationId", JString correlationId);
      ("sessionId", JString sessionId);
      ("role", JString (Role_to_string (msg_role message)));
      ("contentLength",
        JNumber (Z.of_nat (String.length (msg_content message)))) ] ;;;
  try_catch
    (db_call ;;;
     let savedMessage :=
       {| row_sessionId := sessionId; row_role := msg_role message;
          row_content := msg_content message;
          row_name := msg_name message;
          row_toolCallId := msg_toolCallId message |} in
     modify (fun w => set_messages (messages w ++ [savedMessage]) w) ;;;
     emit (MessageCreated savedMessage) ;;;
     update_session_timestamp sessionId ;;;
     incrementCounter "messages_created" ;;;
     ret savedMessage)
    (fun e =>
       logger Error "Failed to save message"
         [ ("correlationId", JString correlationId);
           ("sessionId", JString sessionId);
           ("error", JString (error_message e)) ] ;;;
       throw (JsError "Failed to save message")).

Definition row_to_message (msg : MessageRow) : ChatMessage :=
  {| msg_role := row_role msg; msg_content := row_content msg;
     msg_name := or_undefined (row_name msg);
     msg_toolCallId := or_undefined (row_toolCallId msg) |}.

Definition session_rows (sessionId : string) (w : World)
  : list MessageRow :=
  filter (fun r => String.eqb (row_sessionId r) sessionId) (messages w).

(** [MemoryService.getMessages(sessionId, limit)], without [before] *)
Definition getMessages (sessionId : string) (limit : nat)
  : M (list ChatMessage) :=
  correlationId <- getCorrelationId ;;
  try_catch
    (db_call ;;;
     rows <- gets (fun w => firstn limit (session_rows sessionId w)) ;;
     ret (map row_to_message rows))
    (fun e =>
       logger Error "Failed to get messages"
         [ ("correlationId", JString correlationId);
           ("sessionId", JString sessionId);
           ("error", JString (error_message e)) ] ;;;
       throw (JsError "Failed to get messages")).

(** The default of [limit] *)
Definition default_limit : nat := 100.
End Services.

(* ===================================================================== *)
(** * The chat service *)
(* ===================================================================== *)

(** [ChatRequest] *)
Record ChatRequest : Type := {
  chat_messages : list ChatMessage;
  chat_sessionId : string;
  chat_systemPrompt : option string;
  chat_model : option string;
  chat_temperature : option Q;
  chat_maxTokens : option Z;
  chat_stream : option bool
}.

Definition defaultSystemPrompt : string :=
  "You are AI Assistant, a helpful and harmless AI assistant." ++ newline ++
  "You are designed to be helpful, harmless, and honest." ++ newline ++
  "You should answer questions, help with tasks, and engage in conversation."
  ++ newline ++
  "You have access to various tools that extend your capabilities."
  ++ newline ++
  "Always be clear about what you can and cannot do." ++ newline ++
  "If you cannot help with something, explain why politely.".

(** [ChatService.convertToOpenAITools] *)
Definition convertToOpenAITools (tools : list ToolDefinition)
  : list OpenAITool :=
  map (fun tool =>
         {| oa_name := tool_name tool;
            oa_tool_description := tool_description tool;
            oa_properties :=
              map (fun kp =>
                     (fst kp,
                      {| oa_type := prop_type (snd kp);
                         oa_description := prop_description (snd kp);
                         oa_enum := prop_enum (snd kp) |}))
                  (properties (parameters tool));
            oa_required := required (parameters tool) |})
      tools.

(** The empty entry a first delta for an index starts from *)
Definition empty_entry : ToolCallEntry :=
  {| entry_id := ""; entry_name := ""; entry_arguments := "" |}.

(** The body of the loop over [choice.delta.toolCalls]: one delta is folded
    into [toolCallsBuffer]. *)
Definition bufferToolCall (buffer : ToolCallsBuffer) (tc : ToolCallDelta)
  : ToolCallsBuffer :=
  let existing :=
    match Map_get Z.eqb (tc_index tc) buffer with
    | Some e => e
    | None => empty_entry
    end in
  Map_set Z.eqb (tc_index tc)
    {| entry_id := or_else (tc_id tc) (entry_id existing);
       entry_name :=
         or_else (match tc_function tc with
                  | Some f => fn_name f
                  | None => None
                  end) (entry_name existing);
       entry_arguments :=
         entry_arguments existing ++
         or_else (match tc_function tc with
                  | Some f => fn_arguments f
                  | None => None
                  end) "" |}
    buffer.

(** [if (choice.delta.toolCalls) { for (const tc of ...) ... }] *)
Definition bufferChoice (buffer : ToolCallsBuffer) (choice : Choice)
  : ToolCallsBuffer :=
  match delta_toolCalls (choice_delta choice) with
  | Some tcs => fold_left bufferToolCall tcs buffer
  | None => buffer
  end.

(** [if (choice.finishReason)] *)
Definition has_finishReason (choice : Choice) : bool :=
  match finishReason choice with
  | Some r => str_truthy r
  | None => false
  end.

(** [choice.finishReason === 'tool_calls'] *)
Definition finished_with_tool_calls (choice : Choice) : bool :=
  match finishReason choice with
  | Some r => String.eqb r "tool_calls"
  | None => false
  end.

(** The chunk announced after a tool call; [t1] and [t2] are its two
    readings of [Date.now()]. *)
Definition toolResultChunk (t1 t2 : Z) : StreamChunk :=
  {| chunk_id := "tool-" ++ Z_to_string t1;
     chunk_created := t2 / 1000;
     chunk_model := "gpt-4-turbo-preview";
     choices :=
       [ {| choice_index := 0;
            choice_delta :=
              {| delta_role := Some "assistant";
                 delta_content := Some None;
                 delta_toolCalls := None |};
            finishReason := None |} ] |}.

Section ChatService.
Variable E : Env.

(** The input stream is taken at the type the code gives it: a
    [ReadableStream] whose reads yield [StreamChunk]s. *)

(** [openai.chat.completions.create(request)] *)
Definition create_completion (request : CompletionRequest)
  : M (list ReadResult) :=
  emit (CompletionCall request) ;;;
  n <- tick ;;
  lift (completions_create E request n).

(** [controller.enqueue(encoder.encode(JSON.stringify(chunk) + '\n'))].
    A chunk has the fields of its type: strings, numbers, [null], arrays
    and objects of these, which [JSON.stringify] serialises. *)
Definition enqueue_chunk (chunk : StreamChunk) : M unit :=
  emit (Enqueue (JSON_stringify E (StreamChunk_to_js chunk) ++ newline)).

(** The request of the follow-up completion *)
Definition followUpRequest (session : option SessionRow)
           (history : list ChatMessage) : CompletionRequest :=
  {| req_model := "gpt-4-turbo-preview";
     req_messages :=
       normalizeMessages
         ({| msg_role := System;
             msg_content :=
               or_else (match session with
                        | Some s => session_systemPrompt s
                        | None => None
                        end) "";
             msg_name := None; msg_toolCallId := None |} :: history);
     req_temperature := None;
     req_max_tokens := None;
     req_stream := true;
     req_tools := None |}.

(** [toolResultMessage]; [content] is [JSON.stringify(result)], when that
    has not thrown. *)
Definition toolResultMessage (toolCall : ToolCallEntry) (content : string)
  : ChatMessage :=
  {| msg_role := Tool;
     msg_content := content;
     msg_name := Some (entry_name toolCall);
     msg_toolCallId := Some (entry_id toolCall) |}.

(** The body of the loop over [toolCallsBuffer]: the [try] block and its
    [catch]. *)
Definition handleToolCall (sessionId correlationId : string)
           (toolCall : ToolCallEntry) : M unit :=
  try_catch
    (args <- lift (JSON_parse E (entry_arguments toolCall)) ;;
     r <- executeTool E (entry_name toolCall) args ;;
     content <- lift (stringify E (ToolResult_to_js r)) ;;
     saveMessage E sessionId (toolResultMessage toolCall content) ;;;
     history <- getMessages E sessionId default_limit ;;
     session <- getSession E sessionId ;;
     create_completion (followUpRequest session history) ;;;
     t1 <- Date_now E ;;
     t2 <- Date_now E ;;
     enqueue_chunk (toolResultChunk t1 t2))
    (fun e =>
       logger E Error "Tool execution failed"
         [ ("correlationId", JString correlationId);
           ("toolName", JString (entry_name toolCall));
           ("error", JString (error_message e)) ]).

(** [for (const [, toolCall] of toolCallsBuffer)], guarded by the test on
    the finish reason and the size of the buffer *)
Definition executeToolCalls (sessionId correlationId : string)
           (buffer : ToolCallsBuffer) : M unit :=
  for_of buffer (fun kv => handleToolCall sessionId correlationId (snd kv)).

(** The body of [for (const choice of value.choices)].  The state is the
    buffer and [hasFinishReason]. *)
Definition processChoice (sessionId correlationId : string)
           (state : ToolCallsBuffer * bool) (choice : Choice)
  : M (ToolCallsBuffer * bool) :=
  let buffer := bufferChoice (fst state) choice in
  if has_finishReason choice then
    (if finished_with_tool_calls choice
        && (0 <? Z.of_nat (List.length buffer))
     then executeToolCalls sessionId correlationId buffer
     else ret tt) ;;;
    ret (buffer, true)
  else ret (buffer, snd state).

Fixpoint processChoices (sessionId correlationId : string)
         (state : ToolCallsBuffer * bool) (cs : list Choice)
  : M (ToolCallsBuffer * bool) :=
  match cs with
  | [] => ret state
  | choice :: rest =>
      state' <- processChoice sessionId correlationId state choice ;;
      processChoices sessionId correlationId state' rest
  end.

(** [while (!hasFinishReason) { ... }], by recursion on what the input
    stream still holds.  A rejected [read] leaves through the enclosing
    [catch]. *)
Fixpoint readLoop (sessionId correlationId : string)
         (inputStream : list ReadResult) (buffer : ToolCallsBuffer)
  : M unit :=
  match inputStream with
  | [] => emit Close
  | ReadFailure e :: _ => throw e
  | ReadValue value :: rest =>
      state <- processChoices sessionId correlationId (buffer, false)
                              (choices value) ;;
      enqueue_chunk value ;;;
      if snd state then ret tt
      else readLoop sessionId correlationId rest (fst state)
  end.

(** [ChatService.transformStream], with the [start] of the stream it
    returns *)
Definition transformStream (inputStream : list ReadResult)
           (sessionId : string) : M unit :=
  correlationId <- getCorrelationId E ;;
  try_catch (readLoop sessionId correlationId inputStream [])
            (fun e => emit (StreamError e)).

(** The request of the first completion *)
Definition firstRequest (request : ChatRequest) (session : SessionRow)
           (availableTools : list ToolDefinition) : CompletionRequest :=
  let systemPrompt :=
    or_else (chat_systemPrompt request)
            (or_else (session_systemPrompt session) defaultSystemPrompt) in
  {| req_model := or_else (chat_model request) "gpt-4-turbo-preview";
     req_messages :=
       normalizeMessages
         ({| msg_role := System; msg_content := systemPrompt;
             msg_name := None; msg_toolCallId := None |}
          :: chat_messages request);
     req_temperature :=
       Some match chat_temperature request with
            | Some t => t
            | None => Qmake 7 10
            end;
     req_max_tokens := chat_maxTokens request;
     req_stream := true;
     req_tools :=
       if (0 <? Z.of_nat (List.length availableTools))
       then Some (convertToOpenAITools availableTools)
       else None |}.

(** [ChatService.processChat] *)
Definition processChat (request : ChatRequest) : M unit :=
  correlationId <- getCorrelationId E ;;
  logger E Info "Processing chat request"
    [ ("correlationId", JString correlationId);
      ("sessionId", JString (chat_sessionId request));
      ("messageCount",
        JNumber (Z.of_nat (List.length (chat_messages request))));
      ("stream", JBool match chat_stream request with
                       | Some b => b
                       | None => true
                       end) ] ;;;
  try_catch
    (session <- getSession E (chat_sessionId request) ;;
     match session with
     | None =>
         throw (JsError ("Session not found: " ++ chat_sessionId request))
     | Some s =>
         availableTools <- getRegisteredTools ;;
         stream <- create_completion
                     (firstRequest request s availableTools) ;;
         transformStream stream (chat_sessionId request)
     end)
    (fun e =>
       logger E Error "Chat processing failed"
         [ ("correlationId", JString correlationId);
           ("error", JString (error_message e)) ] ;;;
       throw match e with
             | ApiError _ _ _ => e
             | _ => ApiError "CHAT_ERROR" "Failed to process chat" None
             end).
End ChatService.

(* ===================================================================== *)
(** * A concrete runtime: [JSON.stringify] and [JSON.parse] *)
(* ===================================================================== *)

Module Json.

Definition two_hex (n : N) : string :=
  String (hex_digit (N.shiftr n 4)) (String (hex_digit n) EmptyString).

(** [QuoteJSONString]: the escapes of quotation mark, reverse solidus and
    the control characters. *)
Fixpoint escape (s : string) : string :=
  match s with
  | EmptyString => EmptyString
  | String c rest =>
      let n := N_of_ascii c in
      (if N.eqb n 34
       then String (ascii_of_nat 92) (String (ascii_of_nat 34) EmptyString)
       else if N.eqb n 92 then "\\"
       else if N.eqb n 8 then "\b"
       else if N.eqb n 9 then "\t"
       else if N.eqb n 10 then "\n"
       else if N.eqb n 12 then "\f"
       else if N.eqb n 13 then "\r"
       else if N.ltb n 32 then "\u00" ++ two_hex n
       else String c EmptyString) ++ escape rest
  end.

Definition quote (s : string) : string :=
  String (ascii_of_nat 34) (escape s ++ String (ascii_of_nat 34) EmptyString).

(** [JSON.stringify(value)] for a defined [value] that is [serialisable].
    A field that is [undefined] is left out of its object, an element that
    is [undefined] is written [null].  On a BigInt, where [JSON.stringify]
    throws and this function is not consulted, it gives the digits. *)
Fixpoint stringify (v : JsValue) : string :=
  match v with
  | JUndefined => "null"
  | JNull => "null"
  | JBool true => "true"
  | JBool false => "false"
  | JNumber n => Z_to_string n
  | JBigInt n => Z_to_string n
  | JString s => quote s
  | JArray items => "[" ++ join "," (map stringify items) ++ "]"
  | JObject fields =>
      "{" ++
      join ","
        ((fix members (l : list (string * JsValue)) : list string :=
            match l with
            | [] => []
            | (k, x) :: rest =>
                match x with
                | JUndefined => members rest
                | _ => (quote k ++ ":" ++ stringify x) :: members rest
                end
            end) fields)
      ++ "}"
  end.

(** *** Parsing *)

Definition is_whitespace (c : ascii) : bool :=
  let n := N_of_ascii c in
  N.eqb n 32 || N.eqb n 9 || N.eqb n 10 || N.eqb n 13.

Fixpoint skip_whitespace (s : string) : string :=
  match s with
  | String c rest => if is_whitespace c then skip_whitespace rest else s
  | EmptyString => s
  end.

Definition digit_value (c : ascii) : option Z :=
  let n := N_of_ascii c in
  if N.leb 48 n && N.leb n 57 then Some (Z.of_N n - 48) else None.

Definition hex_value (c : ascii) : option N :=
  let n := N_of_ascii c in
  if N.leb 48 n && N.leb n 57 then Some (n - 48)%N
  else if N.leb 97 n && N.leb n 102 then Some (n - 87)%N
  else if N.leb 65 n && N.leb n 70 then Some (n - 55)%N
  else None.

(** The character a two-character escape stands for. *)
Definition unescape (c : ascii) : option ascii :=
  let n := N_of_ascii c in
  if N.eqb n 34 then Some (ascii_of_nat 34)
  else if N.eqb n 92 then Some (ascii_of_nat 92)
  else if N.eqb n 47 then Some (ascii_of_nat 47)
  else if N.eqb n 98 then Some (ascii_of_nat 8)
  else if N.eqb n 102 then Some (ascii_of_nat 12)
  else if N.eqb n 110 then Some (ascii_of_nat 10)
  else if N.eqb n 114 then Some (ascii_of_nat 13)
  else if N.eqb n 116 then Some (ascii_of_nat 9)
  else None.

Definition prepend (c : ascii) (r : option (string * string))
  : option (string * string) :=
  match r with
  | Some (s, rest) => Some (String c s, rest)
  | None => None
  end.

(** The characters of a string literal, after its opening quotation mark,
    and the text after its closing one. *)
Fixpoint parse_chars (s : string) : option (string * string) :=
  match s with
  | EmptyString => None
  | String c rest =>
      let n := N_of_ascii c in
      if N.eqb n 34 then Some (EmptyString, rest)
      else if N.eqb n 92 then
        match rest with
        | String e rest' =>
            match unescape e with
            | Some ch => prepend ch (parse_chars rest')
            | None =>
                if N.eqb (N_of_ascii e) 117 then
                  match rest' with
                  | String h1 (String h2 (String h3 (String h4 rest''))) =>
                      match hex_value h1, hex_value h2,
                            hex_value h3, hex_value h4 with
                      | Some 0%N, Some 0%N, Some a, Some b =>
                          if N.ltb a 8
                          then prepend (ascii_of_N (16 * a + b))
                                       (parse_chars rest'')
                          else None
                      | _, _, _, _ => None
                      end
                  | _ => None
                  end
                else None
            end
        | EmptyString => None
        end
      else if N.ltb n 32 then None
      else prepend c (parse_chars rest)
  end.

Fixpoint parse_digits (acc : Z) (s : string) : Z * string :=
  match s with
  | String c rest =>
      match digit_value c with
      | Some d => parse_digits (10 * acc + d) rest
      | None => (acc, s)
      end
  | EmptyString => (acc, s)
  end.

(** After an integer, a fraction or an exponent would follow here. *)
Definition ends_number (s : string) : bool :=
  match s with
  | String c _ =>
      let n := N_of_ascii c in
      negb (N.eqb n 46 || N.eqb n 101 || N.eqb n 69)
  | EmptyString => true
  end.

(** An unsigned integer literal: [0], or digits that do not start
    with [0]. *)
Definition parse_natural (s : string) : option (Z * string) :=
  match s with
  | String c rest =>
      match digit_value c with
      | Some 0 => if ends_number rest then
                    match rest with
                    | String c' _ =>
                        match digit_value c' with
                        | Some _ => None
                        | None => Some (0, rest)
                        end
                    | EmptyString => Some (0, rest)
                    end
                  else None
      | Some d =>
          let (n, rest') := parse_digits d rest in
          if ends_number rest' then Some (n, rest') else None
      | None => None
      end
  | EmptyString => None
  end.

(** The index a property name stands for, when it is an array index:
    these keys are enumerated first, in ascending order. *)
Definition index_of_key (k : string) : option Z :=
  match parse_natural k with
  | Some (n, EmptyString) => if n <? 4294967295 then Some n else None
  | _ => None
  end.

(** [CreateDataProperty] on an object under construction, keeping the
    field list in enumeration order. *)
Fixpoint define_property (k : string) (v : JsValue)
         (fields : list (string * JsValue)) : list (string * JsValue) :=
  match fields with
  | [] => [(k, v)]
  | (k', v') :: rest =>
      if String.eqb k k' then (k', v) :: rest
      else
        match index_of_key k, index_of_key k' with
        | Some i, Some j =>
            if i <? j then (k, v) :: fields
            else (k', v') :: define_property k v rest
        | Some _, None => (k, v) :: fields
        | None, _ => (k', v') :: define_property k v rest
        end
  end.

Definition strip_prefix (p s : string) : option string :=
  if String.prefix p s
  then Some (String.substring (String.length p)
                              (String.length s - String.length p) s)
  else None.

Definition starts_with (n : N) (s : string) : option string :=
  match s with
  | String c rest => if N.eqb (N_of_ascii c) n then Some rest else None
  | EmptyString => None
  end.

(** A JSON value at the head of [s] (after whitespace) and the text after
    it.  The fuel bounds the number of values, members and elements. *)
Fixpoint parse_value (fuel : nat) (s : string) : option (JsValue * string) :=
  match fuel with
  | O => None
  | S fuel' =>
      match skip_whitespace s with
      | EmptyString => None
      | String c rest as text =>
          let n := N_of_ascii c in
          if N.eqb n 123 then
            match starts_with 125 (skip_whitespace rest) with
            | Some after => Some (JObject [], after)
            | None => parse_members fuel' [] rest
            end
          else if N.eqb n 91 then
            match starts_with 93 (skip_whitespace rest) with
            | Some after => Some (JArray [], after)
            | None => parse_elements fuel' [] rest
            end
          else if N.eqb n 34 then
            match parse_chars rest with
            | Some (str, after) => Some (JString str, after)
            | None => None
            end
          else if N.eqb n 45 then
            match parse_natural rest with
            | Some (z, after) => Some (JNumber (- z), after)
            | None => None
            end
          else
            match strip_prefix "true" text, strip_prefix "false" text,
                  strip_prefix "null" text with
            | Some after, _, _ => Some (JBool true, after)
            | _, Some after, _ => Some (JBool false, after)
            | _, _, Some after => Some (JNull, after)
            | None, None, None =>
                match parse_natural text with
                | Some (z, after) => Some (JNumber z, after)
                | None => None
                end
            end
      end
  end
(** The members of an object after its opening brace or a comma, up to
    the closing brace. *)
with parse_members (fuel : nat) (acc : list (string * JsValue))
                   (s : string) : option (JsValue * string) :=
  match fuel with
  | O => None
  | S fuel' =>
      match starts_with 34 (skip_whitespace s) with
      | None => None
      | Some body =>
          match parse_chars body with
          | None => None
          | Some (key, after_key) =>
              match starts_with 58 (skip_whitespace after_key) with
              | None => None
              | Some after_colon =>
                  match parse_value fuel' after_colon with
                  | None => None
                  | Some (v, after_value) =>
                      let acc' := define_property key v acc in
                      let text := skip_whitespace after_value in
                      match starts_with 125 text, starts_with 44 text with
                      | Some after, _ => Some (JObject acc', after)
                      | None, Some more => parse_members fuel' acc' more
                      | None, None => None
                      end
                  end
              end
          end
      end
  end
(** The elements of an array, likewise; [acc] holds them in reverse. *)
with parse_elements (fuel : nat) (acc : list JsValue) (s : string)
     : option (JsValue * string) :=
  match fuel with
  | O => None
  | S fuel' =>
      match parse_value fuel' s with
      | None => None
      | Some (v, after_value) =>
          let text := skip_whitespace after_value in
          match starts_with 93 text, starts_with 44 text with
          | Some after, _ => Some (JArray (rev (v :: acc)), after)
          | None, Some more => parse_elements fuel' (v :: acc) more
          | None, None => None
          end
      end
  end.

(** [JSON.parse(text)] on the JSON texts whose numbers are integer
    literals and whose [\u] escapes stay below 128; [None] is the
    [SyntaxError].  Texts with other numbers or escapes are outside this
    fragment and are not handed to it. *)
Definition parse (text : string) : option JsValue :=
  match parse_value (2 * String.length text + 2) text with
  | Some (v, rest) =>
      match skip_whitespace rest with
      | EmptyString => Some v
      | String _ _ => None
      end
  | None => None
  end.
End Json.

(** The [SyntaxError] of [JSON.parse]; the wording of its message is the
    engine's and is not reproduced. *)
Definition SyntaxError : Exn := JsError "SyntaxError: invalid JSON text".

(** A runtime with the concrete [JSON] functions, over given collaborators:
    a provider, a database that may fail, a clock, a random source. *)
Definition runtime
           (provider : CompletionRequest -> nat -> Outcome (list ReadResult))
           (faults : nat -> option Exn) (time : nat -> Z)
           (random : nat -> N) : Env :=
  {| JSON_parse := fun text =>
       match Json.parse text with
       | Some v => Ok v
       | None => Throw SyntaxError
       end;
     JSON_stringify := Json.stringify;
     completions_create := provider;
     db_fails := faults;
     clock := time;
     entropy := random;
     Array_prototype_has := fun k =>
       in_list k
         [ "at"; "concat"; "copyWithin"; "entries"; "every"; "fill";
           "filter"; "find"; "findIndex"; "findLast"; "findLastIndex";
           "flat"; "flatMap"; "forEach"; "includes"; "indexOf"; "join";
           "keys"; "lastIndexOf"; "map"; "pop"; "push"; "reduce";
           "reduceRight"; "reverse"; "shift"; "slice"; "some"; "sort";
           "splice"; "toReversed"; "toSorted"; "toSpliced"; "unshift";
           "values"; "with" ] |}.

Definition args_hi : string :=
  "{" ++ Json.quote "query" ++ ":" ++ Json.quote "hi" ++ "}".

(* ===================================================================== *)
(** * The built-in tools *)
(* ===================================================================== *)

Definition property (type : string) (description : option string)
           (enum : option (list JsValue)) (default : option JsValue)
  : PropertySchema :=
  {| prop_type := Some (TypeName type); prop_description := description;
     prop_enum := enum; prop_default := default |}.

Definition strings (l : list string) : list JsValue := map JString l.

Definition file_read_definition : ToolDefinition :=
  {| tool_name := "file_read";
     tool_description :=
       "Read the contents of a file from the local filesystem";
     parameters :=
       {| properties :=
            [ ("path", property "string" (Some "Path to the file to read")
                                None None);
              ("encoding", property "string" None
                                    (Some (strings ["utf-8"; "base64"]))
                                    (Some (JString "utf-8")));
              ("maxLines",
                property "integer"
                         (Some "Maximum number of lines to read (0 for all)")
                         None (Some (JNumber 0))) ];
          required := Some ["path"] |} |}.

Definition file_write_definition : ToolDefinition :=
  {| tool_name := "file_write";
     tool_description := "Write content to a file on the local filesystem";
     parameters :=
       {| properties :=
            [ ("path", property "string" (Some "Path to the file to write")
                                None None);
              ("content",
                property "string" (Some "Content to write to the file")
                         None None);
              ("append",
                property "boolean"
                         (Some "Append to file instead of overwriting")
                         None (Some (JBool false))) ];
          required := Some ["path"; "content"] |} |}.

Definition file_list_definition : ToolDefinition :=
  {| tool_name := "file_list";
     tool_description := "List files and directories in a given path";
     parameters :=
       {| properties :=
            [ ("path", property "string" (Some "Directory path to list")
                                None None);
              ("recursive",
                property "boolean" (Some "List files recursively")
                         None (Some (JBool false)));
              ("pattern",
                property "string" (Some "Glob pattern to filter files")
                         None None) ];
          required := Some ["path"] |} |}.

Definition web_search_definition : ToolDefinition :=
  {| tool_name := "web_search";
     tool_description := "Search the web for information";
     parameters :=
       {| properties :=
            [ ("query", property "string" (Some "Search query") None None);
              ("numResults",
                property "integer" (Some "Number of results to return")
                         None (Some (JNumber 5))) ];
          required := Some ["query"] |} |}.

Definition web_fetch_definition : ToolDefinition :=
  {| tool_name := "web_fetch";
     tool_description := "Fetch and extract content from a URL";
     parameters :=
       {| properties :=
            [ ("url", property "string" (Some "URL to fetch content from")
                               None None);
              ("extractText",
                property "boolean" (Some "Extract only text content")
                         None (Some (JBool true)));
              ("maxLength",
                property "integer" (Some "Maximum characters to extract")
                         None (Some (JNumber 10000))) ];
          required := Some ["url"] |} |}.

Definition code_execute_definition : ToolDefinition :=
  {| tool_name := "code_execute";
     tool_description := "Execute code in a sandboxed environment";
     parameters :=
       {| properties :=
            [ ("code", property "string" (Some "Code to execute") None None);
              ("language",
                property "string" (Some "Programming language")
                         (Some (strings ["javascript"; "python"; "bash"]))
                         None);
              ("timeout",
                property "integer"
                         (Some "Execution timeout in milliseconds")
                         None (Some (JNumber 30000))) ];
          required := Some ["code"; "language"] |} |}.

Definition data_transform_definition : ToolDefinition :=
  {| tool_name := "data_transform";
     tool_description := "Transform data between formats (JSON, CSV, YAML)";
     parameters :=
       {| properties :=
            [ ("data", property "string" (Some "Data to transform")
                                None None);
              ("fromFormat",
                property "string" (Some "Source format")
                         (Some (strings ["json"; "csv"; "yaml"])) None);
              ("toFormat",
                property "string" (Some "Target format")
                         (Some (strings ["json"; "csv"; "yaml"])) None) ];
          required := Some ["data"; "fromFormat"; "toFormat"] |} |}.

Definition data_query_definition : ToolDefinition :=
  {| tool_name := "data_query";
     tool_description := "Query and filter data using JSONPath";
     parameters :=
       {| properties :=
            [ ("data", property "string" (Some "JSON data to query")
                                None None);
              ("query",
                property "string" (Some "JSONPath query expression")
                         None None) ];
          required := Some ["data"; "query"] |} |}.

Definition builtin_definitions : list ToolDefinition :=
  [ file_read_definition; file_write_definition; file_list_definition;
    web_search_definition; web_fetch_definition; code_execute_definition;
    data_transform_definition; data_query_definition ].

(** [toolRegistry] after the module has registered the built-in tools, in
    registration order.  [implementation name] is the function registered
    under [name] ([fileSystemTool.read], [webSearchTool.search], ...). *)
Definition builtin_registry
           (implementation : string -> JsValue -> nat -> Outcome ToolResult)
  : list (string * RegisteredTool) :=
  fold_left
    (fun registry def =>
       Map_set String.eqb (tool_name def)
               {| execute := implementation (tool_name def);
                  definition := def |}
               registry)
    builtin_definitions [].

(** The world when the modules have been loaded: no correlation identifier
    yet, the built-in tools registered, nothing observed. *)
Definition loaded
           (implementation : string -> JsValue -> nat -> Outcome ToolResult)
           (session_table : list SessionRow)
           (message_table : list MessageRow) : World :=
  {| correlationId := None;
     toolRegistry := builtin_registry implementation;
     sessions := session_table;
     messages := message_table;
     trace := [];
     ticks := O |}.

(* ===================================================================== *)
(** * What a run leaves behind *)
(* ===================================================================== *)

(** The steps of the pipeline among the events: a call of [executeTool]
    (the log entry it opens with), a message row written, a completion
    requested, and what happens to the caller-facing stream. *)
Definition pipeline_step (ev : Event) : bool :=
  match ev with
  | Log Info message _ _ => String.eqb message "Executing tool"
  | MessageCreated _ | CompletionCall _ => true
  | Enqueue _ | Close | StreamError _ => true
  | _ => false
  end.

Definition observe (evs : list Event) : list Event := filter pipeline_step evs.

(** The rows written, in order. *)
Definition created (evs : list Event) : list MessageRow :=
  flat_map (fun ev => match ev with
                      | MessageCreated row => [row]
                      | _ => []
                      end) evs.

(** The tools entered, in order. *)
Definition invoked (evs : list Event) : list (string * JsValue) :=
  flat_map (fun ev => match ev with
                      | ToolInvoked name params => [(name, params)]
                      | _ => []
                      end) evs.

(** What went to the caller, in order. *)
Definition enqueued (evs : list Event) : list string :=
  flat_map (fun ev => match ev with
                      | Enqueue bytes => [bytes]
                      | _ => []
                      end) evs.

(** The session table after some [updatedAt] columns of session
    [sessionId] were set. *)
Definition sessions_touched (sessionId : string)
           (before after : list SessionRow) : Prop :=
  Forall2 (fun s s' => exists t, s' = touch_session sessionId t s)
          before after.

(** [evolves sessionId w w' evs]: from [w] to [w'] the events [evs] were
    added to the trace, the rows they created were added to the message
    table, time went on, and nothing else changed but [updatedAt] of session
    [sessionId] and a correlation identifier that was not set. *)
Record evolves (sessionId : string) (w w' : World) (evs : list Event)
  : Prop := {
  evolves_registry : toolRegistry w' = toolRegistry w;
  evolves_trace : trace w' = (trace w ++ evs)%list;
  evolves_messages : messages w' = (messages w ++ created evs)%list;
  evolves_sessions : sessions_touched sessionId (sessions w) (sessions w');
  evolves_ticks : (ticks w <= ticks w')%nat;
  evolves_correlationId :
    forall id, or_undefined (correlationId w) = Some id ->
               correlationId w' = correlationId w
}.

(** The entry [executeTool] opens with. *)
Definition execution_entry (E : Env) (correlation toolName : string)
           (params : JsValue) : Event :=
  Log Info "Executing tool" correlation
      [ ("correlationId", JString correlation);
        ("toolName", JString toolName);
        ("parameters", JString (JSON_stringify E params)) ].

(** The row [saveMessage] writes for a message. *)
Definition row_of (sessionId : string) (message : ChatMessage) : MessageRow :=
  {| row_sessionId := sessionId; row_role := msg_role message;
     row_content := msg_content message;
     row_name := msg_name message;
     row_toolCallId := msg_toolCallId message |}.

(* ===================================================================== *)
(** * The vocabulary of the properties, and sample data *)
(* ===================================================================== *)

Unset Implicit Arguments.

(** ** The error taxonomy *)

(** The code [handleOpenAIError] gives an [APIError] of the SDK, by its
    status. *)
Definition status_code (status : option Z) : string :=
  match status with
  | Some s =>
      if s =? 400 then "BAD_REQUEST"
      else if s =? 401 then "UNAUTHORIZED"
      else if s =? 403 then "FORBIDDEN"
      else if s =? 404 then "NOT_FOUND"
      else if s =? 429 then "RATE_LIMITED"
      else if s =? 500 then "INTERNAL_ERROR"
      else if s =? 503 then "SERVICE_UNAVAILABLE"
      else "UNKNOWN_ERROR"
  | None => "UNKNOWN_ERROR"
  end.

(** The codes the taxonomy of the specification lists. *)
Definition specified_codes : list string :=
  [ "BAD_REQUEST"; "UNAUTHORIZED"; "FORBIDDEN"; "NOT_FOUND"; "RATE_LIMITED";
    "INTERNAL_ERROR"; "CONNECTION_ERROR"; "TIMEOUT"; "UNKNOWN_ERROR" ].

(** An [APIError] of the SDK with status 503. *)
Definition service_unavailable : CaughtError :=
  {| instanceof_APIError := true;
     instanceof_RateLimitError := false;
     instanceof_APIConnectionError := false;
     instanceof_APIConnectionTimeoutError := false;
     caught_status := Some 503;
     caught_message := "503 Service Unavailable" |}.

(** ** Accumulation of argument fragments *)

(** What a delta contributes to the argument string of its index. *)
Definition argument_piece (tc : ToolCallDelta) : string :=
  or_else (match tc_function tc with
           | Some f => fn_arguments f
           | None => None
           end) "".

(** The tool-call deltas of a sequence of chunks, in arrival order. *)
Definition deltas_of (chunks : list StreamChunk) : list ToolCallDelta :=
  flat_map (fun v =>
    flat_map (fun c => match delta_toolCalls (choice_delta c) with
                       | Some tcs => tcs
                       | None => []
                       end) (choices v)) chunks.

(** The pieces delivered for one index, in arrival order. *)
Definition pieces (index : Z) (chunks : list StreamChunk) : list string :=
  map argument_piece
      (filter (fun tc => Z.eqb (tc_index tc) index) (deltas_of chunks)).

(** The buffer after the deltas of a sequence of chunks. *)
Definition bufferChunks (buffer : ToolCallsBuffer) (chunks : list StreamChunk)
  : ToolCallsBuffer :=
  fold_left (fun b v => fold_left bufferChoice (choices v) b) chunks buffer.

(** The argument string the buffer holds for an index. *)
Definition accumulated (index : Z) (buffer : ToolCallsBuffer) : string :=
  match Map_get Z.eqb index buffer with
  | Some e => entry_arguments e
  | None => ""
  end.

(** ** The tool service *)

(** The part of [executeTool] after the registry has been read. *)
Definition executeTool_found (E : Env) (correlationId : string)
           (startTime : Z) (toolName : string) (params : JsValue)
           (tool : RegisteredTool) : M ToolResult :=
  validationError <-
    lift (validateParameters E params (parameters (definition tool))) ;;
  match or_undefined validationError with
  | Some msg =>
      t <- Date_now E ;;
      ret {| success := false; result := None; error := Some msg;
             executionTimeMs := t - startTime |}
  | None =>
      try_catch
        (r <- run_tool toolName tool params ;;
         logger E Info "Tool execution completed"
           [ ("correlationId", JString correlationId);
             ("toolName", JString toolName);
             ("success", JBool (success r));
             ("executionTimeMs", JNumber (executionTimeMs r)) ] ;;;
         recordLatency ("tool_" ++ toolName) (executionTimeMs r) ;;;
         ret r)
        (fun e =>
           logger E Error "Tool execution failed"
             [ ("correlationId", JString correlationId);
               ("toolName", JString toolName);
               ("error", JString (error_message e)) ] ;;;
           t <- Date_now E ;;
           ret {| success := false; result := None;
                  error := Some (error_message e);
                  executionTimeMs := t - startTime |})
  end.

Definition executeTool_not_found (E : Env) (startTime : Z)
           (toolName : string) : M ToolResult :=
  t <- Date_now E ;;
  ret {| success := false; result := None;
         error := Some ("Tool not found: " ++ toolName);
         executionTimeMs := t - startTime |}.

(** On an object, the test of a required field does not throw. *)
Definition field_missing (fields : list (string * JsValue)) (field : string)
  : bool :=
  match assoc field fields with
  | Some v => is_nullish v
  | None => negb (in_list field Object_prototype_keys)
  end.

(** The parameters fail validation against the schema, in the words of the
    specification: a required field is absent, [undefined] or [null]; or a
    field that is present and declared has a runtime type that is not among
    the declared ones; or it violates the [enum] of its declaration. *)
Definition violates (schema : ParameterSchema)
           (fields : list (string * JsValue)) : Prop :=
  (exists field requiredFields,
     required schema = Some requiredFields /\ In field requiredFields /\
     match assoc field fields with
     | Some v => is_nullish v = true
     | None => True
     end)
  \/ (exists key value p,
        In (key, value) fields /\ assoc key (properties schema) = Some p /\
        includes_type (allowedTypes p) (typeof value) = false)
  \/ (exists key value p enum,
        In (key, value) fields /\ assoc key (properties schema) = Some p /\
        prop_enum p = Some enum /\ includes enum value = false).

(** The three messages of [validateParameters]. *)
Definition descriptive (msg : string) : Prop :=
  (exists field, msg = "Missing required field: " ++ field)
  \/ (exists key types actual,
        msg = "Invalid type for " ++ key ++ ": expected " ++ types
              ++ ", got " ++ actual)
  \/ (exists key values,
        msg = "Invalid value for " ++ key ++ ": must be one of " ++ values).

(** [executeTool] returns a failure with a descriptive error and enters no
    tool. *)
Definition rejected (E : Env) (w : World) (toolName : string)
           (fields : list (string * JsValue)) : Prop :=
  exists msg duration w' evs,
    executeTool E toolName (JObject fields) w
    = (Ok {| success := false; result := None; error := Some msg;
             executionTimeMs := duration |}, w')
    /\ descriptive msg
    /\ trace w' = (trace w ++ evs)%list
    /\ invoked evs = [].

(** ** A concrete runtime and world *)

(** A provider whose streams are empty, a database that never fails, a
    clock that advances by a millisecond per reading. *)
Definition silent_provider
  : CompletionRequest -> nat -> Outcome (list ReadResult) :=
  fun _ _ => Ok [].

Definition steady_clock (n : nat) : Z := 1700000000000 + Z.of_nat n.

Definition node : Env :=
  runtime silent_provider (fun _ => None) steady_clock N.of_nat.

(** The same runtime with a clock that is set back by a quarter of a second
    between any two readings. *)
Definition rewound : Env :=
  runtime silent_provider (fun _ => None)
          (fun n => 1700000000000 - 250 * Z.of_nat n) N.of_nat.

(** A parameter object that holds a BigInt: [{ limit: 10n }]. *)
Definition big_parameters : JsValue := JObject [("limit", JBigInt 10)].

(** A tool implementation that succeeds with its parameters as result. *)
Definition echo_tool : JsValue -> nat -> Outcome ToolResult :=
  fun params _ =>
    Ok {| success := true; result := Some params; error := None;
          executionTimeMs := 0 |}.

(** The loaded process, with an empty database. *)
Definition fresh : World := loaded (fun _ => echo_tool) [] [].

(** The registry entry of [file_read] in [fresh]. *)
Definition file_read_tool : RegisteredTool :=
  {| execute := echo_tool; definition := file_read_definition |}.

(** A tool registered without a [required] list. *)
Definition lenient_definition : ToolDefinition :=
  {| tool_name := "echo";
     tool_description := "Echo a text";
     parameters :=
       {| properties := [ ("text", property "string" None None None) ];
          required := None |} |}.

Definition extended : World :=
  snd (registerTool "echo" lenient_definition echo_tool fresh).

(** ** Conditions and steps of a tool call *)

Definition no_database_faults (E : Env) : Prop :=
  forall n, db_fails E n = None.

Definition provider_answers (E : Env) : Prop :=
  forall request n, exists stream,
    completions_create E request n = Ok stream.

(** An object in the sense of the language, an array included: a value on
    which the [in] operator does not throw. *)
Definition is_object (v : JsValue) : bool :=
  match v with
  | JObject _ | JArray _ => true
  | _ => false
  end.

(** The tools of the registry give, for parameters that serialise, results
    that serialise. *)
Definition results_serialise (w : World) : Prop :=
  forall toolName tool params n r,
    assoc toolName (toolRegistry w) = Some tool ->
    serialisable params = true ->
    execute tool params n = Ok r ->
    serialisable (ToolResult_to_js r) = true.

(** The message [handleToolCall] saves for a result that serialises. *)
Definition result_message (E : Env) (toolCall : ToolCallEntry)
           (r : ToolResult) : ChatMessage :=
  toolResultMessage toolCall (JSON_stringify E (ToolResult_to_js r)).

(** The [try] block of [handleToolCall]. *)
Definition handleToolCall_try (E : Env) (sessionId : string)
           (toolCall : ToolCallEntry) : M unit :=
  args <- lift (JSON_parse E (entry_arguments toolCall)) ;;
  r <- executeTool E (entry_name toolCall) args ;;
  content <- lift (stringify E (ToolResult_to_js r)) ;;
  saveMessage E sessionId (toolResultMessage toolCall content) ;;;
  history <- getMessages E sessionId default_limit ;;
  session <- getSession E sessionId ;;
  create_completion E (followUpRequest session history) ;;;
  t1 <- Date_now E ;;
  t2 <- Date_now E ;;
  enqueue_chunk E (toolResultChunk t1 t2).

(** What [enqueue_chunk] hands to the caller for a chunk. *)
Definition encode_chunk (E : Env) (chunk : StreamChunk) : string :=
  JSON_stringify E (StreamChunk_to_js chunk) ++ newline.

(** The steps of a tool call that goes through: the execution, the row of
    its result, the follow-up completion, the chunk that announces the
    result to the caller. *)
Definition complete_steps (E : Env) (sessionId id : string)
           (toolCall : ToolCallEntry) (args : JsValue) (r : ToolResult)
           (request : CompletionRequest) (t1 t2 : Z) : list Event :=
  [ execution_entry E id (entry_name toolCall) args;
    MessageCreated (row_of sessionId (result_message E toolCall r));
    CompletionCall request;
    Enqueue (encode_chunk E (toolResultChunk t1 t2)) ].

(** The rows of a session among the rows of the table. *)
Definition rows_of_session (sessionId : string) (rows : list MessageRow)
  : list MessageRow :=
  filter (fun r => String.eqb (row_sessionId r) sessionId) rows.

(** The conditions under which a tool call gets as far as its follow-up
    completion: the database does not fail, it holds the session, and the
    results of the tools serialise. *)
Definition undisturbed (E : Env) (sessionId : string) (w : World) : Prop :=
  no_database_faults E
  /\ find_session sessionId w <> None
  /\ results_serialise w.

(** A chunk that announces a tool result. *)
Definition announces (E : Env) (bytes : string) : Prop :=
  exists t1 t2, bytes = encode_chunk E (toolResultChunk t1 t2).

(** A row with the [tool] role, in the session. *)
Definition tool_row (sessionId : string) (row : MessageRow) : Prop :=
  row_role row = Tool /\ row_sessionId row = sessionId.

(** The events of tool handling: rows are tool rows of the session, what
    goes to the caller is an announcement, and the stream is neither closed
    nor errored. *)
Definition quiet_event (E : Env) (sessionId : string) (ev : Event) : Prop :=
  match ev with
  | MessageCreated row => tool_row sessionId row
  | Enqueue bytes => announces E bytes
  | Close | StreamError _ => False
  | _ => True
  end.

Definition quiet (E : Env) (sessionId : string) (evs : list Event) : Prop :=
  Forall (quiet_event E sessionId) evs.

(** The steps of one tool call that gets as far as its follow-up
    completion: the execution, the row, the follow-up completion requested
    and, unless the provider rejects the request, the announcement. *)
Definition call_steps (E : Env) (sessionId : string)
           (toolCall : ToolCallEntry) (group : list Event) : Prop :=
  exists id args r request t1 t2 k,
    JSON_parse E (entry_arguments toolCall) = Ok args /\
    (3 <= k <= 4)%nat /\
    (provider_answers E -> k = 4%nat) /\
    group = firstn k (complete_steps E sessionId id toolCall args r
                                     request t1 t2).

(** The entry the [catch] of [handleToolCall] logs. *)
Definition failure_entry (id correlation : string)
           (toolCall : ToolCallEntry) (e : Exn) : Event :=
  Log Error "Tool execution failed" id
      [ ("correlationId", JString correlation);
        ("toolName", JString (entry_name toolCall));
        ("error", JString (error_message e)) ].

(** ** Streams *)

(** The argument string of every buffered tool call parses to an object,
    one that serialises, as the values [JSON.parse] gives do. *)
Definition parse_to_objects (E : Env) (buffer : ToolCallsBuffer) : Prop :=
  Forall (fun kv => exists args,
            JSON_parse E (entry_arguments (snd kv)) = Ok args
            /\ is_object args = true /\ serialisable args = true)
         buffer.

(** The chunks the loop reads: up to the first that carries a finish
    reason, or up to a rejected read. *)
Definition finishes (v : StreamChunk) : bool :=
  existsb has_finishReason (choices v).

Fixpoint consumed (inputStream : list ReadResult) : list StreamChunk :=
  match inputStream with
  | [] => []
  | ReadFailure _ :: _ => []
  | ReadValue v :: rest => v :: (if finishes v then [] else consumed rest)
  end.

(** What reaches the caller for the chunks read: each chunk as it is, in
    order, each after the announcements of the tool calls it set off. *)
Inductive forwarded (E : Env) : list StreamChunk -> list string -> Prop :=
| forwarded_nil : forwarded E [] []
| forwarded_cons v rest announcements out :
    Forall (announces E) announcements ->
    forwarded E rest out ->
    forwarded E (v :: rest) (announcements ++ encode_chunk E v :: out).

(** The indexes in the order in which each arrived first. *)
Definition first_arrivals (indexes : list Z) : list Z :=
  fold_left (fun seen i => if existsb (Z.eqb i) seen then seen
                           else (seen ++ [i])%list)
            indexes [].

(** ** Sample streams *)

Definition some_delta (index : Z) (id name arguments : string)
  : ToolCallDelta :=
  {| tc_index := index; tc_id := Some id;
     tc_function :=
       Some {| fn_name := Some name; fn_arguments := Some arguments |} |}.

(** A later delta for an index: more of the argument string only. *)
Definition more_arguments (index : Z) (arguments : string) : ToolCallDelta :=
  {| tc_index := index; tc_id := Some "";
     tc_function :=
       Some {| fn_name := Some ""; fn_arguments := Some arguments |} |}.

Definition chunk_with (cs : list Choice) : StreamChunk :=
  {| chunk_id := "chatcmpl-1"; chunk_created := 1700000000;
     chunk_model := "gpt-4-turbo-preview"; choices := cs |}.

Definition delta_chunk (tcs : list ToolCallDelta) : StreamChunk :=
  chunk_with
    [ {| choice_index := 0;
         choice_delta :=
           {| delta_role := Some "assistant"; delta_content := Some None;
              delta_toolCalls := Some tcs |};
         finishReason := None |} ].

Definition content_chunk (text : string) : StreamChunk :=
  chunk_with
    [ {| choice_index := 0;
         choice_delta :=
           {| delta_role := None; delta_content := Some (Some text);
              delta_toolCalls := None |};
         finishReason := None |} ].

Definition finish_choice (reason : string) : Choice :=
  {| choice_index := 0;
     choice_delta :=
       {| delta_role := None; delta_content := None;
          delta_toolCalls := None |};
     finishReason := Some reason |}.

Definition finish_chunk (reason : string) : StreamChunk :=
  chunk_with [finish_choice reason].

Definition support_session : SessionRow :=
  {| session_id := "s1"; session_userId := "u1";
     session_title := "Support";
     session_systemPrompt := Some "Be brief.";
     session_metadata := JNull;
     session_createdAt := 1699999990000;
     session_updatedAt := 1699999990000 |}.

(** The loaded process with one session and no message. *)
Definition home : World := loaded (fun _ => echo_tool) [support_session] [].

Definition args_path : string :=
  "{" ++ Json.quote "path" ++ ":" ++ Json.quote "notes.txt" ++ "}".

(** The arguments of a [data_transform] call whose [transform] makes the
    tool return a BigInt. *)
Definition args_transform : string :=
  "{" ++ Json.quote "data" ++ ":" ++ Json.quote "1" ++ ","
  ++ Json.quote "fromFormat" ++ ":" ++ Json.quote "json" ++ ","
  ++ Json.quote "toFormat" ++ ":" ++ Json.quote "json" ++ ","
  ++ Json.quote "transform" ++ ":" ++ Json.quote "return 1n" ++ "}".

(** What [transformJSON] returns for them: a result that holds the BigInt
    its [eval] gave. *)
Definition bigint_tool : JsValue -> nat -> Outcome ToolResult :=
  fun _ _ =>
    Ok {| success := true;
          result := Some (JObject [ ("original", JNumber 1);
                                    ("transformed", JBigInt 1) ]);
          error := None;
          executionTimeMs := 0 |}.

(** The loaded process with one session, where [data_transform] answers
    so. *)
Definition transforming : World :=
  loaded (fun name => if String.eqb name "data_transform" then bigint_tool
                      else echo_tool)
         [support_session] [].

(** One call of [data_transform]. *)
Definition transform_call : list StreamChunk :=
  [ delta_chunk [ some_delta 0 "call_t" "data_transform" args_transform ] ].

(** The first half of [args_hi]: not a JSON text. *)
Definition args_cut : string := "{" ++ Json.quote "query" ++ ":".

(** Two tool calls in one turn. *)
Definition two_calls : list StreamChunk :=
  [ delta_chunk [ some_delta 0 "call_a" "web_search" args_hi;
                  some_delta 1 "call_b" "file_read" args_path ] ].

(** One tool call whose argument string stops short. *)
Definition cut_call : list StreamChunk :=
  [ delta_chunk [ some_delta 0 "call_a" "web_search" args_cut ] ].

(** One tool call. *)
Definition one_call : list StreamChunk :=
  [ delta_chunk [ some_delta 0 "call_a" "web_search" args_hi ] ].

Definition turn (chunks : list StreamChunk) : list ReadResult :=
  (map ReadValue chunks ++ [ReadValue (finish_chunk "tool_calls")])%list.

(** The rows written before the first follow-up completion is requested. *)
Fixpoint rows_before_continuation (evs : list Event) : nat :=
  match evs with
  | [] => O
  | CompletionCall _ :: _ => O
  | MessageCreated _ :: rest => S (rows_before_continuation rest)
  | _ :: rest => rows_before_continuation rest
  end.

(** The tools named by the calls of [executeTool], in order. *)
Definition executed (evs : list Event) : list JsValue :=
  flat_map (fun ev =>
    match ev with
    | Log Info message _ meta =>
        if String.eqb message "Executing tool"
        then match assoc "toolName" meta with
             | Some n => [n]
             | None => []
             end
        else []
    | _ => []
    end) evs.

(** A chunk carries tool-call deltas. *)
Definition has_toolCalls (v : StreamChunk) : bool :=
  existsb (fun c => match delta_toolCalls (choice_delta c) with
                    | Some (_ :: _) => true
                    | _ => false
                    end) (choices v).

(** ** Providers *)

(** The same runtime and collaborators, with another provider. *)
Definition with_provider (E : Env)
           (provider : CompletionRequest -> nat -> Outcome (list ReadResult))
  : Env :=
  {| JSON_parse := JSON_parse E;
     JSON_stringify := JSON_stringify E;
     completions_create := provider;
     db_fails := db_fails E;
     clock := clock E;
     entropy := entropy E;
     Array_prototype_has := Array_prototype_has E |}.

(** Two providers reject the same calls in the same way; the streams they
    resolve to may differ. *)
Definition same_rejections
           (p q : CompletionRequest -> nat -> Outcome (list ReadResult))
  : Prop :=
  forall request n,
    match p request n, q request n with
    | Ok _, Ok _ => True
    | Throw e, Throw e' => e = e'
    | _, _ => False
    end.

(** A provider whose follow-up stream has something to say. *)
Definition sunny_continuation : list ReadResult :=
  [ ReadValue (content_chunk "It is sunny.");
    ReadValue (finish_chunk "stop") ].

Definition chatty : Env :=
  runtime (fun _ _ => Ok sunny_continuation) (fun _ => None)
          steady_clock N.of_nat.

(** The completions requested, in order. *)
Definition requested (evs : list Event) : list CompletionRequest :=
  flat_map (fun ev => match ev with
                      | CompletionCall request => [request]
                      | _ => []
                      end) evs.

(* ===================================================================== *)
(** * The rest of the tool service *)
(* ===================================================================== *)

(** [ToolService.getToolDefinition]: [toolRegistry.get(toolName)?.definition
    || null]; a definition is an object, so the result is [null] only when
    the name is not registered. *)
Definition getToolDefinition (toolName : string)
  : M (option ToolDefinition) :=
  gets (fun w => option_map definition (assoc toolName (toolRegistry w))).

(** The values on which the [in] operator throws. *)
Definition is_primitive (v : JsValue) : bool :=
  match v with
  | JObject _ | JArray _ => false
  | _ => true
  end.

(** The entries of a latency or an error among the events. *)
Definition latencies_recorded (evs : list Event) : list (string * Z) :=
  flat_map (fun ev => match ev with
                      | LatencyRec name ms => [(name, ms)]
                      | _ => []
                      end) evs.

Definition errors_logged (evs : list Event) : list (string * string) :=
  flat_map (fun ev => match ev with
                      | Log Error message _ meta =>
                          [(message,
                            match assoc "error" meta with
                            | Some (JString m) => m
                            | _ => ""
                            end)]
                      | _ => []
                      end) evs.

(** The keys of a property table or a registry, in order. *)
Definition keys {V : Type} (l : list (string * V)) : list string :=
  map fst l.

(** A tool implementation that throws. *)
Definition failing_tool : JsValue -> nat -> Outcome ToolResult :=
  fun _ _ => Throw (JsError "ENOENT: no such file or directory").

(** The process after a tool that throws was registered, without a
    [required] list. *)
Definition broken : World :=
  snd (registerTool "broken" lenient_definition failing_tool fresh).

(** The strings [typeof] gives for the values of the embedding. *)
Definition typeof_names : list string :=
  [ "undefined"; "object"; "boolean"; "number"; "bigint"; "string" ].

(** [file_read] called with a line limit. *)
Definition read_ten_lines : list (string * JsValue) :=
  [ ("path", JString "notes.txt"); ("maxLines", JNumber 10) ].

(** [web_search] called with a parameter its schema does not declare. *)
Definition search_with_locale : list (string * JsValue) :=
  [ ("query", JString "hi"); ("locale", JString "fr") ].

(** [web_search] called with a parameter named like a method of every
    object. *)
Definition search_with_toString : list (string * JsValue) :=
  [ ("query", JString "hi"); ("toString", JString "x") ].

(** [file_write] called without its two required fields, and with a field
    of the wrong type. *)
Definition write_nothing : list (string * JsValue) :=
  [ ("append", JString "yes") ].

(** The tool definitions [getRegisteredTools] lists for a registry. *)
Definition listing (registry : list (string * RegisteredTool))
  : list ToolDefinition :=
  map (fun t => definition (snd t)) registry.

(* ===================================================================== *)
(** * The metrics recorder ([MetricsRecorder] of the observability module) *)
(* ===================================================================== *)

(** The two private [Map]s of the recorder.  Counter values and latencies
    are integers: the counters are incremented by integers and a latency is
    a difference of two readings of [Date.now()]. *)
Module Metrics.

Record Recorder : Type := {
  counters : list (string * Z);
  latencies : list (string * list Z)
}.

(** A recorder as [new MetricsRecorder()] leaves it. *)
Definition empty : Recorder := {| counters := []; latencies := [] |}.

(** [this.counters.get(name) || 0] *)
Definition getCounter (name : string) (m : Recorder) : Z :=
  match assoc name (counters m) with
  | Some current => current
  | None => 0
  end.

(** [incrementCounter(name, value = 1)] *)
Definition incrementCounter (name : string) (value : Z) (m : Recorder)
  : Recorder :=
  let current := getCounter name m in
  {| counters := Map_set String.eqb name (current + value) (counters m);
     latencies := latencies m |}.

(** [this.latencies.get(name) || []]; an array is truthy, empty or not. *)
Definition samples (name : string) (m : Recorder) : list Z :=
  match assoc name (latencies m) with
  | Some l => l
  | None => []
  end.

(** [recordLatency]: [push], then [shift] when more than 1000 samples are
    held. *)
Definition recordLatency (name : string) (latencyMs : Z) (m : Recorder)
  : Recorder :=
  let pushed := (samples name m ++ [latencyMs])%list in
  let kept :=
    if (1000 <? Z.of_nat (List.length pushed)) then tl pushed else pushed in
  {| counters := counters m;
     latencies := Map_set String.eqb name kept (latencies m) |}.

(** What the recorder holds after the metrics among some events have been
    recorded, in order: [incrementCounter(name)] for a [CounterInc] and
    [recordLatency(name, ms)] for a [LatencyRec]. *)
Definition record (m : Recorder) (ev : Event) : Recorder :=
  match ev with
  | CounterInc name => incrementCounter name 1 m
  | LatencyRec name ms => recordLatency name ms m
  | _ => m
  end.

Definition replay (evs : list Event) (m : Recorder) : Recorder :=
  fold_left record evs m.

End Metrics.

(** The last [k] elements of a list. *)
Definition lastn {A : Type} (k : nat) (l : list A) : list A :=
  skipn (List.length l - k) l.

(** The latencies recorded under a name, and the increments of a counter,
    among some events. *)
Definition latencies_of (name : string) (evs : list Event) : list Z :=
  flat_map (fun ev => match ev with
                      | LatencyRec n ms =>
                          if String.eqb n name then [ms] else []
                      | _ => []
                      end) evs.

Definition increments_of (name : string) (evs : list Event) : nat :=
  List.length (filter (fun ev => match ev with
                                 | CounterInc n => String.eqb n name
                                 | _ => false
                                 end) evs).

(* ===================================================================== *)
(** * More vocabulary for the chat service *)
(* ===================================================================== *)

(** The identifier and the name a delta carries, empty when it carries
    none. *)
Definition id_piece (tc : ToolCallDelta) : string := or_else (tc_id tc) "".

Definition name_piece (tc : ToolCallDelta) : string :=
  or_else (match tc_function tc with
           | Some f => fn_name f
           | None => None
           end) "".

(** The deltas delivered for one index, in arrival order. *)
Definition deltas_at (index : Z) (chunks : list StreamChunk)
  : list ToolCallDelta :=
  filter (fun tc => Z.eqb (tc_index tc) index) (deltas_of chunks).

(** The last string of a list that is not empty; the empty string when
    there is none. *)
Definition last_nonempty (l : list string) : string :=
  last (filter str_truthy l) "".

(** The identifier and the name the buffer holds for an index. *)
Definition buffered_id (index : Z) (buffer : ToolCallsBuffer) : string :=
  match Map_get Z.eqb index buffer with
  | Some e => entry_id e
  | None => ""
  end.

Definition buffered_name (index : Z) (buffer : ToolCallsBuffer) : string :=
  match Map_get Z.eqb index buffer with
  | Some e => entry_name e
  | None => ""
  end.

(** A name delivered in two deltas. *)
Definition name_in_halves : list StreamChunk :=
  [ delta_chunk [ some_delta 0 "call_a" "web_" "" ];
    delta_chunk [ some_delta 0 "" "search" args_hi ] ].

(** How the reading of the input stream ends: the stream is exhausted, a
    chunk carries a finish reason, or a read is rejected. *)
Inductive StreamEnd : Type :=
| Exhausted
| Finished
| Failed (e : Exn).

Fixpoint stream_end (inputStream : list ReadResult) : StreamEnd :=
  match inputStream with
  | [] => Exhausted
  | ReadFailure e :: _ => Failed e
  | ReadValue v :: rest => if finishes v then Finished else stream_end rest
  end.

(** The events that settle the caller-facing stream. *)
Definition settles (ev : Event) : bool :=
  match ev with
  | Close | StreamError _ => true
  | _ => false
  end.

Definition settlement (evs : list Event) : list Event := filter settles evs.

(** A chunk one of whose choices carries the finish reason [tool_calls]. *)
Definition calls_tools (v : StreamChunk) : bool :=
  existsb finished_with_tool_calls (choices v).

(** A request for a session the store does not hold. *)
Definition stray_request : ChatRequest :=
  {| chat_messages :=
       [ {| msg_role := User; msg_content := "Hello";
            msg_name := None; msg_toolCallId := None |} ];
     chat_sessionId := "nowhere";
     chat_systemPrompt := None;
     chat_model := None;
     chat_temperature := None;
     chat_maxTokens := None;
     chat_stream := None |}.

(* ===================================================================== *)
(** * The middleware ([middleware.ts]) *)
(* ===================================================================== *)

(** A [Headers] object: the names are kept in lower case, which is how
    [get] and [set] compare them, and each name is held once. *)
Definition Headers : Type := list (string * string).

(** [headers.get(name)] for a name in lower case; [None] is [null]. *)
Definition Headers_get (name : string) (h : Headers) : option string :=
  assoc name h.

(** What a [NextRequest] holds for the middleware and the authentication
    module. *)
Record NextRequest : Type := {
  request_method : string;
  request_pathname : string;
  request_searchParams : list (string * string);
  request_headers : Headers
}.

(** The body of the JSON responses of the middleware; the timestamp is the
    instant [new Date()] read, in milliseconds. *)
Record ErrorBody : Type := {
  body_code : string;
  body_message : string;
  body_timestamp : Z
}.

(** What the middleware answers: a response of its own, or
    [NextResponse.next()], with the request headers it overrides if any. *)
Inductive MiddlewareResponse : Type :=
| Respond (status : Z) (body : option ErrorBody) (responseHeaders : Headers)
| Next (requestHeaders : option Headers).

(** A record of [rateLimitStore]. *)
Record RateRecord : Type := {
  record_count : Z;
  record_resetTime : Z
}.

(** [rateLimitStore], a [Map] in insertion order. *)
Definition RateLimitStore : Type := list (string * RateRecord).

Definition protectedPaths : list string := [ "/api/sessions"; "/api/messages" ].

Definition publicPaths : list string :=
  [ "/api/health"; "/api/tools"; "/api/docs" ].

Definition windowMs : Z := 60000.

Definition maxRequests : Z := 100.

(** [Math.ceil(a / b)] for integers [a] and [b > 0]. *)
Definition ceil_div (a b : Z) : Z := (a + b - 1) / b.

(** [s.slice(n)] *)
Fixpoint slice (n : nat) (s : string) : string :=
  match n, s with
  | O, _ => s
  | S n', String _ rest => slice n' rest
  | S _, EmptyString => EmptyString
  end.

(** [paths.some((p) => path.startsWith(p))] *)
Definition some_prefix (paths : list string) (path : string) : bool :=
  existsb (fun p => String.prefix p path) paths.

(** The key of the limiter: [request.headers.get('x-forwarded-for') ||
    'unknown']. *)
Definition client (request : NextRequest) : string :=
  or_else (Headers_get "x-forwarded-for" (request_headers request)) "unknown".

(** The loop that deletes the records whose time is over. *)
Definition cleanup (now : Z) (store : RateLimitStore) : RateLimitStore :=
  if (10000 <? Z.of_nat (List.length store))
  then filter (fun kv => negb (record_resetTime (snd kv) <? now)) store
  else store.

(** [applyRateLimit]; [now] is its reading of [Date.now()], [stamp] the
    instant [new Date()] reads for a refusal.  [None] is [null]: the request
    goes on. *)
Definition applyRateLimit (request : NextRequest) (now stamp : Z)
           (store : RateLimitStore)
  : option MiddlewareResponse * RateLimitStore :=
  let ip := client request in
  let live :=
    match assoc ip store with
    | Some record =>
        if (now <? record_resetTime record) then Some record else None
    | None => None
    end in
  match live with
  | Some record =>
      if (maxRequests <=? record_count record) then
        (Some (Respond 429
                 (Some {| body_code := "RATE_LIMITED";
                          body_message :=
                            "Too many requests. Please try again later.";
                          body_timestamp := stamp |})
                 [ ("Retry-After",
                     Z_to_string
                       (ceil_div (record_resetTime record - now) 1000));
                   ("X-RateLimit-Limit", Z_to_string maxRequests);
                   ("X-RateLimit-Remaining", "0");
                   ("X-RateLimit-Reset",
                     Z_to_string (ceil_div (record_resetTime record) 1000)) ]),
         store)
      else
        (None,
         cleanup now
           (Map_set String.eqb ip
              {| record_count := record_count record + 1;
                 record_resetTime := record_resetTime record |}
              store))
  | None =>
      (None,
       cleanup now
         (Map_set String.eqb ip
            {| record_count := 1; record_resetTime := now + windowMs |} store))
  end.

(** The claims [verifyToken] returns: [sub], [email] and [role] as the
    verified payload holds them, whatever their type. *)
Record JWTPayload : Type := {
  payload_sub : JsValue;
  payload_email : JsValue;
  payload_role : JsValue
}.

(** [requestHeaders.set(name, value)] for a name in lower case and a text
    the object accepts as it is. *)
Definition Headers_set (name value : string) (h : Headers) : Headers :=
  Map_set String.eqb name value h.

Section Middleware.
(** [verifyToken] of the authentication module: the payload of a token the
    library verifies, [None] for [null]. *)
Variable verifyToken : string -> option JWTPayload.
(** What a [Headers] object stores for a value it is given: the value
    without its leading and trailing white space; a [Throw] is the
    [TypeError] of [set] (a line break or a character beyond Latin-1 in the
    value). *)
Variable Headers_value : string -> Outcome string.

(** [requestHeaders.set(name, value)] with a value of any type, which is
    turned into a string first. *)
Definition set_header (name : string) (value : JsValue) (h : Headers)
  : Outcome Headers :=
  match Headers_value (js_to_string value) with
  | Ok text => Ok (Headers_set name text h)
  | Throw e => Throw e
  end.

(** [middleware]; [now] and [stamp] as for [applyRateLimit]. *)
Definition middleware (request : NextRequest) (now stamp : Z)
           (store : RateLimitStore)
  : Outcome MiddlewareResponse * RateLimitStore :=
  let path := request_pathname request in
  if String.eqb (request_method request) "OPTIONS" then
    (Ok (Respond 204 None
           [ ("Access-Control-Allow-Origin", "*");
             ("Access-Control-Allow-Methods",
               "GET, POST, PUT, DELETE, OPTIONS");
             ("Access-Control-Allow-Headers",
               "Content-Type, Authorization, X-API-Key");
             ("Access-Control-Max-Age", "86400") ]),
     store)
  else
    match applyRateLimit request now stamp store with
    | (Some rateLimitResult, store') => (Ok rateLimitResult, store')
    | (None, store') =>
        if some_prefix publicPaths path then (Ok (Next None), store')
        else if some_prefix protectedPaths path then
          let authHeader :=
            Headers_get "authorization" (request_headers request) in
          let apiKey := Headers_get "x-api-key" (request_headers request) in
          match or_undefined authHeader, or_undefined apiKey with
          | None, None =>
              (Ok (Respond 401
                     (Some {| body_code := "UNAUTHORIZED";
                              body_message := "Authentication required";
                              body_timestamp := stamp |}) []),
               store')
          | _, _ =>
              if String.prefix "Bearer " (or_else authHeader "") then
                match verifyToken (slice 7 (or_else authHeader "")) with
                | None =>
                    (Ok (Respond 401
                           (Some {| body_code := "INVALID_TOKEN";
                                    body_message := "Invalid or expired token";
                                    body_timestamp := stamp |}) []),
                     store')
                | Some payload =>
                    match set_header "x-user-id" (payload_sub payload)
                                     (request_headers request) with
                    | Throw e => (Throw e, store')
                    | Ok h1 =>
                        match set_header "x-user-email"
                                         (payload_email payload) h1 with
                        | Throw e => (Throw e, store')
                        | Ok h2 =>
                            match set_header "x-user-role"
                                             (payload_role payload) h2 with
                            | Throw e => (Throw e, store')
                            | Ok h3 => (Ok (Next (Some h3)), store')
                            end
                        end
                    end
                end
              else (Ok (Next None), store')
          end
        else (Ok (Next None), store')
    end.
End Middleware.

(** The requests the limiter sees, each with its two readings of the
    clock, served one after the other. *)
Fixpoint serve (calls : list (NextRequest * Z * Z)) (store : RateLimitStore)
  : list (option MiddlewareResponse) * RateLimitStore :=
  match calls with
  | [] => ([], store)
  | (request, now, stamp) :: rest =>
      let (answer, store') := applyRateLimit request now stamp store in
      let (answers, store'') := serve rest store' in
      (answer :: answers, store'')
  end.

Definition admitted (answer : option MiddlewareResponse) : bool :=
  match answer with
  | None => true
  | Some _ => false
  end.

(** Whether each request of a client was admitted, in order. *)
Fixpoint admissions (ip : string) (calls : list (NextRequest * Z * Z))
         (answers : list (option MiddlewareResponse)) : list bool :=
  match calls, answers with
  | (request, _, _) :: calls', answer :: answers' =>
      if String.eqb (client request) ip
      then admitted answer :: admissions ip calls' answers'
      else admissions ip calls' answers'
  | _, _ => []
  end.

(** The number of requests of a client. *)
Definition requests_of (ip : string) (calls : list (NextRequest * Z * Z))
  : nat :=
  List.length (filter (fun c => String.eqb (client (fst (fst c))) ip) calls).

(** A request from an address. *)
Definition request_from (ip path : string) : NextRequest :=
  {| request_method := "GET"; request_pathname := path;
     request_searchParams := [];
     request_headers := [ ("x-forwarded-for", ip) ] |}.

(* ===================================================================== *)
(** * The authentication module (after [file-system.ts]) *)
(* ===================================================================== *)

(** [s.split(sep)] for a separator of one character *)
Fixpoint String_split (sep : ascii) (s : string) : list string :=
  match s with
  | EmptyString => [EmptyString]
  | String c rest =>
      if Ascii.eqb c sep then EmptyString :: String_split sep rest
      else match String_split sep rest with
           | part :: parts => String c part :: parts
           | [] => [String c EmptyString]
           end
  end.

(** [s.slice(0, n)] *)
Fixpoint slice_to (n : nat) (s : string) : string :=
  match n, s with
  | S n', String c rest => String c (slice_to n' rest)
  | _, _ => EmptyString
  end.

(** [payload.sub], where [payload] is what [JSON.parse] returned.  [None]
    is the method [String.prototype.sub], which a string inherits; [null]
    has no properties and the read throws. *)
Definition read_sub (payload : JsValue) : Outcome (option JsValue) :=
  match payload with
  | JUndefined | JNull =>
      Throw (JsError "Cannot read properties of null (reading 'sub')")
  | JObject fields =>
      Ok (Some match assoc "sub" fields with
               | Some v => v
               | None => JUndefined
               end)
  | JString _ => Ok None
  | _ => Ok (Some JUndefined)
  end.

Section Authentication.
Variable E : Env.
(** [atob]: the text a base64 string encodes, or its exception. *)
Variable atob : string -> Outcome string.

(** [verifyTokenSync], as far as [getUserId] looks at its result: [None]
    is [null], [Some sub] a payload object whose [sub] is that. *)
Definition verifyTokenSync (token : string) : option (option JsValue) :=
  match String_split "." token with
  | [ _; middle; _ ] =>
      match atob middle with
      | Throw _ => None
      | Ok text =>
          match JSON_parse E text with
          | Throw _ => None
          | Ok payload =>
              match read_sub payload with
              | Throw _ => None
              | Ok sub => Some sub
              end
          end
      end
  | _ => None
  end.

(** [getUserId]: what it returns, [None] being the method
    [String.prototype.sub]. *)
Definition getUserId (request : NextRequest) : option JsValue :=
  let authHeader := Headers_get "authorization" (request_headers request) in
  let payload :=
    if String.prefix "Bearer " (or_else authHeader "")
    then verifyTokenSync (slice 7 (or_else authHeader ""))
    else None in
  match payload with
  | Some sub => sub
  | None =>
      let apiKey :=
        match or_undefined
                (Headers_get "x-api-key" (request_headers request)) with
        | Some key => Some key
        | None => assoc "apiKey" (request_searchParams request)
        end in
      match or_undefined apiKey with
      | Some key => Some (JString ("api-" ++ slice_to 8 key))
      | None => Some JNull
      end
  end.
End Authentication.

(** [n.toString(16)] for a natural number *)
Fixpoint hex_of (fuel : nat) (n : N) : string :=
  match fuel with
  | O => EmptyString
  | S f =>
      if N.eqb n 0 then EmptyString
      else hex_of f (N.div n 16) ++ String (hex_digit n) EmptyString
  end.

Definition toString16 (n : N) : string :=
  if N.eqb n 0 then "0" else hex_of (N.to_nat (N.size n)) n.

(** [s.padStart(targetLength, pad)] for a pad of one character *)
Definition padStart (targetLength : nat) (pad : ascii) (s : string)
  : string :=
  string_of_list_ascii (repeat pad (targetLength - String.length s)) ++ s.

(** The bytes [crypto.getRandomValues] writes to a [Uint8Array] of the
    given length, drawn from the random bits [r], lowest first. *)
Fixpoint getRandomValues (length : nat) (r : N) : list N :=
  match length with
  | O => []
  | S l => N.modulo r 256 :: getRandomValues l (N.div r 256)
  end.

(** [generateApiKey], from 256 random bits *)
Definition generateApiKey (r : N) : string :=
  join "" (map (fun byte => padStart 2 "0" (toString16 byte))
               (getRandomValues 32 r)).

(** Whether a character is a digit of lower-case hexadecimal notation. *)
Definition is_hex (c : ascii) : bool :=
  existsb (Ascii.eqb c) (list_ascii_of_string "0123456789abcdef").

(** The value of a digit of hexadecimal notation, and the bytes a text in
    that notation stands for, two digits a byte. *)
Fixpoint position (c : ascii) (l : list ascii) : nat :=
  match l with
  | [] => O
  | x :: rest => if Ascii.eqb c x then O else S (position c rest)
  end.

Definition digit_of (c : ascii) : N :=
  N.of_nat (position c (list_ascii_of_string "0123456789abcdef")).

Fixpoint unhex (s : string) : list N :=
  match s with
  | String a (String b rest) => (16 * digit_of a + digit_of b)%N :: unhex rest
  | _ => []
  end.

(** Whether a string holds a character. *)
Fixpoint mentions (c : ascii) (s : string) : bool :=
  match s with
  | EmptyString => false
  | String c' rest => Ascii.eqb c' c || mentions c rest
  end.

(** A request with a token in its [Authorization] header. *)
Definition token_request (token : string) : NextRequest :=
  {| request_method := "GET"; request_pathname := "/api/sessions";
     request_searchParams := [];
     request_headers := [ ("authorization", "Bearer " ++ token) ] |}.

(** The claims of an administrator, and an [atob] that knows their
    encoding. *)
Definition admin_claims : string :=
  "{" ++ Json.quote "sub" ++ ":" ++ Json.quote "admin" ++ "}".

Definition sample_atob (s : string) : Outcome string :=
  if String.eqb s "eyJzdWIiOiJhZG1pbiJ9" then Ok admin_claims
  else Throw (JsError "The string to be decoded is not correctly encoded.").

(** A runtime whose database rejects its third operation. *)
Definition flaky : Env :=
  runtime silent_provider
          (fun n => if Nat.eqb n 2 then Some (JsError "Connection lost")
                    else None)
          steady_clock N.of_nat.

(** [home] after [setCorrelationId("c1")]. *)
Definition traced : World := set_correlationId (Some "c1") home.

(** A greeting. *)
Definition hello : ChatMessage :=
  {| msg_role := User; msg_content := "Hello";
     msg_name := Some ""; msg_toolCallId := None |}.

(** A request in the session of [home]. *)
Definition hello_request : ChatRequest :=
  {| chat_messages := [ hello ];
     chat_sessionId := "s1";
     chat_systemPrompt := None;
     chat_model := None;
     chat_temperature := None;
     chat_maxTokens := None;
     chat_stream := None |}.

(** The first entry of the log of [processChat]. *)
Definition processing_entry (id : string) (request : ChatRequest) : Event :=
  Log Info "Processing chat request" id
    [ ("correlationId", JString id);
      ("sessionId", JString (chat_sessionId request));
      ("messageCount",
        JNumber (Z.of_nat (List.length (chat_messages request))));
      ("stream", JBool match chat_stream request with
                       | Some b => b
                       | None => true
                       end) ].

(** The error [processChat] rejects with, for what its [try] block
    threw. *)
Definition chat_error (e : Exn) : Exn :=
  match e with
  | ApiError _ _ _ => e
  | _ => ApiError "CHAT_ERROR" "Failed to process chat" None
  end.

(** ** More vocabulary and sample data *)

(** No record of the client is still running at [t0]. *)
Definition idle (ip : string) (t0 : Z) (store : RateLimitStore) : Prop :=
  Forall (fun kv => fst kv = ip -> record_resetTime (snd kv) <= t0) store.

(** A request for the sessions of the service with a key of one letter. *)
Definition keyed_request : NextRequest :=
  {| request_method := "GET"; request_pathname := "/api/sessions";
     request_searchParams := [];
     request_headers := [ ("x-forwarded-for", "10.0.0.1");
                          ("x-api-key", "x");
                          ("x-user-id", "admin") ] |}.

(** A request with a token and, beside it, a key and an identity of the
    client's own. *)
Definition bearer_request : NextRequest :=
  {| request_method := "GET"; request_pathname := "/api/sessions/42";
     request_searchParams := [];
     request_headers := [ ("authorization", "Bearer abc");
                          ("x-api-key", "x");
                          ("x-user-id", "admin") ] |}.

(** What [generateApiKey] writes for a byte: two digits, which read back
    as the byte. *)
Definition byte_text_ok (n : nat) : bool :=
  match padStart 2 "0" (toString16 (N.of_nat n)) with
  | String a (String b EmptyString) =>
      is_hex a && is_hex b
      && N.eqb (16 * digit_of a + digit_of b) (N.of_nat n)
  | _ => false
  end.

(** The number some bytes stand for, lowest first. *)
Fixpoint number_of (bytes : list N) : N :=
  match bytes with
  | [] => 0
  | byte :: rest => byte + 256 * number_of rest
  end.

(* ===================================================================== *)
(** * Properties *)
(* ===================================================================== *)

(** ** The concrete [JSON] functions on sample texts *)

Example parse_args_hi :
  Json.parse args_hi = Some (JObject [("query", JString "hi")]).
Proof. vm_compute. reflexivity. Qed.

Example parse_empty_object : Json.parse "{}" = Some (JObject []).
Proof. vm_compute. reflexivity. Qed.

Example parse_empty_text : Json.parse "" = None.
Proof. vm_compute. reflexivity. Qed.

Example parse_nested :
  Json.parse ("{ " ++ Json.quote "b" ++ ": [1, -2, true, null], "
              ++ Json.quote "1" ++ " : {} }")
  = Some (JObject [("1", JObject []);
                   ("b", JArray [JNumber 1; JNumber (-2); JBool true; JNull])]).
Proof. vm_compute. reflexivity. Qed.

Example stringify_parse_args_hi :
  Json.stringify (JObject [("query", JString "hi")]) = args_hi.
Proof. vm_compute. reflexivity. Qed.

(** ** Running computations *)

Lemma bind_ok {A B : Type} (m : M A) (f : A -> M B) w a w' :
  m w = (Ok a, w') -> bind m f w = f a w'.
Proof. intros H. unfold bind. rewrite H. reflexivity. Qed.

Lemma bind_throw {A B : Type} (m : M A) (f : A -> M B) w e w' :
  m w = (Throw e, w') -> bind m f w = (Throw e, w').
Proof. intros H. unfold bind. rewrite H. reflexivity. Qed.

Lemma try_ok {A : Type} (m : M A) (h : Exn -> M A) w a w' :
  m w = (Ok a, w') -> try_catch m h w = (Ok a, w').
Proof. intros H. unfold try_catch. rewrite H. reflexivity. Qed.

Lemma try_throw {A : Type} (m : M A) (h : Exn -> M A) w e w' :
  m w = (Throw e, w') -> try_catch m h w = h e w'.
Proof. intros H. unfold try_catch. rewrite H. reflexivity. Qed.

Lemma observe_app a b : observe (a ++ b) = (observe a ++ observe b)%list.
Proof. apply filter_app. Qed.

Lemma created_app a b : created (a ++ b) = (created a ++ created b)%list.
Proof. apply flat_map_app. Qed.

Lemma enqueued_app a b : enqueued (a ++ b) = (enqueued a ++ enqueued b)%list.
Proof. apply flat_map_app. Qed.

Lemma invoked_app a b : invoked (a ++ b) = (invoked a ++ invoked b)%list.
Proof. apply flat_map_app. Qed.

Lemma created_observe evs : created (observe evs) = created evs.
Proof.
  induction evs as [|ev evs IH]; [reflexivity|].
  destruct ev; simpl; try exact IH.
  - destruct level; simpl; try exact IH.
    destruct (String.eqb message "Executing tool"); simpl; exact IH.
  - f_equal. exact IH.
Qed.

Lemma enqueued_observe evs : enqueued (observe evs) = enqueued evs.
Proof.
  induction evs as [|ev evs IH]; [reflexivity|].
  destruct ev; simpl; try exact IH.
  - destruct level; simpl; try exact IH.
    destruct (String.eqb message "Executing tool"); simpl; exact IH.
  - f_equal. exact IH.
Qed.

Section Evolution.
Variable sessionId : string.

Lemma touch_session_self s :
  touch_session sessionId (session_updatedAt s) s = s.
Proof.
  unfold touch_session.
  destruct (String.eqb (session_id s) sessionId); [|reflexivity].
  destruct s; reflexivity.
Qed.

Lemma touch_session_twice t t' s :
  touch_session sessionId t' (touch_session sessionId t s)
  = touch_session sessionId t' s.
Proof.
  unfold touch_session.
  destruct (String.eqb (session_id s) sessionId) eqn:H; simpl;
    rewrite H; reflexivity.
Qed.

Lemma touch_session_id t s :
  session_id (touch_session sessionId t s) = session_id s.
Proof.
  unfold touch_session.
  destruct (String.eqb (session_id s) sessionId); reflexivity.
Qed.

Lemma touch_session_systemPrompt t s :
  session_systemPrompt (touch_session sessionId t s)
  = session_systemPrompt s.
Proof.
  unfold touch_session.
  destruct (String.eqb (session_id s) sessionId); reflexivity.
Qed.

Lemma sessions_touched_refl l : sessions_touched sessionId l l.
Proof.
  induction l as [|s l IH]; constructor; [|exact IH].
  exists (session_updatedAt s). symmetry. apply touch_session_self.
Qed.

Lemma sessions_touched_trans l1 l2 l3 :
  sessions_touched sessionId l1 l2 -> sessions_touched sessionId l2 l3 ->
  sessions_touched sessionId l1 l3.
Proof.
  intros H12. revert l3.
  induction H12 as [|s1 s2 l1 l2 [t Ht] _ IH]; intros l3 H23.
  - inversion H23. constructor.
  - inversion H23 as [|s2' s3 l2' l3' [t' Ht'] Hrest]; subst.
    constructor; [|apply IH; exact Hrest].
    exists t'. apply touch_session_twice.
Qed.

Lemma sessions_touched_map t l :
  sessions_touched sessionId l (map (touch_session sessionId t) l).
Proof.
  induction l as [|s l IH]; constructor; [|exact IH].
  exists t. reflexivity.
Qed.

(** A touched table answers [find_session] with the touched row. *)
Lemma sessions_touched_find id l l' :
  sessions_touched sessionId l l' ->
  match find (fun s => String.eqb (session_id s) id) l with
  | Some s =>
      exists t, find (fun s => String.eqb (session_id s) id) l'
                = Some (touch_session sessionId t s)
  | None => find (fun s => String.eqb (session_id s) id) l' = None
  end.
Proof.
  induction 1 as [|s s' l l' [t Ht] _ IH]; [reflexivity|].
  simpl. subst s'. rewrite touch_session_id.
  destruct (String.eqb (session_id s) id); [|exact IH].
  exists t. reflexivity.
Qed.

Lemma evolves_refl w : evolves sessionId w w [].
Proof.
  constructor; simpl; auto using sessions_touched_refl;
    now rewrite app_nil_r.
Qed.

Lemma evolves_trans w1 w2 w3 evs evs' :
  evolves sessionId w1 w2 evs -> evolves sessionId w2 w3 evs' ->
  evolves sessionId w1 w3 (evs ++ evs').
Proof.
  intros [R1 T1 M1 S1 K1 C1] [R2 T2 M2 S2 K2 C2].
  constructor.
  - congruence.
  - rewrite T2, T1. now rewrite app_assoc.
  - rewrite M2, M1, created_app. now rewrite app_assoc.
  - eapply sessions_touched_trans; eassumption.
  - lia.
  - intros id H. rewrite <- (C1 id H). apply (C2 id).
    rewrite (C1 id H). exact H.
Qed.

(** An event that is not the creation of a row. *)
Lemma evolves_emit ev w :
  created [ev] = [] ->
  evolves sessionId w (set_trace (trace w ++ [ev]) w) [ev].
Proof.
  intros H. constructor;
    [ reflexivity | reflexivity | | apply sessions_touched_refl
    | apply Nat.le_refl | reflexivity ].
  unfold set_trace, messages at 1. rewrite H. now rewrite app_nil_r.
Qed.

Lemma evolves_tick w : evolves sessionId w (set_ticks (S (ticks w)) w) [].
Proof.
  constructor; simpl; auto using sessions_touched_refl;
    now rewrite app_nil_r.
Qed.
End Evolution.

Ltac run_with H :=
  first [ rewrite (bind_ok _ _ _ _ _ H)
        | rewrite (bind_throw _ _ _ _ _ H)
        | rewrite (try_ok _ _ _ _ _ H)
        | rewrite (try_throw _ _ _ _ _ H) ].

(** ** The correlation identifier *)

Lemma randomUUID_truthy r : str_truthy (randomUUID r) = true.
Proof. reflexivity. Qed.

Lemma or_undefined_truthy o id :
  or_undefined o = Some id -> str_truthy id = true /\ o = Some id.
Proof.
  destruct o as [s|]; simpl; [|discriminate].
  destruct (str_truthy s) eqn:H; [|discriminate].
  intros [= <-]. split; [exact H|reflexivity].
Qed.

Section Operations.
Variable E : Env.
Variable sessionId : string.

Lemma evolves_keeps_id w w' evs id :
  evolves sessionId w w' evs ->
  or_undefined (correlationId w) = Some id ->
  or_undefined (correlationId w') = Some id.
Proof.
  intros Hev H. rewrite (evolves_correlationId Hev H). exact H.
Qed.

Lemma getCorrelationId_set w id :
  or_undefined (correlationId w) = Some id ->
  getCorrelationId E w = (Ok id, w).
Proof.
  intros H. unfold getCorrelationId, bind, gets. rewrite H. reflexivity.
Qed.

Lemma getCorrelationId_run w :
  exists id w',
    getCorrelationId E w = (Ok id, w') /\
    evolves sessionId w w' [] /\
    or_undefined (correlationId w') = Some id.
Proof.
  destruct (or_undefined (correlationId w)) as [id|] eqn:H.
  - exists id, w. split; [now apply getCorrelationId_set|].
    split; [apply evolves_refl|exact H].
  - exists (randomUUID (entropy E (ticks w))).
    eexists. split.
    + unfold getCorrelationId, bind, gets. rewrite H. reflexivity.
    + split.
      * constructor; simpl; auto using sessions_touched_refl;
          try now rewrite app_nil_r.
        intros id Hid. congruence.
      * reflexivity.
Qed.

Lemma logger_run level message meta w :
  exists id w',
    logger E level message meta w = (Ok tt, w') /\
    evolves sessionId w w' [Log level message id meta] /\
    or_undefined (correlationId w') = Some id.
Proof.
  destruct (getCorrelationId_run w) as (id & w1 & Hrun & Hev & Hid).
  exists id. eexists. unfold logger. run_with Hrun.
  split; [reflexivity|]. split.
  - change [Log level message id meta]
      with ([] ++ [Log level message id meta])%list.
    eapply evolves_trans; [exact Hev|].
    apply evolves_emit. reflexivity.
  - exact Hid.
Qed.

(** With the identifier set, a log entry leaves everything else alone. *)
Lemma logger_set level message meta w id :
  or_undefined (correlationId w) = Some id ->
  logger E level message meta w
  = (Ok tt, set_trace (trace w ++ [Log level message id meta]) w).
Proof.
  intros H. unfold logger. run_with (getCorrelationId_set w id H).
  reflexivity.
Qed.

Lemma Date_now_run w :
  Date_now E w = (Ok (clock E (ticks w)), set_ticks (S (ticks w)) w).
Proof. reflexivity. Qed.

Lemma db_call_run w :
  db_call E w = (match db_fails E (ticks w) with
                 | Some e => Throw e
                 | None => Ok tt
                 end, set_ticks (S (ticks w)) w).
Proof.
  unfold db_call, bind, tick. destruct (db_fails E (ticks w)); reflexivity.
Qed.
End Operations.

(** C10.  The correlation identifier is one cell of the process, with no
    request in sight.  From any world, [getCorrelationId] answers with an
    identifier [id] and leaves a world in which the cell holds it; from then
    on, in every world whose cell is the same (whatever else has happened,
    whichever exchange or user is served), [getCorrelationId] answers [id]
    again and changes nothing.  This holds in particular from the world a
    [setCorrelationId] leaves, where the first answer is the identifier that
    was set when that is not the empty string. *)
Theorem getCorrelationId_process_global (E : Env) (w : World) :
  (exists id w1,
     getCorrelationId E w = (Ok id, w1) /\
     forall w2, correlationId w2 = correlationId w1 ->
                getCorrelationId E w2 = (Ok id, w2)) /\
  (forall id0, exists id w1,
     bind (setCorrelationId id0) (fun _ => getCorrelationId E) w
       = (Ok id, w1) /\
     id = (if str_truthy id0 then id0 else id) /\
     forall w2, correlationId w2 = correlationId w1 ->
                getCorrelationId E w2 = (Ok id, w2)).
Proof.
  assert (stable : forall w0, exists id w1,
            getCorrelationId E w0 = (Ok id, w1) /\
            forall w2, correlationId w2 = correlationId w1 ->
                       getCorrelationId E w2 = (Ok id, w2)).
  { intros w0.
    destruct (getCorrelationId_run E "" w0) as (id & w1 & Hrun & _ & Hid).
    exists id, w1. split; [exact Hrun|].
    intros w2 Hsame. apply getCorrelationId_set. now rewrite Hsame. }
  split; [apply stable|].
  intros id0.
  destruct (stable (set_correlationId (Some id0) w))
    as (id & w1 & Hrun & Hlater).
  exists id, w1. split; [exact Hrun|]. split; [|exact Hlater].
  destruct (str_truthy id0) eqn:Htruthy; [|reflexivity].
  rewrite (getCorrelationId_set E _ id0) in Hrun.
  - congruence.
  - simpl. now rewrite Htruthy.
Qed.

(** ** The error taxonomy of the model client adapter *)


Lemma handleOpenAIError_classification (e : CaughtError) :
  api_code (handleOpenAIError e)
  = (if instanceof_APIError e then status_code (caught_status e)
     else if instanceof_RateLimitError e then "RATE_LIMITED"
     else if instanceof_APIConnectionError e then "CONNECTION_ERROR"
     else if instanceof_APIConnectionTimeoutError e then "TIMEOUT"
     else "INTERNAL_ERROR")
  /\ api_status (handleOpenAIError e)
     = (if instanceof_APIError e then caught_status e
        else if instanceof_RateLimitError e then Some 429
        else None).
Proof.
  split.
  - unfold handleOpenAIError, status_code, errorCodes.
    destruct (instanceof_APIError e).
    + destruct (caught_status e) as [s|]; [|reflexivity]. simpl.
      repeat match goal with
             | |- context [Z.eqb s ?k] => destruct (Z.eqb s k); [reflexivity|]
             end.
      reflexivity.
    + destruct (instanceof_RateLimitError e),
               (instanceof_APIConnectionError e),
               (instanceof_APIConnectionTimeoutError e); reflexivity.
  - unfold handleOpenAIError.
    destruct (instanceof_APIError e); [reflexivity|].
    destruct (instanceof_RateLimitError e),
             (instanceof_APIConnectionError e),
             (instanceof_APIConnectionTimeoutError e); reflexivity.
Qed.


(** When the classes tested later are subclasses of the one tested first,
    as the error classes of the provider SDK are of its [APIError], the
    later tests are never reached: no [CONNECTION_ERROR] and no [TIMEOUT]
    is produced. *)
Lemma handleOpenAIError_subclasses (e : CaughtError) :
  (instanceof_RateLimitError e = true -> instanceof_APIError e = true) ->
  (instanceof_APIConnectionError e = true ->
   instanceof_APIError e = true) ->
  (instanceof_APIConnectionTimeoutError e = true ->
   instanceof_APIError e = true) ->
  api_code (handleOpenAIError e)
  = (if instanceof_APIError e then status_code (caught_status e)
     else "INTERNAL_ERROR").
Proof.
  intros Hrate Hconnection Htimeout.
  destruct (handleOpenAIError_classification e) as [-> _].
  destruct (instanceof_APIError e); [reflexivity|].
  destruct (instanceof_RateLimitError e); [now discriminate Hrate|].
  destruct (instanceof_APIConnectionError e);
    [now discriminate Hconnection|].
  destruct (instanceof_APIConnectionTimeoutError e);
    [now discriminate Htimeout|reflexivity].
Qed.

(** ** Accumulation of argument fragments *)

Lemma Map_get_set_same {V : Type} (k : Z) (v : V) l :
  Map_get Z.eqb k (Map_set Z.eqb k v l) = Some v.
Proof.
  induction l as [|[k' v'] l IH]; simpl.
  - now rewrite Z.eqb_refl.
  - destruct (Z.eqb_spec k k') as [->|Hne]; simpl.
    + now rewrite Z.eqb_refl.
    + destruct (Z.eqb_spec k k'); [contradiction|exact IH].
Qed.

Lemma Map_get_set_other {V : Type} (k k0 : Z) (v : V) l :
  k0 <> k -> Map_get Z.eqb k0 (Map_set Z.eqb k v l) = Map_get Z.eqb k0 l.
Proof.
  intros Hne. induction l as [|[k' v'] l IH]; simpl.
  - destruct (Z.eqb_spec k0 k); [contradiction|reflexivity].
  - destruct (Z.eqb_spec k k') as [->|Hkk']; simpl.
    + destruct (Z.eqb_spec k0 k'); [contradiction|reflexivity].
    + destruct (Z.eqb_spec k0 k'); [reflexivity|exact IH].
Qed.

Lemma append_assoc (a b c : string) : (a ++ b) ++ c = a ++ (b ++ c).
Proof. induction a as [|x a IH]; simpl; [reflexivity|now rewrite IH]. Qed.

Lemma append_empty_r (a : string) : a ++ "" = a.
Proof. induction a as [|x a IH]; simpl; [reflexivity|now rewrite IH]. Qed.

Lemma join_empty_cons (x : string) (l : list string) :
  join "" (x :: l) = x ++ join "" l.
Proof.
  destruct l as [|y l]; simpl; [now rewrite append_empty_r|reflexivity].
Qed.

Lemma accumulated_bufferToolCall index buffer tc :
  accumulated index (bufferToolCall buffer tc)
  = if Z.eqb (tc_index tc) index
    then accumulated index buffer ++ argument_piece tc
    else accumulated index buffer.
Proof.
  unfold accumulated, bufferToolCall.
  destruct (Z.eqb_spec (tc_index tc) index) as [<-|Hne].
  - rewrite Map_get_set_same. simpl.
    destruct (Map_get Z.eqb (tc_index tc) buffer); reflexivity.
  - rewrite Map_get_set_other by congruence. reflexivity.
Qed.

Lemma accumulated_deltas index deltas : forall buffer,
  accumulated index (fold_left bufferToolCall deltas buffer)
  = accumulated index buffer
    ++ join "" (map argument_piece
                    (filter (fun tc => Z.eqb (tc_index tc) index) deltas)).
Proof.
  induction deltas as [|tc deltas IH]; intros buffer; simpl.
  - now rewrite append_empty_r.
  - rewrite IH, accumulated_bufferToolCall.
    destruct (Z.eqb (tc_index tc) index).
    + cbn [map]. rewrite join_empty_cons. now rewrite append_assoc.
    + reflexivity.
Qed.

Lemma bufferChunks_deltas chunks : forall buffer,
  bufferChunks buffer chunks
  = fold_left bufferToolCall (deltas_of chunks) buffer.
Proof.
  unfold bufferChunks, deltas_of.
  induction chunks as [|v chunks IH]; intros buffer; simpl; [reflexivity|].
  rewrite fold_left_app, IH. f_equal.
  generalize buffer. clear.
  induction (choices v) as [|c cs IHc]; intros buffer; simpl; [reflexivity|].
  rewrite fold_left_app, IHc. f_equal.
  unfold bufferChoice. destruct (delta_toolCalls (choice_delta c)); reflexivity.
Qed.


(** The argument string of [args_hi] in two chunks, cut after the colon,
    and in one. *)
Example split_arguments_accumulate :
  bufferChunks []
    [ delta_chunk [some_delta 0 "call_a" "web_search" args_cut];
      delta_chunk [more_arguments 0 (Json.quote "hi" ++ "}")] ]
  = bufferChunks [] one_call
  /\ Json.parse
       (accumulated 0
          (bufferChunks []
             [ delta_chunk [some_delta 0 "call_a" "web_search" args_cut];
               delta_chunk [more_arguments 0 (Json.quote "hi" ++ "}")] ]))
     = Some (JObject [("query", JString "hi")]).
Proof. vm_compute. split; reflexivity. Qed.

(** ** The tool service *)

Lemma bind_gets {A B : Type} (f : World -> A) (k : A -> M B) w :
  bind (gets f) k w = k (f w) w.
Proof. reflexivity. Qed.

Lemma bind_lift_ok {A B : Type} (a : A) (k : A -> M B) w :
  bind (lift (Ok a)) k w = k a w.
Proof. reflexivity. Qed.

Lemma bind_lift_throw {A B : Type} (e : Exn) (k : A -> M B) w :
  bind (lift (Throw e)) k w = (Throw e, w).
Proof. reflexivity. Qed.

Lemma bind_Date_now {B : Type} (E : Env) (k : Z -> M B) w :
  bind (Date_now E) k w = k (clock E (ticks w)) (set_ticks (S (ticks w)) w).
Proof. reflexivity. Qed.

Lemma bind_emit {B : Type} (ev : Event) (k : unit -> M B) w :
  bind (emit ev) k w = k tt (set_trace (trace w ++ [ev]) w).
Proof. reflexivity. Qed.

Lemma bind_ret {A B : Type} (a : A) (k : A -> M B) w :
  bind (ret a) k w = k a w.
Proof. reflexivity. Qed.

Section ToolService.
Variable E : Env.
Variable sessionId : string.

(** [executeTool] up to the lookup in the registry, on parameters that
    serialise: the identifier is read, the clock is read, the call is
    logged. *)
Lemma executeTool_prelude toolName params w :
  serialisable params = true ->
  exists id w2,
    executeTool E toolName params w
    = match assoc toolName (toolRegistry w) with
      | None => executeTool_not_found E (clock E (ticks w2 - 1)) toolName
      | Some tool =>
          executeTool_found E id (clock E (ticks w2 - 1)) toolName params tool
      end w2
    /\ evolves sessionId w w2 [execution_entry E id toolName params]
    /\ or_undefined (correlationId w2) = Some id
    /\ (0 < ticks w2)%nat.
Proof.
  intros Hser.
  destruct (getCorrelationId_run E sessionId w) as (id & w1 & Hrun & Hev & Hid).
  exists id.
  exists (set_trace (trace w1 ++ [execution_entry E id toolName params])
                    (set_ticks (S (ticks w1)) w1)).
  split; [|split; [|split]].
  - unfold executeTool. run_with Hrun. rewrite bind_Date_now.
    unfold stringify. rewrite Hser, bind_lift_ok.
    rewrite (bind_ok _ _ _ _ _
               (logger_set E _ _ _ (set_ticks (S (ticks w1)) w1) id Hid)).
    rewrite bind_gets. cbn [toolRegistry ticks set_trace set_ticks].
    rewrite (evolves_registry Hev).
    replace (S (ticks w1) - 1)%nat with (ticks w1) by lia.
    destruct (assoc toolName (toolRegistry w)); reflexivity.
  - change [execution_entry E id toolName params]
      with ([] ++ [] ++ [execution_entry E id toolName params])%list.
    eapply evolves_trans; [exact Hev|].
    eapply evolves_trans; [apply evolves_tick|].
    apply (evolves_emit sessionId (execution_entry E id toolName params)
                        (set_ticks (S (ticks w1)) w1)).
    reflexivity.
  - exact Hid.
  - simpl. lia.
Qed.

(** On parameters that do not serialise [executeTool] throws the
    [TypeError] of [JSON.stringify], before anything is logged and before
    the registry is read. *)
Lemma executeTool_unserialisable toolName params w :
  serialisable params = false ->
  exists id w',
    executeTool E toolName params w
    = (Throw (JsError "Do not know how to serialize a BigInt"), w')
    /\ evolves sessionId w w' []
    /\ or_undefined (correlationId w') = Some id.
Proof.
  intros Hser.
  destruct (getCorrelationId_run E sessionId w) as (id & w1 & Hrun & Hev & Hid).
  exists id, (set_ticks (S (ticks w1)) w1).
  split; [|split; [|exact Hid]].
  - unfold executeTool. run_with Hrun. rewrite bind_Date_now.
    unfold stringify. rewrite Hser. reflexivity.
  - change (@nil Event) with ((@nil Event) ++ [])%list.
    eapply evolves_trans; [exact Hev|apply evolves_tick].
Qed.

End ToolService.

(** C7, amended.  For a name the registry does not hold and any parameter
    value that [JSON.stringify] serialises, [executeTool] returns (it does
    not throw) the result with [success = false] and the error
    [Tool not found: <name>]; the duration it reports is the difference of
    two successive readings of the clock, so it is not negative when the
    clock does not run backwards; no tool is entered and no message is
    written. *)
Theorem executeTool_unknown_tool (E : Env) (toolName : string)
        (params : JsValue) (w : World) :
  assoc toolName (toolRegistry w) = None ->
  serialisable params = true ->
  exists duration w' evs,
    executeTool E toolName params w
    = (Ok {| success := false; result := None;
             error := Some ("Tool not found: " ++ toolName);
             executionTimeMs := duration |}, w')
    /\ (exists n, duration = clock E (S n) - clock E n)
    /\ ((forall m n, (m <= n)%nat -> clock E m <= clock E n) ->
        0 <= duration)
    /\ trace w' = (trace w ++ evs)%list
    /\ invoked evs = []
    /\ messages w' = messages w.
Proof.
  intros Hnone Hser.
  destruct (executeTool_prelude E "" toolName params w Hser)
    as (id & w2 & Hrun & Hev & Hid & Hpos).
  rewrite Hnone in Hrun.
  exists (clock E (ticks w2) - clock E (ticks w2 - 1)).
  exists (set_ticks (S (ticks w2)) w2).
  exists [execution_entry E id toolName params].
  split; [exact Hrun|]. split; [|split; [|split; [|split]]].
  - exists (ticks w2 - 1)%nat.
    replace (S (ticks w2 - 1)) with (ticks w2) by lia. reflexivity.
  - intros Hclock. specialize (Hclock (ticks w2 - 1)%nat (ticks w2)). lia.
  - apply (evolves_trace Hev).
  - reflexivity.
  - cbn [messages set_ticks]. rewrite (evolves_messages Hev).
    apply app_nil_r.
Qed.

Section ToolValidation.
Variable E : Env.
Variable sessionId : string.

Lemma check_required_object requiredFields fields :
  check_required E requiredFields (JObject fields)
  = Ok match find (field_missing fields) requiredFields with
       | Some field => Some ("Missing required field: " ++ field)
       | None => None
       end.
Proof.
  induction requiredFields as [|field rest IH]; [reflexivity|].
  cbn [check_required find].
  change (missing_required E field (JObject fields))
    with (Ok (A := bool) (field_missing fields field)).
  destruct (field_missing fields field); [reflexivity|exact IH].
Qed.

Lemma validateParameters_object fields schema :
  exists verdict,
    validateParameters E (JObject fields) schema = Ok verdict.
Proof.
  unfold validateParameters.
  destruct (required schema) as [requiredFields|]; [|eexists; reflexivity].
  rewrite check_required_object.
  destruct (find (field_missing fields) requiredFields);
    eexists; reflexivity.
Qed.

Lemma first_error_found props entries entry msg :
  In entry entries -> check_entry props entry = Some msg ->
  exists entry' msg',
    In entry' entries /\ check_entry props entry' = Some msg' /\
    first_error props entries = Some msg'.
Proof.
  induction entries as [|e entries IH]; intros Hin Hcheck; [contradiction|].
  simpl. destruct (check_entry props e) as [m|] eqn:He.
  - exists e, m. repeat split; [now left|exact He].
  - destruct Hin as [->|Hin]; [congruence|].
    destruct (IH Hin Hcheck) as (e' & m' & Hin' & Hc' & Hf').
    exists e', m'. repeat split; [now right|exact Hc'|exact Hf'].
Qed.

Lemma run_tool_run toolName tool params w :
  run_tool toolName tool params w
  = (execute tool params (ticks w),
     set_ticks (S (ticks w))
               (set_trace (trace w ++ [ToolInvoked toolName params]) w)).
Proof. reflexivity. Qed.

(** After the prelude, [executeTool] on a registered tool: whatever the
    tool does, the only events are the entry into the tool, log entries and
    a latency; a throw is the one of [validateParameters]; a result either
    has no [result] field or is what the function of the tool returned. *)
Lemma executeTool_found_run id startTime toolName params tool w :
  exists r w' evs,
    executeTool_found E id startTime toolName params tool w = (r, w') /\
    evolves sessionId w w' evs /\
    observe evs = [] /\
    match r with
    | Ok r => result r = None \/ exists n, execute tool params n = Ok r
    | Throw e =>
        validateParameters E params (parameters (definition tool)) = Throw e
    end.
Proof.
  unfold executeTool_found.
  destruct (validateParameters E params (parameters (definition tool)))
    as [verdict|e] eqn:Hvalid.
  - rewrite bind_lift_ok.
    destruct (or_undefined verdict) as [msg|].
    + rewrite bind_Date_now. eexists _, _, [].
      split; [reflexivity|]. split; [apply evolves_tick|].
      split; [reflexivity|left; reflexivity].
    + pose proof (run_tool_run toolName tool params w) as Htool.
      set (w1 := set_ticks (S (ticks w))
                   (set_trace (trace w ++ [ToolInvoked toolName params]) w))
        in Htool.
      assert (Hev1 : evolves sessionId w w1 [ToolInvoked toolName params]).
      { rewrite <- (app_nil_r [ToolInvoked toolName params]).
        eapply evolves_trans; [apply evolves_emit; reflexivity|].
        apply evolves_tick. }
      destruct (execute tool params (ticks w)) as [r|e] eqn:Hexec.
      * destruct (logger_run E sessionId Info "Tool execution completed"
                    [ ("correlationId", JString id);
                      ("toolName", JString toolName);
                      ("success", JBool (success r));
                      ("executionTimeMs", JNumber (executionTimeMs r)) ] w1)
          as (id' & w2 & Hlog & Hev2 & _).
        eexists (Ok r), _, _. split; [|split; [|split]].
        -- erewrite try_ok; [reflexivity|].
           run_with Htool. run_with Hlog. unfold recordLatency.
           rewrite bind_emit. reflexivity.
        -- eapply evolves_trans; [exact Hev1|].
           eapply evolves_trans; [exact Hev2|].
           apply (evolves_emit sessionId
                    (LatencyRec ("tool_" ++ toolName) (executionTimeMs r))).
           reflexivity.
        -- reflexivity.
        -- right. exists (ticks w). exact Hexec.
      * destruct (logger_run E sessionId Error "Tool execution failed"
                    [ ("correlationId", JString id);
                      ("toolName", JString toolName);
                      ("error", JString (error_message e)) ] w1)
          as (id' & w2 & Hlog & Hev2 & _).
        eexists (Ok _), _, _. split; [|split; [|split]].
        -- erewrite try_throw; [|run_with Htool; reflexivity].
           run_with Hlog. rewrite bind_Date_now. reflexivity.
        -- eapply evolves_trans; [exact Hev1|].
           eapply evolves_trans; [exact Hev2|].
           apply evolves_tick.
        -- reflexivity.
        -- left. reflexivity.
  - rewrite bind_lift_throw. eexists _, _, [].
    split; [reflexivity|]. split; [apply evolves_refl|].
    split; [reflexivity|reflexivity].
Qed.

(** [executeTool] in all: no row is written and nothing goes to the caller.
    On parameters that serialise the call is logged and it throws only where
    [validateParameters] does; on others it throws before it logs. *)
Lemma executeTool_run toolName params w :
  exists id r w' evs,
    executeTool E toolName params w = (r, w') /\
    evolves sessionId w w' evs /\
    or_undefined (correlationId w') = Some id /\
    (if serialisable params
     then observe evs = [execution_entry E id toolName params]
     else observe evs = [] /\ exists e, r = Throw e) /\
    (serialisable params = true ->
     match r with
     | Ok r =>
         result r = None
         \/ exists tool n,
              assoc toolName (toolRegistry w) = Some tool /\
              execute tool params n = Ok r
     | Throw e =>
         exists tool,
           assoc toolName (toolRegistry w) = Some tool /\
           validateParameters E params (parameters (definition tool))
           = Throw e
     end).
Proof.
  destruct (serialisable params) eqn:Hser.
  2:{ destruct (executeTool_unserialisable E sessionId toolName params w Hser)
        as (id & w' & Hrun & Hev & Hid).
      exists id, (Throw (JsError "Do not know how to serialize a BigInt")),
             w', [].
      split; [exact Hrun|]. split; [exact Hev|]. split; [exact Hid|].
      split; [|discriminate]. split; [reflexivity|eexists; reflexivity]. }
  destruct (executeTool_prelude E sessionId toolName params w Hser)
    as (id & w2 & Hrun & Hev & Hid & Hpos).
  exists id.
  destruct (assoc toolName (toolRegistry w)) as [tool|].
  - destruct (executeTool_found_run id (clock E (ticks w2 - 1)) toolName
                params tool w2) as (r & w' & evs & Hfound & Hev' & Hobs & Hr).
    exists r, w', ([execution_entry E id toolName params] ++ evs)%list.
    split; [now rewrite Hrun|]. split; [|split; [|split]].
    + eapply evolves_trans; eassumption.
    + exact (evolves_keeps_id sessionId _ _ _ _ Hev' Hid).
    + rewrite observe_app, Hobs. reflexivity.
    + intros _. destruct r as [r|e].
      * destruct Hr as [Hr|[n Hr]]; [left; exact Hr|].
        right. exists tool, n. split; [reflexivity|exact Hr].
      * exists tool. split; [reflexivity|exact Hr].
  - eexists (Ok _), _, ([execution_entry E id toolName params] ++ [])%list.
    split; [rewrite Hrun; unfold executeTool_not_found;
            rewrite bind_Date_now; reflexivity|].
    split; [|split; [exact Hid|split; [reflexivity|]]].
    + eapply evolves_trans; [exact Hev|apply evolves_tick].
    + intros _. left. reflexivity.
Qed.

(** On an object, an array included, validation does not throw. *)
Lemma validateParameters_on_object args schema :
  is_object args = true ->
  exists verdict, validateParameters E args schema = Ok verdict.
Proof.
  destruct args as [| | | | | |items|fields]; try discriminate; intros _.
  - unfold validateParameters.
    destruct (required schema) as [requiredFields|]; [|eexists; reflexivity].
    assert (Hreq : exists verdict,
               check_required E requiredFields (JArray items) = Ok verdict).
    { induction requiredFields as [|field rest IH]; [eexists; reflexivity|].
      cbn [check_required missing_required].
      match goal with
      | |- context [match (match ?x with _ => _ end) with _ => _ end] =>
          destruct x as [v|]
      end.
      - destruct (is_nullish v); [eexists; reflexivity|exact IH].
      - destruct (negb _); [eexists; reflexivity|exact IH]. }
    destruct Hreq as [[msg|] ->]; eexists; reflexivity.
  - apply validateParameters_object.
Qed.
End ToolValidation.

(** ** Validation failures *)

Lemma descriptive_truthy msg : descriptive msg -> str_truthy msg = true.
Proof.
  intros [[f ->]|[(k & t & a & ->)|(k & v & ->)]]; reflexivity.
Qed.

Lemma check_entry_descriptive props entry msg :
  check_entry props entry = Some msg -> descriptive msg.
Proof.
  destruct entry as [key value]. unfold check_entry.
  destruct (lookup_schema key props) as [p|]; [|discriminate].
  destruct (negb (includes_type (allowedTypes p) (typeof value))
            && negb (includes_type (allowedTypes p) "null")).
  - intros [= <-]. right. left. do 3 eexists. reflexivity.
  - destruct (prop_enum p) as [enum|]; [|discriminate].
    destruct (negb (includes enum value)); [|discriminate].
    intros [= <-]. right. right. do 2 eexists. reflexivity.
Qed.

Lemma lookup_schema_own key props p :
  assoc key props = Some p -> lookup_schema key props = Some p.
Proof. intros H. unfold lookup_schema. now rewrite H. Qed.

Section Rejection.
Variable E : Env.

Lemma validateParameters_violation schema requiredFields fields :
  required schema = Some requiredFields ->
  (forall field, In field requiredFields ->
                 in_list field Object_prototype_keys = false) ->
  (forall key p, assoc key (properties schema) = Some p ->
                 includes_type (allowedTypes p) "null" = false) ->
  violates schema fields ->
  exists msg,
    validateParameters E (JObject fields) schema = Ok (Some msg)
    /\ descriptive msg.
Proof.
  intros Hreq Hproto Hnull Hviolates.
  unfold validateParameters. rewrite Hreq, check_required_object.
  destruct (find (field_missing fields) requiredFields) as [field|] eqn:Hfind.
  { eexists. split; [reflexivity|]. left. eauto. }
  cbn [Object_entries].
  assert (Hentry : forall entry msg,
            In entry fields ->
            check_entry (properties schema) entry = Some msg ->
            exists msg',
              Ok (first_error (properties schema) fields) = Ok (Some msg')
              /\ descriptive msg').
  { intros entry msg Hin Hcheck.
    destruct (first_error_found _ _ _ _ Hin Hcheck)
      as (entry' & msg' & _ & Hc' & Hf').
    exists msg'. rewrite Hf'. split; [reflexivity|].
    eapply check_entry_descriptive; exact Hc'. }
  destruct Hviolates as [(field & req & Hreq' & Hin & Hmiss)
                        |[(key & value & p & Hin & Hp & Htype)
                         |(key & value & p & enum & Hin & Hp & Henum & Hinc)]].
  - exfalso. rewrite Hreq in Hreq'. injection Hreq' as <-.
    pose proof (find_none _ _ Hfind field Hin) as Hnot.
    unfold field_missing in Hnot.
    destruct (assoc field fields) as [v|]; [congruence|].
    rewrite (Hproto field Hin) in Hnot. discriminate.
  - apply (Hentry (key, value)
                  ("Invalid type for " ++ key ++ ": expected "
                   ++ join_types (allowedTypes p) ++ ", got "
                   ++ typeof value) Hin).
    unfold check_entry. rewrite (lookup_schema_own _ _ _ Hp).
    rewrite Htype, (Hnull key p Hp). reflexivity.
  - destruct (check_entry (properties schema) (key, value)) as [msg|] eqn:Hc.
    + apply (Hentry (key, value) msg Hin Hc).
    + exfalso. unfold check_entry in Hc.
      rewrite (lookup_schema_own _ _ _ Hp) in Hc.
      destruct (negb (includes_type (allowedTypes p) (typeof value))
                && negb (includes_type (allowedTypes p) "null"));
        [discriminate|].
      rewrite Henum, Hinc in Hc. discriminate.
Qed.

(** C8, amended.  For a registered tool whose schema declares a [required]
    list, none of whose required fields bears the name of a property of
    [Object.prototype], and none of whose declared types is ['null']: when
    the parameters, an object that [JSON.stringify] serialises, fail
    validation, [executeTool] returns a result with [success = false] and
    one of the three validation messages as its error, and the function of
    the tool is not entered. *)
Theorem executeTool_rejects_invalid (toolName : string)
        (tool : RegisteredTool) (requiredFields : list string)
        (fields : list (string * JsValue)) (w : World) :
  assoc toolName (toolRegistry w) = Some tool ->
  serialisable (JObject fields) = true ->
  required (parameters (definition tool)) = Some requiredFields ->
  (forall field, In field requiredFields ->
                 in_list field Object_prototype_keys = false) ->
  (forall key p, assoc key (properties (parameters (definition tool))) = Some p ->
                 includes_type (allowedTypes p) "null" = false) ->
  violates (parameters (definition tool)) fields ->
  rejected E w toolName fields.
Proof.
  intros Htool Hser Hreq Hproto Hnull Hviolates.
  destruct (validateParameters_violation _ _ _ Hreq Hproto Hnull Hviolates)
    as (msg & Hvalid & Hdesc).
  destruct (executeTool_prelude E "" toolName (JObject fields) w Hser)
    as (id & w2 & Hrun & Hev & Hid & Hpos).
  rewrite Htool in Hrun.
  exists msg, (clock E (ticks w2) - clock E (ticks w2 - 1)).
  exists (set_ticks (S (ticks w2)) w2).
  exists [execution_entry E id toolName (JObject fields)].
  split; [|split; [exact Hdesc|split; [|reflexivity]]].
  - rewrite Hrun. unfold executeTool_found.
    rewrite Hvalid, bind_lift_ok. unfold or_undefined.
    rewrite (descriptive_truthy _ Hdesc). reflexivity.
  - simpl. apply (evolves_trace Hev).
Qed.
End Rejection.

(** ** A concrete world *)

(** The schemas of the eight built-in tools are regular: each declares a
    [required] list, no required field bears the name of a property of
    [Object.prototype], and no declared type is ['null']. *)
Lemma builtin_schemas_regular :
  forallb (fun def =>
    match required (parameters def) with
    | Some requiredFields =>
        forallb (fun f => negb (in_list f Object_prototype_keys))
                requiredFields
        && forallb (fun kp =>
                      negb (includes_type (allowedTypes (snd kp)) "null"))
                   (properties (parameters def))
    | None => false
    end) builtin_definitions = true.
Proof. vm_compute. reflexivity. Qed.

(** [execute("nonexistent_tool", {})] *)
Lemma executeTool_unknown_tool_witness :
  exists duration w' evs,
    executeTool node "nonexistent_tool" (JObject []) fresh
    = (Ok {| success := false; result := None;
             error := Some "Tool not found: nonexistent_tool";
             executionTimeMs := duration |}, w')
    /\ 0 <= duration
    /\ trace w' = (trace fresh ++ evs)%list
    /\ invoked evs = []
    /\ messages w' = messages fresh.
Proof.
  destruct (executeTool_unknown_tool node "nonexistent_tool" (JObject [])
                                     fresh eq_refl eq_refl)
    as (duration & w' & evs & Hrun & _ & Hclock & Htrace & Hinvoked & Hrows).
  exists duration, w', evs.
  split; [exact Hrun|]. split; [|split; [exact Htrace|split; assumption]].
  apply Hclock. intros m n Hle.
  unfold node, runtime, steady_clock. cbn [clock]. lia.
Defined.

(** C7, as stated, fails twice.  With a clock that is set back between the
    two readings the duration reported is negative; and on a parameter
    object that holds a BigInt, [executeTool] throws. *)
Lemma executeTool_unknown_tool_negative_or_thrown :
  fst (executeTool rewound "nonexistent_tool" (JObject []) fresh)
  = Ok {| success := false; result := None;
          error := Some "Tool not found: nonexistent_tool";
          executionTimeMs := -250 |}
  /\ fst (executeTool node "nonexistent_tool" big_parameters fresh)
     = Throw (JsError "Do not know how to serialize a BigInt").
Proof. vm_compute. split; reflexivity. Qed.

Example executeTool_nonexistent_tool :
  fst (executeTool node "nonexistent_tool" (JObject []) fresh)
  = Ok {| success := false; result := None;
          error := Some "Tool not found: nonexistent_tool";
          executionTimeMs := 1 |}.
Proof. vm_compute. reflexivity. Qed.

(** [execute("file_read", {})] *)
Lemma executeTool_rejects_invalid_witness : rejected node fresh "file_read" [].
Proof.
  apply (executeTool_rejects_invalid node "file_read" file_read_tool
                                     ["path"] [] fresh).
  - reflexivity.
  - reflexivity.
  - reflexivity.
  - intros field [<-|[]]. reflexivity.
  - intros key p. unfold assoc. simpl.
    repeat match goal with
           | |- context [String.eqb key ?k] =>
               destruct (String.eqb key k); [intros [= <-]; reflexivity|]
           end.
    discriminate.
  - left. exists "path", ["path"]. simpl. auto.
Defined.

Example executeTool_file_read_without_path :
  fst (executeTool node "file_read" (JObject []) fresh)
  = Ok {| success := false; result := None;
          error := Some "Missing required field: path";
          executionTimeMs := 1 |}.
Proof. vm_compute. reflexivity. Qed.

(** A declared integer is refused whatever number is given: no [typeof] is
    ['integer']. *)
Example executeTool_file_read_maxLines :
  fst (executeTool node "file_read"
         (JObject [("path", JString "notes.txt"); ("maxLines", JNumber 10)])
         fresh)
  = Ok {| success := false; result := None;
          error :=
            Some "Invalid type for maxLines: expected integer, got number";
          executionTimeMs := 1 |}.
Proof. vm_compute. reflexivity. Qed.

(** C8, as stated, fails twice.  The tool [echo] is registered, its
    parameter [text] is declared a string, the number 5 is given, and the
    tool is entered: a schema without a [required] list is not checked at
    all.  And [file_read], whose [path] is declared a string, is given a
    BigInt for it: the parameters fail validation in the terms of the
    claim, and [executeTool] throws before it validates. *)
Lemma executeTool_unchecked_or_thrown :
  ~ (forall E w toolName tool fields,
       assoc toolName (toolRegistry w) = Some tool ->
       violates (parameters (definition tool)) fields ->
       rejected E w toolName fields)
  /\ (violates (parameters file_read_definition) [("path", JBigInt 1)]
      /\ fst (executeTool node "file_read" (JObject [("path", JBigInt 1)])
                          fresh)
         = Throw (JsError "Do not know how to serialize a BigInt")).
Proof.
  split.
  - intros claim.
    destruct (claim node extended "echo"
                    {| execute := echo_tool;
                       definition := lenient_definition |}
                    [("text", JNumber 5)] eq_refl)
      as (msg & duration & w' & evs & Hrun & _).
    + right. left.
      exists "text", (JNumber 5), (property "string" None None None).
      repeat split. left. reflexivity.
    + apply (f_equal fst) in Hrun. vm_compute in Hrun. discriminate Hrun.
  - split; [|vm_compute; reflexivity].
    right. left.
    exists "path", (JBigInt 1),
           (property "string" (Some "Path to the file to read") None None).
    repeat split. left. reflexivity.
Qed.

Example executeTool_echo_entered :
  invoked (trace (snd (executeTool node "echo"
                         (JObject [("text", JNumber 5)]) extended)))
  = [("echo", JObject [("text", JNumber 5)])].
Proof. vm_compute. reflexivity. Qed.

(** ** The memory service *)

Ltac world_simpl :=
  cbn [correlationId toolRegistry sessions messages trace ticks
       set_correlationId set_toolRegistry set_sessions set_messages
       set_trace set_ticks].

(** [evolves] between a world and one built from it by the setters. *)
Ltac evolves_by_computation :=
  constructor; world_simpl;
  [ reflexivity
  | first [ reflexivity
          | repeat rewrite <- app_assoc; reflexivity
          | rewrite app_nil_r; reflexivity ]
  | cbn [created flat_map app];
    first [ reflexivity
          | repeat rewrite <- app_assoc; reflexivity
          | rewrite app_nil_r; reflexivity ]
  | first [ apply sessions_touched_refl | apply sessions_touched_map ]
  | lia
  | intros; reflexivity ].

Section MemoryService.
Variable E : Env.

Lemma bind_db_call {B : Type} (k : unit -> M B) w :
  bind (db_call E) k w
  = match db_fails E (ticks w) with
    | Some e => (Throw e, set_ticks (S (ticks w)) w)
    | None => k tt (set_ticks (S (ticks w)) w)
    end.
Proof.
  unfold bind at 1. rewrite db_call_run.
  destruct (db_fails E (ticks w)); reflexivity.
Qed.

Lemma bind_modify {B : Type} (f : World -> World) (k : unit -> M B) w :
  bind (modify f) k w = k tt (f w).
Proof. reflexivity. Qed.

Lemma bind_throw_now {A B : Type} (e : Exn) (k : A -> M B) w :
  bind (throw e) k w = (Throw e, w).
Proof. reflexivity. Qed.

(** [getSession] reads: it writes log entries only.  It answers with the
    row of the session when the database does not fail. *)
Lemma getSession_run sessionId id w :
  or_undefined (correlationId w) = Some id ->
  exists r w' evs,
    getSession E sessionId w = (r, w') /\
    evolves sessionId w w' evs /\
    observe evs = [] /\
    (db_fails E (ticks w) = None -> r = Ok (find_session sessionId w)).
Proof.
  intros Hid. unfold getSession.
  run_with (getCorrelationId_set E w id Hid).
  destruct (db_fails E (ticks w)) as [e|] eqn:Hdb.
  - eexists _, _, _. split; [|split; [|split]].
    + erewrite try_throw; [|rewrite bind_db_call, Hdb; reflexivity].
      erewrite bind_ok; [|apply (logger_set E _ _ _ _ id); exact Hid].
      reflexivity.
    + evolves_by_computation.
    + reflexivity.
    + discriminate.
  - destruct (find_session sessionId w) as [s|] eqn:Hfind.
    + eexists _, _, []. split; [|split; [|split]].
      * erewrite try_ok; [reflexivity|].
        rewrite bind_db_call, Hdb, bind_gets.
        unfold find_session in *. world_simpl. rewrite Hfind. reflexivity.
      * evolves_by_computation.
      * reflexivity.
      * reflexivity.
    + eexists _, _, _. split; [|split; [|split]].
      * erewrite try_ok; [reflexivity|].
        rewrite bind_db_call, Hdb, bind_gets.
        unfold find_session in *. world_simpl. rewrite Hfind.
        erewrite bind_ok; [|apply (logger_set E _ _ _ _ id); exact Hid].
        reflexivity.
      * evolves_by_computation.
      * reflexivity.
      * reflexivity.
Qed.

(** [getMessages] reads: it writes log entries only.  It answers with the
    first [limit] rows of the session when the database does not fail. *)
Lemma getMessages_run sessionId limit id w :
  or_undefined (correlationId w) = Some id ->
  exists r w' evs,
    getMessages E sessionId limit w = (r, w') /\
    evolves sessionId w w' evs /\
    observe evs = [] /\
    (db_fails E (ticks w) = None ->
     r = Ok (map row_to_message (firstn limit (session_rows sessionId w)))).
Proof.
  intros Hid. unfold getMessages.
  run_with (getCorrelationId_set E w id Hid).
  destruct (db_fails E (ticks w)) as [e|] eqn:Hdb.
  - eexists _, _, _. split; [|split; [|split]].
    + erewrite try_throw; [|rewrite bind_db_call, Hdb; reflexivity].
      erewrite bind_ok; [|apply (logger_set E _ _ _ _ id); exact Hid].
      reflexivity.
    + evolves_by_computation.
    + reflexivity.
    + discriminate.
  - eexists _, _, []. split; [|split; [|split]].
    + erewrite try_ok; [reflexivity|].
      rewrite bind_db_call, Hdb, bind_gets. reflexivity.
    + evolves_by_computation.
    + reflexivity.
    + reflexivity.
Qed.
End MemoryService.

Section Persistence.
Variable E : Env.

Lemma update_session_timestamp_run sessionId w :
  update_session_timestamp E sessionId w
  = match db_fails E (S (ticks w)) with
    | Some e => (Throw e, set_ticks (S (S (ticks w))) w)
    | None =>
        match find_session sessionId w with
        | None => (Throw (JsError "Record to update not found."),
                   set_ticks (S (S (ticks w))) w)
        | Some _ =>
            (Ok tt,
             set_sessions
               (map (touch_session sessionId (clock E (ticks w)))
                    (sessions w))
               (set_ticks (S (S (ticks w))) w))
        end
    end.
Proof.
  unfold update_session_timestamp.
  rewrite bind_Date_now, bind_db_call. world_simpl.
  destruct (db_fails E (S (ticks w))); [reflexivity|].
  rewrite bind_gets. unfold find_session. world_simpl.
  destruct (find _ (sessions w)); reflexivity.
Qed.

(** [saveMessage] writes at most the row of its message, and exactly that
    row when it returns; it returns when the database does not fail and
    the session exists. *)
Lemma saveMessage_run sessionId message id w :
  or_undefined (correlationId w) = Some id ->
  exists r w' evs,
    saveMessage E sessionId message w = (r, w') /\
    evolves sessionId w w' evs /\
    (observe evs = []
     \/ observe evs = [MessageCreated (row_of sessionId message)]) /\
    (forall row, r = Ok row ->
       observe evs = [MessageCreated (row_of sessionId message)]) /\
    (no_database_faults E -> find_session sessionId w <> None ->
     exists row, r = Ok row).
Proof.
  intros Hid. unfold saveMessage.
  run_with (getCorrelationId_set E w id Hid).
  erewrite bind_ok; [|apply (logger_set E _ _ _ _ id); exact Hid].
  match goal with
  | |- context [try_catch _ _ ?w0] => set (w2 := w0)
  end.
  assert (Hid2 : or_undefined (correlationId w2) = Some id) by exact Hid.
  destruct (db_fails E (ticks w)) as [e|] eqn:Hdb1.
  { eexists _, _, _. split; [|split; [|split; [|split]]].
    - erewrite try_throw;
        [|rewrite bind_db_call; subst w2; world_simpl; rewrite Hdb1;
          reflexivity].
      erewrite bind_ok; [|apply (logger_set E _ _ _ _ id); exact Hid].
      reflexivity.
    - subst w2. evolves_by_computation.
    - left. reflexivity.
    - discriminate.
    - intros Hnone. rewrite Hnone in Hdb1. discriminate. }
  destruct (db_fails E (S (S (ticks w)))) as [e|] eqn:Hdb2.
  { eexists _, _, _. split; [|split; [|split; [|split]]].
    - erewrite try_throw.
      2:{ rewrite bind_db_call. subst w2. world_simpl. rewrite Hdb1.
          rewrite bind_modify, bind_emit.
          erewrite bind_throw; [reflexivity|].
          rewrite update_session_timestamp_run. world_simpl.
          rewrite Hdb2. reflexivity. }
      erewrite bind_ok; [|apply (logger_set E _ _ _ _ id); exact Hid].
      reflexivity.
    - evolves_by_computation.
    - right. reflexivity.
    - discriminate.
    - intros Hnone. rewrite Hnone in Hdb2. discriminate. }
  destruct (find_session sessionId w) as [s|] eqn:Hfind.
  - eexists _, _, _. split; [|split; [|split; [|split]]].
    + erewrite try_ok; [reflexivity|].
      rewrite bind_db_call. subst w2. world_simpl. rewrite Hdb1.
      rewrite bind_modify, bind_emit.
      erewrite bind_ok.
      2:{ rewrite update_session_timestamp_run. world_simpl.
          rewrite Hdb2. unfold find_session in *. world_simpl.
          rewrite Hfind. reflexivity. }
      unfold incrementCounter. rewrite bind_emit. reflexivity.
    + evolves_by_computation.
    + right. reflexivity.
    + intros row _. reflexivity.
    + intros _ _. eexists. reflexivity.
  - eexists _, _, _. split; [|split; [|split; [|split]]].
    + erewrite try_throw.
      2:{ rewrite bind_db_call. subst w2. world_simpl. rewrite Hdb1.
          rewrite bind_modify, bind_emit.
          erewrite bind_throw; [reflexivity|].
          rewrite update_session_timestamp_run. world_simpl.
          rewrite Hdb2. unfold find_session in *. world_simpl.
          rewrite Hfind. reflexivity. }
      erewrite bind_ok; [|apply (logger_set E _ _ _ _ id); exact Hid].
      reflexivity.
    + evolves_by_computation.
    + right. reflexivity.
    + discriminate.
    + intros _ Hsome. contradiction.
Qed.

Lemma create_completion_run sessionId request w :
  exists w',
    create_completion E request w
    = (completions_create E request (ticks w), w') /\
    evolves sessionId w w' [CompletionCall request] /\
    correlationId w' = correlationId w.
Proof.
  eexists. split; [reflexivity|]. split; [evolves_by_computation|].
  reflexivity.
Qed.
End Persistence.

(** ** One tool call *)

Section ToolCall.
Variable E : Env.
Variable sessionId : string.

Lemma created_of_observed evs steps :
  observe evs = steps -> created evs = created steps.
Proof. intros <-. symmetry. apply created_observe. Qed.

Lemma find_session_evolves w w' evs :
  evolves sessionId w w' evs ->
  (find_session sessionId w <> None -> find_session sessionId w' <> None)
  /\ option_map session_systemPrompt (find_session sessionId w')
     = option_map session_systemPrompt (find_session sessionId w).
Proof.
  intros Hev. unfold find_session.
  pose proof (sessions_touched_find sessionId sessionId _ _
                (evolves_sessions Hev)) as H.
  destruct (find _ (sessions w)) as [s|].
  - destruct H as [t ->]. split; [discriminate|].
    simpl. now rewrite touch_session_systemPrompt.
  - rewrite H. split; [intros Hne; exact Hne|reflexivity].
Qed.

Lemma serialisable_without_result r :
  result r = None -> serialisable (ToolResult_to_js r) = true.
Proof.
  intros H. unfold ToolResult_to_js. rewrite H.
  destruct (error r); reflexivity.
Qed.

Lemma handleToolCall_try_run toolCall args w :
  JSON_parse E (entry_arguments toolCall) = Ok args ->
  exists rb w' evs,
    handleToolCall_try E sessionId toolCall w = (rb, w') /\
    evolves sessionId w w' evs /\
    (exists id' r request t1 t2 k,
       (k <= 4)%nat /\
       observe evs
       = firstn k (complete_steps E sessionId id' toolCall args r
                                  request t1 t2)) /\
    (undisturbed E sessionId w ->
     is_object args = true -> serialisable args = true ->
     exists id' r session t1 t2 k,
       (3 <= k <= 4)%nat /\
       (provider_answers E -> k = 4%nat) /\
       observe evs
       = firstn k
           (complete_steps E sessionId id' toolCall args r
              (followUpRequest session
                 (map row_to_message
                    (firstn default_limit
                       (rows_of_session sessionId
                          (messages w
                           ++ [row_of sessionId
                                 (result_message E toolCall r)])))))
              t1 t2)
       /\ option_map session_systemPrompt session
          = option_map session_systemPrompt (find_session sessionId w)).
Proof.
  intros Hparse. unfold handleToolCall_try.
  rewrite Hparse, bind_lift_ok.
  destruct (executeTool_run E sessionId (entry_name toolCall) args w)
    as (id & r1 & w1 & evs1 & Hrun1 & Hev1 & Hid1 & Hobs1 & Hthrow1).
  rename id into id1. set (id := id1) in Hid1.
  pose (nothing := {| success := false; result := None; error := None;
                      executionTimeMs := 0 |}).
  destruct (serialisable args) eqn:Hser.
  2:{ (* the parameters do not serialise *)
    destruct Hobs1 as [Hobs1 [e ->]].
    exists (Throw e), w1, evs1. run_with Hrun1.
    split; [reflexivity|]. split; [exact Hev1|]. split.
    - exists id1, nothing, (followUpRequest None []), 0, 0, 0%nat.
      split; [lia|exact Hobs1].
    - intros _ _ Habsurd. discriminate Habsurd. }
  specialize (Hthrow1 eq_refl).
  destruct r1 as [r|e].
  2:{ (* executeTool threw *)
    exists (Throw e), w1, evs1. run_with Hrun1.
    split; [reflexivity|]. split; [exact Hev1|]. split.
    - exists id1, nothing, (followUpRequest None []), 0, 0, 1%nat.
      split; [lia|exact Hobs1].
    - intros _ Hobject _. exfalso.
      destruct Hthrow1 as (tool & _ & Hvalid).
      destruct (validateParameters_on_object E args
                  (parameters (definition tool)) Hobject) as [v Hv].
      congruence. }
  run_with Hrun1. unfold stringify.
  destruct (serialisable (ToolResult_to_js r)) eqn:Hres.
  2:{ (* the result does not serialise *)
    rewrite bind_lift_throw. eexists (Throw _), w1, evs1.
    split; [reflexivity|]. split; [exact Hev1|]. split.
    - exists id1, nothing, (followUpRequest None []), 0, 0, 1%nat.
      split; [lia|exact Hobs1].
    - intros (_ & _ & Hresults) _ _. exfalso.
      destruct Hthrow1 as [Hnone|(tool & n & Htool & Hexec)].
      + rewrite (serialisable_without_result r Hnone) in Hres.
        discriminate Hres.
      + rewrite (Hresults _ tool args n r Htool Hser Hexec) in Hres.
        discriminate Hres. }
  rewrite bind_lift_ok.
  change (toolResultMessage toolCall (JSON_stringify E (ToolResult_to_js r)))
    with (result_message E toolCall r).
  destruct (saveMessage_run E sessionId (result_message E toolCall r)
                            id w1 Hid1)
    as (r2 & w2 & evs2 & Hrun2 & Hev2 & Hobs2 & Hok2 & Hdone2).
  pose proof (evolves_keeps_id sessionId _ _ _ _ Hev2 Hid1) as Hid2.
  pose proof (evolves_trans sessionId _ _ _ _ _ Hev1 Hev2) as Hev12.
  destruct r2 as [row|e].
  2:{ (* saveMessage threw *)
    exists (Throw e), w2, (evs1 ++ evs2)%list. run_with Hrun2.
    split; [reflexivity|]. split; [exact Hev12|]. split.
    - exists id1, r, (followUpRequest None []), 0, 0.
      rewrite observe_app, Hobs1.
      destruct Hobs2 as [-> | ->]; [exists 1%nat|exists 2%nat];
        (split; [lia|reflexivity]).
    - intros (Hdb & Hsession & _) _ _. exfalso.
      destruct (Hdone2 Hdb) as [row Hrow]; [|discriminate].
      apply (find_session_evolves _ _ _ Hev1). exact Hsession. }
  run_with Hrun2. specialize (Hok2 row eq_refl).
  assert (Hobs12 : forall request t1 t2,
            observe (evs1 ++ evs2)
            = firstn 2 (complete_steps E sessionId id1 toolCall args r
                                       request t1 t2)).
  { intros. rewrite observe_app, Hobs1, Hok2. reflexivity. }
  destruct (getMessages_run E sessionId default_limit id w2 Hid2)
    as (r3 & w3 & evs3 & Hrun3 & Hev3 & Hobs3 & Hdone3).
  pose proof (evolves_keeps_id sessionId _ _ _ _ Hev3 Hid2) as Hid3.
  pose proof (evolves_trans sessionId _ _ _ _ _ Hev12 Hev3) as Hev123.
  destruct r3 as [history|e].
  2:{ exists (Throw e), w3, ((evs1 ++ evs2) ++ evs3)%list. run_with Hrun3.
    split; [reflexivity|]. split; [exact Hev123|]. split.
    - exists id1, r, (followUpRequest None []), 0, 0, 2%nat.
      split; [lia|]. rewrite observe_app, Hobs3, app_nil_r. apply Hobs12.
    - intros (Hdb & _ & _) _ _. exfalso.
      specialize (Hdone3 (Hdb _)). discriminate. }
  run_with Hrun3.
  destruct (getSession_run E sessionId id w3 Hid3)
    as (r4 & w4 & evs4 & Hrun4 & Hev4 & Hobs4 & Hdone4).
  pose proof (evolves_keeps_id sessionId _ _ _ _ Hev4 Hid3) as Hid4.
  pose proof (evolves_trans sessionId _ _ _ _ _ Hev123 Hev4) as Hev1234.
  assert (Hobs1234 : forall request t1 t2,
            observe (((evs1 ++ evs2) ++ evs3) ++ evs4)
            = firstn 2 (complete_steps E sessionId id1 toolCall args r
                                       request t1 t2)).
  { intros. rewrite !observe_app, Hobs3, Hobs4, !app_nil_r.
    rewrite <- observe_app. apply Hobs12. }
  destruct r4 as [session|e].
  2:{ exists (Throw e), w4, (((evs1 ++ evs2) ++ evs3) ++ evs4)%list.
    run_with Hrun4.
    split; [reflexivity|]. split; [exact Hev1234|]. split.
    - exists id1, r, (followUpRequest None []), 0, 0, 2%nat.
      split; [lia|]. apply Hobs1234.
    - intros (Hdb & _ & _) _ _. exfalso.
      specialize (Hdone4 (Hdb _)). discriminate. }
  run_with Hrun4.
  assert (Hhistory : no_database_faults E ->
            history
            = map row_to_message
                (firstn default_limit
                   (rows_of_session sessionId
                      (messages w
                       ++ [row_of sessionId
                             (result_message E toolCall r)])))
            /\ option_map session_systemPrompt session
               = option_map session_systemPrompt
                   (find_session sessionId w)).
  { intros Hdb. split.
    - specialize (Hdone3 (Hdb _)). injection Hdone3 as ->.
      unfold session_rows, rows_of_session.
      rewrite (evolves_messages Hev12).
      rewrite (created_of_observed _ _
                 (Hobs12 (followUpRequest None []) 0 0)).
      reflexivity.
    - specialize (Hdone4 (Hdb _)). injection Hdone4 as ->.
      apply (find_session_evolves _ _ _ Hev123). }
  destruct (create_completion_run E sessionId
              (followUpRequest session history) w4)
    as (w5 & Hrun5 & Hev5 & Hsame5).
  pose proof (evolves_trans sessionId _ _ _ _ _ Hev1234 Hev5) as Hev5'.
  destruct (completions_create E (followUpRequest session history)
                               (ticks w4)) as [stream|e] eqn:Hcreate.
  2:{ (* the provider rejected the follow-up *)
    eexists (Throw e), w5, _. run_with Hrun5.
    split; [reflexivity|]. split; [exact Hev5'|]. split.
    - exists id1, r, (followUpRequest session history), 0, 0, 3%nat.
      split; [lia|]. rewrite observe_app.
      rewrite (Hobs1234 (followUpRequest session history) 0 0).
      reflexivity.
    - intros (Hdb & _ & _) _ _.
      destruct (Hhistory Hdb) as [Hh Hprompt].
      exists id1, r, session, 0, 0, 3%nat.
      split; [lia|]. split; [|split; [|exact Hprompt]].
      + intros Hprovider. exfalso.
        destruct (Hprovider (followUpRequest session history) (ticks w4))
          as [stream Hstream].
        congruence.
      + rewrite observe_app.
        rewrite (Hobs1234 (followUpRequest session history) 0 0).
        rewrite <- Hh. reflexivity. }
  run_with Hrun5. rewrite bind_Date_now, bind_Date_now.
  eexists (Ok tt), _, _. split; [reflexivity|]. split; [|split].
  - eapply evolves_trans; [exact Hev5'|].
    match goal with
    | |- evolves _ _ _ ?evs => instantiate (1 := [Enqueue _])
    end.
    evolves_by_computation.
  - eexists id1, r, (followUpRequest session history), _, _, 4%nat.
    split; [lia|]. rewrite !observe_app.
    rewrite <- !observe_app.
    rewrite observe_app.
    rewrite (observe_app _ [CompletionCall _]).
    rewrite (Hobs1234 (followUpRequest session history) 0 0).
    reflexivity.
  - intros (Hdb & _ & _) _ _.
    destruct (Hhistory Hdb) as [Hh Hprompt].
    exists id1, r, session, (clock E (ticks w5)), (clock E (S (ticks w5))),
           4%nat.
    split; [lia|]. split; [reflexivity|]. split; [|exact Hprompt].
    rewrite observe_app.
    rewrite (observe_app _ [CompletionCall _]).
    rewrite (Hobs1234 (followUpRequest session history) 0 0).
    rewrite <- Hh. reflexivity.
Qed.
End ToolCall.

(** ** What tool handling may do *)

Section ToolHandling.
Variable E : Env.
Variable sessionId : string.

Lemma quiet_observe evs :
  quiet E sessionId (observe evs) -> quiet E sessionId evs.
Proof.
  unfold quiet, observe.
  induction evs as [|ev evs IH]; intros H; [constructor|].
  simpl in H. destruct (pipeline_step ev) eqn:Hstep.
  - inversion H; subst. constructor; [assumption|now apply IH].
  - constructor; [|now apply IH].
    destruct ev; simpl in Hstep; try discriminate; exact I.
Qed.

Lemma quiet_app a b :
  quiet E sessionId a -> quiet E sessionId b -> quiet E sessionId (a ++ b).
Proof. intros Ha Hb. apply Forall_app. split; assumption. Qed.

Lemma quiet_created evs :
  quiet E sessionId evs -> Forall (tool_row sessionId) (created evs).
Proof.
  induction 1 as [|ev evs Hev _ IH]; [constructor|].
  destruct ev; simpl; try exact IH. constructor; assumption.
Qed.

Lemma quiet_enqueued evs :
  quiet E sessionId evs -> Forall (announces E) (enqueued evs).
Proof.
  induction 1 as [|ev evs Hev _ IH]; [constructor|].
  destruct ev; simpl; try exact IH. constructor; assumption.
Qed.

Lemma quiet_steps k id toolCall args r request t1 t2 :
  quiet E sessionId
        (firstn k (complete_steps E sessionId id toolCall args r
                                  request t1 t2)).
Proof.
  assert (H : quiet E sessionId
                (complete_steps E sessionId id toolCall args r
                                request t1 t2)).
  { unfold complete_steps. repeat constructor. exists t1, t2. reflexivity. }
  revert H. generalize (complete_steps E sessionId id toolCall args r
                                       request t1 t2).
  induction k as [|k IH]; intros l H; [constructor|].
  destruct l as [|ev l]; [constructor|].
  inversion H; subst. constructor; [assumption|]. now apply IH.
Qed.

(** One tool call, whatever happens: [handleToolCall] returns; it writes
    at most a tool row of the session and sends at most an announcement.
    When the argument string does not parse, all it does is log the
    failure.  When the argument string parses to an object, the database
    does not fail and results serialise, it goes through the execution,
    the row and the follow-up completion, and through the announcement
    when the provider answers. *)
Lemma handleToolCall_run correlation toolCall w :
  exists w' evs,
    handleToolCall E sessionId correlation toolCall w = (Ok tt, w') /\
    evolves sessionId w w' evs /\
    quiet E sessionId evs /\
    (forall e, JSON_parse E (entry_arguments toolCall) = Throw e ->
               exists id, evs = [failure_entry id correlation toolCall e]) /\
    (forall args,
       JSON_parse E (entry_arguments toolCall) = Ok args ->
       is_object args = true -> serialisable args = true ->
       undisturbed E sessionId w ->
       exists id' r session t1 t2 k,
         (3 <= k <= 4)%nat /\
         (provider_answers E -> k = 4%nat) /\
         observe evs
         = firstn k
             (complete_steps E sessionId id' toolCall args r
                (followUpRequest session
                   (map row_to_message
                      (firstn default_limit
                         (rows_of_session sessionId
                            (messages w
                             ++ [row_of sessionId
                                   (result_message E toolCall r)])))))
                t1 t2)
         /\ option_map session_systemPrompt session
            = option_map session_systemPrompt (find_session sessionId w)).
Proof.
  change (handleToolCall E sessionId correlation toolCall)
    with (try_catch (handleToolCall_try E sessionId toolCall)
            (fun e => logger E Error "Tool execution failed"
               [ ("correlationId", JString correlation);
                 ("toolName", JString (entry_name toolCall));
                 ("error", JString (error_message e)) ])).
  destruct (JSON_parse E (entry_arguments toolCall)) as [args|e] eqn:Hparse.
  - destruct (handleToolCall_try_run E sessionId toolCall args w Hparse)
      as (rb & w1 & evs & Hrun & Hev & Hshape & Hcomplete).
    destruct Hshape as (id' & r & request & t1 & t2 & k & _ & Hobs).
    assert (Hquiet : quiet E sessionId evs).
    { apply quiet_observe. rewrite Hobs. apply quiet_steps. }
    destruct rb as [[]|e].
    + exists w1, evs. run_with Hrun.
      split; [reflexivity|]. split; [exact Hev|]. split; [exact Hquiet|].
      split; [discriminate|].
      intros args' [= <-] Hobject Hser Hund.
      exact (Hcomplete Hund Hobject Hser).
    + destruct (logger_run E sessionId Error "Tool execution failed"
                  [ ("correlationId", JString correlation);
                    ("toolName", JString (entry_name toolCall));
                    ("error", JString (error_message e)) ] w1)
        as (id & w2 & Hlog & Hev2 & _).
      eexists _, _. run_with Hrun. rewrite Hlog.
      split; [reflexivity|]. split; [|split; [|split]].
      * eapply evolves_trans; [exact Hev|exact Hev2].
      * apply quiet_app; [exact Hquiet|]. repeat constructor.
      * discriminate.
      * intros args' [= <-] Hobject Hser Hund.
        destruct (Hcomplete Hund Hobject Hser)
          as (id0 & r0 & session & t1' & t2' & k' & Hk & Hp & Hobs' & Hprompt).
        exists id0, r0, session, t1', t2', k'.
        split; [exact Hk|]. split; [exact Hp|]. split; [|exact Hprompt].
        rewrite observe_app. cbn [observe filter pipeline_step].
        rewrite app_nil_r. exact Hobs'.
  - destruct (logger_run E sessionId Error "Tool execution failed"
                [ ("correlationId", JString correlation);
                  ("toolName", JString (entry_name toolCall));
                  ("error", JString (error_message e)) ] w)
      as (id & w2 & Hlog & Hev2 & _).
    eexists _, _. erewrite try_throw.
    2:{ unfold handleToolCall_try. rewrite Hparse. reflexivity. }
    rewrite Hlog.
    split; [reflexivity|]. split; [exact Hev2|split; [|split]].
    + repeat constructor.
    + intros e' [= <-]. exists id. reflexivity.
    + discriminate.
Qed.
End ToolHandling.

(** ** The loops *)

Section Loops.
Variable E : Env.
Variable sessionId : string.

Lemma undisturbed_evolves w w' evs :
  evolves sessionId w w' evs ->
  undisturbed E sessionId w -> undisturbed E sessionId w'.
Proof.
  intros Hev (Hdb & Hsession & Hresults).
  split; [exact Hdb|]. split.
  - now apply (find_session_evolves sessionId _ _ _ Hev).
  - unfold results_serialise. rewrite (evolves_registry Hev). exact Hresults.
Qed.

Lemma executeToolCalls_run correlation buffer : forall id w,
  or_undefined (correlationId w) = Some id ->
  exists w' evs,
    executeToolCalls E sessionId correlation buffer w = (Ok tt, w') /\
    evolves sessionId w w' evs /\
    quiet E sessionId evs /\
    (undisturbed E sessionId w -> parse_to_objects E buffer ->
     exists groups,
       Forall2 (call_steps E sessionId) (map snd buffer) groups /\
       observe evs = List.concat groups).
Proof.
  unfold executeToolCalls.
  induction buffer as [|[index toolCall] buffer IH]; intros id w Hid.
  - exists w, []. split; [reflexivity|]. split; [apply evolves_refl|].
    split; [constructor|]. intros _ _. exists []. split; constructor.
  - destruct (handleToolCall_run E sessionId correlation toolCall w)
      as (w1 & evs1 & Hrun1 & Hev1 & Hquiet1 & _ & Hcomplete1).
    pose proof (evolves_keeps_id sessionId _ _ _ _ Hev1 Hid) as Hid1.
    destruct (IH id w1 Hid1) as (w2 & evs2 & Hrun2 & Hev2 & Hquiet2 & Hcomplete2).
    exists w2, (evs1 ++ evs2)%list. cbn [for_of snd].
    run_with Hrun1. split; [exact Hrun2|].
    split; [eapply evolves_trans; eassumption|].
    split; [now apply quiet_app|].
    intros Hund Hparse.
    inversion Hparse as [|kv rest (args & Hargs & Hobject & Hser) Hrest];
      subst.
    destruct (Hcomplete1 args Hargs Hobject Hser Hund)
      as (id' & r & session & t1 & t2 & k & Hk & Hprovider & Hobs1 & _).
    destruct (Hcomplete2 (undisturbed_evolves _ _ _ Hev1 Hund) Hrest)
      as (groups & Hgroups & Hobs2).
    eexists (_ :: groups). split.
    + constructor; [|exact Hgroups].
      exists id', args, r. do 3 eexists. exists k.
      split; [exact Hargs|]. split; [exact Hk|].
      split; [exact Hprovider|reflexivity].
    + rewrite observe_app, Hobs1, Hobs2. reflexivity.
Qed.

Lemma processChoice_run correlation state choice id w :
  or_undefined (correlationId w) = Some id ->
  exists w' evs,
    processChoice E sessionId correlation state choice w
    = (Ok (bufferChoice (fst state) choice,
           has_finishReason choice || snd state), w') /\
    evolves sessionId w w' evs /\
    quiet E sessionId evs /\
    (has_finishReason choice = false -> w' = w /\ evs = []) /\
    (finished_with_tool_calls choice = true ->
     undisturbed E sessionId w ->
     parse_to_objects E (bufferChoice (fst state) choice) ->
     exists groups,
       Forall2 (call_steps E sessionId)
               (map snd (bufferChoice (fst state) choice)) groups /\
       observe evs = List.concat groups).
Proof.
  intros Hid. unfold processChoice.
  destruct (has_finishReason choice) eqn:Hfinish.
  - destruct (finished_with_tool_calls choice
              && (0 <? Z.of_nat (List.length
                                   (bufferChoice (fst state) choice))))
      eqn:Hguard.
    + destruct (executeToolCalls_run correlation
                  (bufferChoice (fst state) choice) id w Hid)
        as (w' & evs & Hrun & Hev & Hquiet & Hcomplete).
      exists w', evs. run_with Hrun.
      split; [reflexivity|]. split; [exact Hev|]. split; [exact Hquiet|].
      split; [discriminate|]. intros _. exact Hcomplete.
    + exists w, []. split; [reflexivity|]. split; [apply evolves_refl|].
      split; [constructor|]. split; [discriminate|].
      intros Htool _ _. rewrite Htool in Hguard.
      destruct (bufferChoice (fst state) choice) as [|kv rest];
        [|discriminate Hguard].
      exists []. split; constructor.
  - exists w, []. split; [reflexivity|]. split; [apply evolves_refl|].
    split; [constructor|]. split; [intros _; split; reflexivity|].
    unfold finished_with_tool_calls, has_finishReason in *.
    destruct (finishReason choice) as [reason|]; [|discriminate].
    intros Htool. apply String.eqb_eq in Htool. subst reason.
    discriminate.
Qed.

Lemma processChoices_run correlation cs : forall state id w,
  or_undefined (correlationId w) = Some id ->
  exists w' evs,
    processChoices E sessionId correlation state cs w
    = (Ok (fold_left bufferChoice cs (fst state),
           existsb has_finishReason cs || snd state), w') /\
    evolves sessionId w w' evs /\
    quiet E sessionId evs /\
    (existsb has_finishReason cs = false -> w' = w /\ evs = []) /\
    (forall quiet_choices choice,
       cs = (quiet_choices ++ [choice])%list ->
       existsb has_finishReason quiet_choices = false ->
       finished_with_tool_calls choice = true ->
       undisturbed E sessionId w ->
       parse_to_objects E (fold_left bufferChoice cs (fst state)) ->
       exists groups,
         Forall2 (call_steps E sessionId)
                 (map snd (fold_left bufferChoice cs (fst state))) groups /\
         observe evs = List.concat groups).
Proof.
  induction cs as [|c cs IH]; intros state id w Hid.
  - exists w, []. split; [destruct state; reflexivity|].
    split; [apply evolves_refl|]. split; [constructor|].
    split; [intros _; split; reflexivity|].
    intros qs choice Hcs. destruct qs; discriminate.
  - destruct (processChoice_run correlation state c id w Hid)
      as (w1 & evs1 & Hrun1 & Hev1 & Hquiet1 & Hnone1 & Hcomplete1).
    pose proof (evolves_keeps_id sessionId _ _ _ _ Hev1 Hid) as Hid1.
    destruct (IH (bufferChoice (fst state) c, has_finishReason c || snd state)
                 id w1 Hid1)
      as (w2 & evs2 & Hrun2 & Hev2 & Hquiet2 & Hnone2 & Hcomplete2).
    exists w2, (evs1 ++ evs2)%list. cbn [processChoices].
    run_with Hrun1. rewrite Hrun2. cbn [fst snd fold_left existsb].
    split; [now rewrite orb_assoc, (orb_comm (existsb _ cs))|].
    split; [eapply evolves_trans; eassumption|].
    split; [now apply quiet_app|]. split.
    + intros Hno. apply orb_false_elim in Hno as [Hc Hcs].
      destruct (Hnone1 Hc) as [-> ->]. destruct (Hnone2 Hcs) as [-> ->].
      split; reflexivity.
    + intros qs choice Hcs Hqs Htool Hund Hparse.
      destruct qs as [|q qs].
      * injection Hcs as -> ->. destruct (Hnone2 eq_refl) as [-> ->].
        rewrite app_nil_r. apply (Hcomplete1 Htool Hund Hparse).
      * injection Hcs as -> ->. simpl in Hqs.
        apply orb_false_elim in Hqs as [Hq Hqs].
        destruct (Hnone1 Hq) as [-> ->].
        apply (Hcomplete2 qs choice eq_refl Hqs Htool Hund Hparse).
Qed.
End Loops.

Section Stream.
Variable E : Env.
Variable sessionId : string.

Lemma enqueue_chunk_run v w :
  enqueue_chunk E v w
  = (Ok tt, set_trace (trace w ++ [Enqueue (encode_chunk E v)]) w).
Proof. reflexivity. Qed.

(** The loop, whatever the stream and whatever fails: only tool rows of the
    session are written, and every chunk read is forwarded as it is. *)
Lemma readLoop_run correlation inputStream : forall buffer id w,
  or_undefined (correlationId w) = Some id ->
  exists r w' evs,
    readLoop E sessionId correlation inputStream buffer w = (r, w') /\
    evolves sessionId w w' evs /\
    Forall (tool_row sessionId) (created evs) /\
    forwarded E (consumed inputStream) (enqueued evs).
Proof.
  induction inputStream as [|[v|e] rest IH]; intros buffer id w Hid.
  - eexists _, _, [Close]. split; [reflexivity|].
    split; [evolves_by_computation|]. split; constructor.
  - destruct (processChoices_run E sessionId correlation (choices v)
                (buffer, false) id w Hid)
      as (w1 & evs1 & Hrun1 & Hev1 & Hquiet1 & _ & _).
    pose proof (evolves_keeps_id sessionId _ _ _ _ Hev1 Hid) as Hid1.
    cbn [readLoop consumed]. run_with Hrun1.
    rewrite (bind_ok _ _ _ _ _ (enqueue_chunk_run v w1)).
    cbn [fst snd]. rewrite orb_false_r. fold (finishes v).
    set (w2 := set_trace (trace w1 ++ [Enqueue (encode_chunk E v)]) w1).
    assert (Hev2 : evolves sessionId w w2
                     (evs1 ++ [Enqueue (encode_chunk E v)])).
    { eapply evolves_trans; [exact Hev1|]. subst w2.
      evolves_by_computation. }
    destruct (finishes v).
    + eexists _, _, _. split; [reflexivity|]. split; [exact Hev2|]. split.
      * rewrite created_app, app_nil_r. now apply (quiet_created E).
      * rewrite enqueued_app. apply forwarded_cons; [|constructor].
        now apply (quiet_enqueued E sessionId).
    + destruct (IH (fold_left bufferChoice (choices v) buffer) id w2 Hid1)
        as (r & w3 & evs3 & Hrun3 & Hev3 & Hrows3 & Hout3).
      exists r, w3, ((evs1 ++ [Enqueue (encode_chunk E v)]) ++ evs3)%list.
      split; [exact Hrun3|].
      split; [eapply evolves_trans; eassumption|]. split.
      * rewrite !created_app. cbn [created flat_map]. rewrite app_nil_r.
        apply Forall_app. split; [now apply (quiet_created E)|exact Hrows3].
      * rewrite !enqueued_app. cbn [enqueued flat_map app].
        rewrite <- app_assoc. apply forwarded_cons; [|exact Hout3].
        now apply (quiet_enqueued E sessionId).
  - eexists _, _, []. split; [reflexivity|].
    split; [apply evolves_refl|]. split; constructor.
Qed.

(** [transformStream], whatever the stream and whatever fails: it returns,
    only tool rows of the session are written, and every chunk read is
    forwarded as it is. *)
Lemma transformStream_run inputStream w :
  exists w' evs,
    transformStream E inputStream sessionId w = (Ok tt, w') /\
    evolves sessionId w w' evs /\
    Forall (tool_row sessionId) (created evs) /\
    forwarded E (consumed inputStream) (enqueued evs).
Proof.
  destruct (getCorrelationId_run E sessionId w) as (id & w0 & Hrun0 & Hev0 & Hid).
  destruct (readLoop_run id inputStream [] id w0 Hid)
    as (r & w1 & evs & Hrun & Hev & Hrows & Hout).
  unfold transformStream. run_with Hrun0.
  destruct r as [[]|e].
  - exists w1, evs. run_with Hrun. split; [reflexivity|].
    split; [|split; assumption].
    change evs with ([] ++ evs)%list. eapply evolves_trans; eassumption.
  - exists (set_trace (trace w1 ++ [StreamError e]) w1),
           (evs ++ [StreamError e])%list.
    run_with Hrun. split; [reflexivity|]. split; [|split].
    + change (evs ++ [StreamError e])%list
        with ([] ++ evs ++ [StreamError e])%list.
      eapply evolves_trans; [exact Hev0|].
      eapply evolves_trans; [exact Hev|]. evolves_by_computation.
    + rewrite created_app, app_nil_r. exact Hrows.
    + rewrite enqueued_app, app_nil_r. exact Hout.
Qed.

(** A turn that ends with [tool_calls]: the chunks before the last carry no
    finish reason, the last choice of the last chunk carries
    [tool_calls]. *)
Lemma readLoop_turn correlation chunks :
  forall buffer id w last quiet_choices choice rest,
    or_undefined (correlationId w) = Some id ->
    Forall (fun v => finishes v = false) chunks ->
    choices last = (quiet_choices ++ [choice])%list ->
    existsb has_finishReason quiet_choices = false ->
    finished_with_tool_calls choice = true ->
    undisturbed E sessionId w ->
    parse_to_objects E (bufferChunks buffer (chunks ++ [last])) ->
    exists w' evs groups,
      readLoop E sessionId correlation
               (map ReadValue chunks ++ ReadValue last :: rest) buffer w
      = (Ok tt, w') /\
      evolves sessionId w w' evs /\
      Forall2 (call_steps E sessionId)
              (map snd (bufferChunks buffer (chunks ++ [last]))) groups /\
      observe evs
      = (map (fun v => Enqueue (encode_chunk E v)) chunks
         ++ List.concat groups ++ [Enqueue (encode_chunk E last)])%list.
Proof.
  induction chunks as [|v chunks IH];
    intros buffer id w last qs choice rest Hid Hquiet Hlast Hqs Htool Hund
           Hparse.
  - cbn [map app bufferChunks fold_left] in *.
    destruct (processChoices_run E sessionId correlation (choices last)
                (buffer, false) id w Hid)
      as (w1 & evs1 & Hrun1 & Hev1 & _ & _ & Hcomplete1).
    destruct (Hcomplete1 qs choice Hlast Hqs Htool Hund Hparse)
      as (groups & Hgroups & Hobs).
    assert (Hfin : existsb has_finishReason (choices last) = true).
    { rewrite Hlast, existsb_app. simpl.
      unfold finished_with_tool_calls, has_finishReason in *.
      destruct (finishReason choice) as [reason|]; [|discriminate].
      apply String.eqb_eq in Htool. subst reason.
      now rewrite orb_true_r. }
    eexists _, _, groups. cbn [readLoop]. run_with Hrun1.
    rewrite (bind_ok _ _ _ _ _ (enqueue_chunk_run last w1)).
    cbn [fst snd]. rewrite Hfin. split; [reflexivity|]. split; [|split].
    + eapply evolves_trans; [exact Hev1|].
      instantiate (1 := [Enqueue (encode_chunk E last)]).
      evolves_by_computation.
    + exact Hgroups.
    + rewrite observe_app, Hobs. reflexivity.
  - inversion Hquiet as [|v' chunks' Hv Hchunks]; subst.
    destruct (processChoices_run E sessionId correlation (choices v)
                (buffer, false) id w Hid)
      as (w1 & evs1 & Hrun1 & Hev1 & _ & Hnone1 & _).
    destruct (Hnone1 Hv) as [-> ->].
    set (w2 := set_trace (trace w ++ [Enqueue (encode_chunk E v)]) w).
    assert (Hev2 : evolves sessionId w w2 [Enqueue (encode_chunk E v)])
      by (subst w2; evolves_by_computation).
    destruct (IH (fold_left bufferChoice (choices v) buffer) id w2 last qs
                 choice rest Hid Hchunks Hlast Hqs Htool
                 (undisturbed_evolves E sessionId _ _ _ Hev2 Hund) Hparse)
      as (w3 & evs3 & groups & Hrun3 & Hev3 & Hgroups & Hobs3).
    exists w3, ([Enqueue (encode_chunk E v)] ++ evs3)%list, groups.
    cbn [map app readLoop]. run_with Hrun1.
    rewrite (bind_ok _ _ _ _ _ (enqueue_chunk_run v w)).
    cbn [fst snd]. change (existsb has_finishReason (choices v)) with (finishes v).
    rewrite Hv. cbn [orb].
    split; [exact Hrun3|]. split; [|split].
    + exact (evolves_trans sessionId w w2 w3 [Enqueue (encode_chunk E v)]
                           evs3 Hev2 Hev3).
    + exact Hgroups.
    + change (observe ([Enqueue (encode_chunk E v)] ++ evs3)
              = ([Enqueue (encode_chunk E v)]
                 ++ map (fun v => Enqueue (encode_chunk E v)) chunks
                 ++ List.concat groups
                 ++ [Enqueue (encode_chunk E last)])%list).
      rewrite observe_app, Hobs3. reflexivity.
Qed.
End Stream.

(** ** The order of the buffer *)

Lemma Map_set_keys {V : Type} (k : Z) (v : V) (l : list (Z * V)) :
  map fst (Map_set Z.eqb k v l)
  = if existsb (Z.eqb k) (map fst l) then map fst l
    else (map fst l ++ [k])%list.
Proof.
  induction l as [|[k' v'] l IH]; simpl; [reflexivity|].
  destruct (Z.eqb k k'); simpl; [reflexivity|].
  rewrite IH. destruct (existsb (Z.eqb k) (map fst l)); reflexivity.
Qed.

Lemma buffer_order_from deltas : forall buffer,
  map fst (fold_left bufferToolCall deltas buffer)
  = fold_left (fun seen i => if existsb (Z.eqb i) seen then seen
                             else (seen ++ [i])%list)
              (map tc_index deltas) (map fst buffer).
Proof.
  induction deltas as [|tc deltas IH]; intros buffer; [reflexivity|].
  cbn [fold_left map]. rewrite IH. f_equal.
  unfold bufferToolCall. apply Map_set_keys.
Qed.

(** The buffer lists the indexes in the order of their first arrival: the
    order in which a JavaScript [Map] is iterated. *)
Lemma buffer_order chunks :
  map fst (bufferChunks [] chunks)
  = first_arrivals (map tc_index (deltas_of chunks)).
Proof. rewrite bufferChunks_deltas. apply buffer_order_from. Qed.

(** ** A turn that ends with [tool_calls] *)


(** ** Sample runs *)

Lemma echo_tool_serialises params n r :
  serialisable params = true -> echo_tool params n = Ok r ->
  serialisable (ToolResult_to_js r) = true.
Proof.
  intros Hser [= <-]. cbn. rewrite Hser. reflexivity.
Defined.

Lemma home_results_serialise sessions rows :
  results_serialise (loaded (fun _ => echo_tool) sessions rows).
Proof.
  intros toolName tool params n r Htool Hser Hexec.
  apply (echo_tool_serialises params n r Hser).
  rewrite <- Hexec. clear Hexec. revert Htool.
  unfold loaded, assoc. cbn.
  repeat match goal with
         | |- context [String.eqb toolName ?k] =>
             destruct (String.eqb toolName k);
             [intros [= <-]; reflexivity|]
         end.
  discriminate.
Defined.

Lemma node_provider_answers : provider_answers node.
Proof. intros request n. eexists. reflexivity. Defined.

Lemma node_undisturbed : undisturbed node "s1" home.
Proof.
  split; [intros n; reflexivity|]. split.
  - discriminate.
  - apply home_results_serialise.
Defined.



Example two_calls_steps :
  map (fun ev => match ev with
                 | Log _ _ _ _ => "execute"
                 | MessageCreated _ => "row"
                 | CompletionCall _ => "follow-up"
                 | Enqueue _ => "enqueue"
                 | _ => "other"
                 end)
      (observe (trace (snd (transformStream node (turn two_calls) "s1" home))))
  = [ "enqueue";
      "execute"; "row"; "follow-up"; "enqueue";
      "execute"; "row"; "follow-up"; "enqueue";
      "enqueue" ].
Proof. vm_compute. reflexivity. Qed.

(** A result that [JSON.stringify] refuses: the tool is entered, the
    failure is logged, and no row is written, no follow-up requested and
    nothing announced for the call. *)
Example unserialisable_result_leaves_no_row :
  invoked (trace (snd (transformStream node (turn transform_call) "s1"
                                       transforming)))
  = [ ("data_transform",
       JObject [ ("data", JString "1"); ("fromFormat", JString "json");
                 ("toFormat", JString "json");
                 ("transform", JString "return 1n") ]) ]
  /\ observe (trace (snd (transformStream node (turn transform_call) "s1"
                                          transforming)))
     = [ Enqueue (encode_chunk node
                    (delta_chunk [ some_delta 0 "call_t" "data_transform"
                                              args_transform ]));
         execution_entry node "00000000-0000-4000-8000-000000000000"
           "data_transform"
           (JObject [ ("data", JString "1"); ("fromFormat", JString "json");
                      ("toFormat", JString "json");
                      ("transform", JString "return 1n") ]);
         Enqueue (encode_chunk node (finish_chunk "tool_calls")) ]
  /\ messages (snd (transformStream node (turn transform_call) "s1"
                                    transforming)) = [].
Proof. vm_compute. repeat split; reflexivity. Qed.

(** The order of execution is the order of arrival: here index 1 arrives
    before index 0. *)
Example arrival_order_not_index_order :
  executed
    (trace (snd (transformStream node
                   (turn [ delta_chunk
                             [ some_delta 1 "call_b" "file_read" args_path;
                               some_delta 0 "call_a" "web_search" args_hi ] ])
                   "s1" home)))
  = [JString "file_read"; JString "web_search"].
Proof. vm_compute. reflexivity. Qed.

(** ** Argument strings that do not parse *)

(** C3, amended.  When the argument string of a buffered tool call does
    not parse, [handleToolCall] returns normally: nothing is thrown up the
    stack, so the loop goes on with the next tool call and the stream is
    not errored.  All it does is log the failure: [executeTool] is not
    called, no [ToolResult] is made, no row is written, no follow-up
    completion is requested and nothing is sent to the caller for this
    tool call. *)
Theorem unparseable_arguments_absorbed (E : Env)
        (sessionId correlation : string) (toolCall : ToolCallEntry)
        (e : Exn) (w : World) :
  JSON_parse E (entry_arguments toolCall) = Throw e ->
  exists id w',
    handleToolCall E sessionId correlation toolCall w = (Ok tt, w') /\
    evolves sessionId w w' [failure_entry id correlation toolCall e] /\
    messages w' = messages w /\
    (forall index rest,
       executeToolCalls E sessionId correlation ((index, toolCall) :: rest) w
       = executeToolCalls E sessionId correlation rest w').
Proof.
  intros Hparse.
  destruct (handleToolCall_run E sessionId correlation toolCall w)
    as (w' & evs & Hrun & Hev & _ & Hfail & _).
  destruct (Hfail e Hparse) as [id ->].
  exists id, w'. split; [exact Hrun|]. split; [exact Hev|]. split.
  - rewrite (evolves_messages Hev). apply app_nil_r.
  - intros index rest. unfold executeToolCalls. cbn [for_of snd].
    run_with Hrun. reflexivity.
Qed.

(** The argument string of [cut_call], in [home]. *)
Lemma unparseable_arguments_absorbed_witness :
  exists id w',
    handleToolCall node "s1" "c1"
      {| entry_id := "call_a"; entry_name := "web_search";
         entry_arguments := args_cut |} home = (Ok tt, w') /\
    evolves "s1" home w'
      [failure_entry id "c1"
         {| entry_id := "call_a"; entry_name := "web_search";
            entry_arguments := args_cut |} SyntaxError] /\
    messages w' = messages home /\
    (forall index rest,
       executeToolCalls node "s1" "c1"
         ((index, {| entry_id := "call_a"; entry_name := "web_search";
                     entry_arguments := args_cut |}) :: rest) home
       = executeToolCalls node "s1" "c1" rest w').
Proof.
  apply (unparseable_arguments_absorbed node "s1" "c1"
           {| entry_id := "call_a"; entry_name := "web_search";
              entry_arguments := args_cut |} SyntaxError home).
  vm_compute. reflexivity.
Defined.

(** C3, as stated, fails: after a turn whose only tool call has an
    argument string that does not parse, the store holds no tool row; the
    failure was not turned into a persisted [ToolResult]. *)
Lemma unparseable_arguments_leave_no_row :
  ~ (exists row,
       In row (messages
                 (snd (transformStream node (turn cut_call) "s1" home)))
       /\ row_role row = Tool).
Proof. vm_compute. intros [row [[] _]]. Qed.

Example cut_call_steps :
  observe (trace (snd (transformStream node (turn cut_call) "s1" home)))
  = map (fun v => Enqueue (encode_chunk node v))
        (cut_call ++ [finish_chunk "tool_calls"]).
Proof. vm_compute. reflexivity. Qed.

(** ** What reaches the caller *)

(** C5, as stated, fails: a chunk with a tool-call delta goes to the
    caller as it came. *)
Lemma tool_call_deltas_reach_caller :
  ~ (forall E inputStream sessionId w v,
       In v (consumed inputStream) -> has_toolCalls v = true ->
       ~ In (encode_chunk E v)
            (enqueued
               (trace (snd (transformStream E inputStream sessionId w))))).
Proof.
  intros claim.
  apply (claim node (map ReadValue one_call) "s1" home
               (delta_chunk [some_delta 0 "call_a" "web_search" args_hi])).
  - left. reflexivity.
  - reflexivity.
  - vm_compute. left. reflexivity.
Qed.

(** The bytes sent for the chunk of [one_call] hold its delta. *)
Example one_call_bytes :
  option_map
    (fun v => match v with
              | JObject fields =>
                  match assoc "choices" fields with
                  | Some (JArray [JObject choice]) => assoc "delta" choice
                  | _ => None
                  end
              | _ => None
              end)
    (Json.parse
       (encode_chunk node
          (delta_chunk [some_delta 0 "call_a" "web_search" args_hi])))
  = Some (Some (JObject
       [ ("role", JString "assistant");
         ("content", JNull);
         ("toolCalls",
           JArray [ JObject [ ("index", JNumber 0);
                              ("id", JString "call_a");
                              ("type", JString "function");
                              ("function",
                                JObject [ ("name", JString "web_search");
                                          ("arguments", JString args_hi) ])
                            ] ]) ])).
Proof. vm_compute. reflexivity. Qed.

(** C5, amended.  Whatever the stream holds and whatever fails,
    [transformStream] returns, and the chunks it has read (up to the first
    that carries a finish reason, or to a rejected read) all go to the
    caller as they came, tool-call deltas included, in order; besides them
    the caller only gets the announcements of tool results, each before the
    chunk whose finish reason set the tool call off. *)
Theorem chunks_forwarded_verbatim (E : Env) (inputStream : list ReadResult)
        (sessionId : string) (w : World) :
  exists w' evs,
    transformStream E inputStream sessionId w = (Ok tt, w') /\
    trace w' = (trace w ++ evs)%list /\
    forwarded E (consumed inputStream) (enqueued evs).
Proof.
  destruct (transformStream_run E sessionId inputStream w)
    as (w' & evs & Hrun & Hev & _ & Hout).
  exists w', evs. split; [exact Hrun|]. split; [|exact Hout].
  apply (evolves_trace Hev).
Qed.

(** ** The follow-up completion *)

Lemma bind_ext {A B : Type} (m : M A) (f g : A -> M B) w :
  (forall a w', f a w' = g a w') -> bind m f w = bind m g w.
Proof.
  intros H. unfold bind. destruct (m w) as [[a|e] w']; [apply H|reflexivity].
Qed.

Lemma bind_congr {A B : Type} (m m' : M A) (f g : A -> M B) w :
  m w = m' w -> (forall a w', f a w' = g a w') -> bind m f w = bind m' g w.
Proof.
  intros Hm H. unfold bind. rewrite Hm.
  destruct (m' w) as [[a|e] w']; [apply H|reflexivity].
Qed.

Lemma try_catch_ext {A : Type} (m m' : M A) (h : Exn -> M A) w :
  m w = m' w -> try_catch m h w = try_catch m' h w.
Proof. intros H. unfold try_catch. now rewrite H. Qed.

Lemma for_of_ext {A : Type} (f g : A -> M unit) (l : list A) : forall w,
  (forall a w', f a w' = g a w') -> for_of l f w = for_of l g w.
Proof.
  induction l as [|a l IH]; intros w H; [reflexivity|].
  cbn [for_of]. unfold bind. rewrite (H a w).
  destruct (g a w) as [[[]|e] w']; [now apply IH|reflexivity].
Qed.

Section Provider.
Variable E : Env.
Variable provider : CompletionRequest -> nat -> Outcome (list ReadResult).
Hypothesis agree : same_rejections provider (completions_create E).

Lemma create_completion_discarded {B : Type} request (k : M B) w :
  bind (create_completion (with_provider E provider) request) (fun _ => k) w
  = bind (create_completion E request) (fun _ => k) w.
Proof.
  unfold create_completion, bind, emit, tick, lift. world_simpl.
  pose proof (agree request (ticks w)) as H.
  change (completions_create (with_provider E provider)) with provider.
  destruct (provider request (ticks w)),
           (completions_create E request (ticks w));
    try contradiction; [reflexivity|now subst].
Qed.

Lemma handleToolCall_provider sessionId correlation toolCall w :
  handleToolCall (with_provider E provider) sessionId correlation toolCall w
  = handleToolCall E sessionId correlation toolCall w.
Proof.
  unfold handleToolCall.
  apply (try_catch_ext
           (args <- lift (JSON_parse E (entry_arguments toolCall)) ;;
            r <- executeTool E (entry_name toolCall) args ;;
            content <- lift (stringify E (ToolResult_to_js r)) ;;
            saveMessage E sessionId (toolResultMessage toolCall content) ;;;
            history <- getMessages E sessionId default_limit ;;
            session <- getSession E sessionId ;;
            create_completion (with_provider E provider)
                              (followUpRequest session history) ;;;
            t1 <- Date_now E ;;
            t2 <- Date_now E ;;
            enqueue_chunk E (toolResultChunk t1 t2))).
  apply bind_ext. intros args w1.
  apply bind_ext. intros r w2.
  apply bind_ext. intros content w2'.
  apply bind_ext. intros row w3.
  apply bind_ext. intros history w4.
  apply bind_ext. intros session w5.
  apply create_completion_discarded.
Qed.

Lemma executeToolCalls_provider sessionId correlation buffer w :
  executeToolCalls (with_provider E provider) sessionId correlation buffer w
  = executeToolCalls E sessionId correlation buffer w.
Proof.
  unfold executeToolCalls. apply for_of_ext.
  intros kv w'. apply handleToolCall_provider.
Qed.

Lemma processChoices_provider sessionId correlation cs : forall state w,
  processChoices (with_provider E provider) sessionId correlation state cs w
  = processChoices E sessionId correlation state cs w.
Proof.
  induction cs as [|c cs IH]; intros state w; [reflexivity|].
  cbn [processChoices].
  assert (Hc : processChoice (with_provider E provider) sessionId
                 correlation state c w
               = processChoice E sessionId correlation state c w).
  { unfold processChoice. destruct (has_finishReason c); [|reflexivity].
    destruct (finished_with_tool_calls c
              && (0 <? Z.of_nat (List.length (bufferChoice (fst state) c))));
      [|reflexivity].
    unfold bind. rewrite executeToolCalls_provider. reflexivity. }
  apply bind_congr; [exact Hc|]. intros state' w'. apply IH.
Qed.

Lemma readLoop_provider sessionId correlation inputStream :
  forall buffer w,
    readLoop (with_provider E provider) sessionId correlation inputStream
             buffer w
    = readLoop E sessionId correlation inputStream buffer w.
Proof.
  induction inputStream as [|[v|e] rest IH]; intros buffer w;
    [reflexivity| |reflexivity].
  cbn [readLoop]. apply bind_congr; [apply processChoices_provider|].
  intros state w1.
  change (enqueue_chunk (with_provider E provider)) with (enqueue_chunk E).
  apply bind_ext. intros [] w2.
  destruct (snd state); [reflexivity|apply IH].
Qed.

Lemma transformStream_provider inputStream sessionId w :
  transformStream (with_provider E provider) inputStream sessionId w
  = transformStream E inputStream sessionId w.
Proof.
  unfold transformStream.
  change (getCorrelationId (with_provider E provider))
    with (getCorrelationId E).
  apply bind_ext. intros id w1. apply try_catch_ext. apply readLoop_provider.
Qed.
End Provider.




(** ** The store *)

Section Store.
Variable E : Env.

Lemma processChat_run request w :
  exists r w' evs,
    processChat E request w = (r, w') /\
    evolves (chat_sessionId request) w w' evs /\
    Forall (tool_row (chat_sessionId request)) (created evs).
Proof.
  set (sessionId := chat_sessionId request).
  destruct (getCorrelationId_run E sessionId w)
    as (id & w0 & Hrun0 & Hev0 & Hid0).
  unfold processChat. fold sessionId. run_with Hrun0.
  rewrite (bind_ok _ _ _ _ _ (logger_set E _ _ _ w0 id Hid0)).
  match goal with
  | |- context [try_catch _ _ ?w1'] => set (w1 := w1')
  end.
  assert (Hev1 : exists evs1, evolves sessionId w w1 evs1
                              /\ created evs1 = []).
  { eexists. split.
    - eapply evolves_trans; [exact Hev0|]. subst w1.
      apply evolves_emit. reflexivity.
    - reflexivity. }
  destruct Hev1 as (evs1 & Hev1 & Hrows1).
  assert (Hid1 : or_undefined (correlationId w1) = Some id) by exact Hid0.
  (* the [try] block *)
  assert (Hbody : exists rb wb evsb,
            (session <- getSession E sessionId ;;
             match session with
             | None => throw (JsError ("Session not found: " ++ sessionId))
             | Some s =>
                 availableTools <- getRegisteredTools ;;
                 stream <- create_completion E
                             (firstRequest request s availableTools) ;;
                 transformStream E stream sessionId
             end) w1 = (rb, wb)
            /\ evolves sessionId w1 wb evsb
            /\ Forall (tool_row sessionId) (created evsb)).
  { destruct (getSession_run E sessionId id w1 Hid1)
      as (r2 & w2 & evs2 & Hrun2 & Hev2 & Hobs2 & _).
    pose proof (created_of_observed evs2 [] Hobs2) as Hrows2.
    destruct r2 as [[s|]|e].
    - run_with Hrun2. unfold getRegisteredTools. rewrite bind_gets.
      destruct (create_completion_run E sessionId
                  (firstRequest request s
                     (map (fun t => definition (snd t)) (toolRegistry w2)))
                  w2) as (w3 & Hrun3 & Hev3 & _).
      destruct (completions_create E _ (ticks w2)) as [stream|e].
      + run_with Hrun3.
        destruct (transformStream_run E sessionId stream w3)
          as (w4 & evs4 & Hrun4 & Hev4 & Hrows4 & _).
        eexists _, _, _. split; [exact Hrun4|]. split.
        * eapply evolves_trans; [exact Hev2|].
          eapply evolves_trans; [exact Hev3|exact Hev4].
        * rewrite !created_app, Hrows2. exact Hrows4.
      + run_with Hrun3. eexists _, _, _. split; [reflexivity|]. split.
        * eapply evolves_trans; [exact Hev2|exact Hev3].
        * rewrite created_app, Hrows2. constructor.
    - run_with Hrun2. eexists _, _, _. split; [reflexivity|].
      split; [exact Hev2|]. rewrite Hrows2. constructor.
    - run_with Hrun2. eexists _, _, _. split; [reflexivity|].
      split; [exact Hev2|]. rewrite Hrows2. constructor. }
  destruct Hbody as (rb & wb & evsb & Hrunb & Hevb & Hrowsb).
  pose proof (evolves_trans sessionId _ _ _ _ _ Hev1 Hevb) as Hev.
  destruct rb as [[]|e].
  - eexists _, wb, _. erewrite try_ok; [|exact Hrunb].
    split; [reflexivity|]. split; [exact Hev|].
    rewrite created_app, Hrows1. exact Hrowsb.
  - destruct (logger_run E sessionId Error "Chat processing failed"
                [ ("correlationId", JString id);
                  ("error", JString (error_message e)) ] wb)
      as (id' & wc & Hlog & Hevc & _).
    eexists _, wc, _. erewrite try_throw; [|exact Hrunb].
    run_with Hlog. split; [reflexivity|]. split.
    + eapply evolves_trans; [exact Hev|exact Hevc].
    + rewrite !created_app, Hrows1. cbn [created flat_map app].
      rewrite app_nil_r. exact Hrowsb.
Qed.

(** C9, amended.  What [processChat] and [transformStream] leave in the
    store, on any request or stream and whatever fails: the message table
    is what it was, followed by rows that all have the [tool] role and
    belong to the session of the exchange, so neither the user message nor
    the assistant's reply is written; the session table is what it was, but
    for the [updatedAt] of that session, which [saveMessage] sets with each
    row it writes. *)
Theorem only_tool_rows_written (request : ChatRequest)
        (inputStream : list ReadResult) (sessionId : string) (w : World) :
  (exists rows,
     messages (snd (processChat E request w)) = (messages w ++ rows)%list /\
     Forall (tool_row (chat_sessionId request)) rows /\
     sessions_touched (chat_sessionId request) (sessions w)
                      (sessions (snd (processChat E request w))))
  /\ (exists rows,
        messages (snd (transformStream E inputStream sessionId w))
        = (messages w ++ rows)%list /\
        Forall (tool_row sessionId) rows /\
        sessions_touched sessionId (sessions w)
          (sessions (snd (transformStream E inputStream sessionId w)))).
Proof.
  split.
  - destruct (processChat_run request w) as (r & w' & evs & Hrun & Hev & Hrows).
    rewrite Hrun. exists (created evs). cbn [snd].
    split; [apply (evolves_messages Hev)|].
    split; [exact Hrows|apply (evolves_sessions Hev)].
  - destruct (transformStream_run E sessionId inputStream w)
      as (w' & evs & Hrun & Hev & Hrows & _).
    rewrite Hrun. exists (created evs). cbn [snd].
    split; [apply (evolves_messages Hev)|].
    split; [exact Hrows|apply (evolves_sessions Hev)].
Qed.
End Store.

(** C9, as stated, fails: the store is not otherwise unchanged.  After a
    turn with one tool call the row of the session is another: its
    [updatedAt], which was 1699999990000, is 1700000000004. *)
Lemma session_timestamp_rewritten :
  map session_updatedAt (sessions home) = [1699999990000]
  /\ map session_updatedAt
       (sessions (snd (transformStream node (turn one_call) "s1" home)))
     = [1700000000004]
  /\ sessions (snd (transformStream node (turn one_call) "s1" home))
     <> sessions home.
Proof.
  vm_compute. split; [reflexivity|]. split; [reflexivity|]. discriminate.
Qed.

(* ===================================================================== *)
(** * Further properties of the tool service *)
(* ===================================================================== *)

Lemma sessions_touched_apart a b l l' :
  a <> b -> sessions_touched a l l' -> sessions_touched b l l' -> l = l'.
Proof.
  intros Hab Ha. induction Ha as [|s s' l l' [t Hs] Hrest IH];
    intros Hb; [reflexivity|].
  inversion Hb as [|? ? ? ? [t' Hs'] Hrest']; subst.
  f_equal; [|exact (IH Hrest')].
  unfold touch_session in Hs'. unfold touch_session.
  destruct (String.eqb_spec (session_id s) a) as [Ha'|Ha']; [|reflexivity].
  destruct (String.eqb_spec (session_id s) b) as [Hb'|Hb']; [congruence|].
  rewrite <- Hs' at 1.
  unfold touch_session.
  destruct (String.eqb_spec (session_id s) a); [|contradiction].
  reflexivity.
Qed.

Lemma invoked_observe_free evs :
  observe evs = [] -> enqueued evs = [] /\ created evs = [].
Proof.
  intros H. rewrite <- (enqueued_observe evs), <- (created_observe evs), H.
  split; reflexivity.
Qed.



Lemma check_required_primitive (E : Env) field rest params :
  is_primitive params = true ->
  exists e, check_required E (field :: rest) params = Throw e.
Proof.
  intros Hprim. cbn [check_required].
  destruct params; try discriminate; eexists; reflexivity.
Qed.

(** X2.  On a parameter value that is not an object (a number, a string, a
    boolean, [null], [undefined]), for a registered tool with a required
    field, [executeTool] throws: the [in] operator of the required-field
    check raises a [TypeError], which [executeTool] does not catch.  The
    tool is not entered. *)
Theorem executeTool_throws_on_primitive (E : Env) (toolName : string)
        (tool : RegisteredTool) (field : string) (rest : list string)
        (params : JsValue) (w : World) :
  assoc toolName (toolRegistry w) = Some tool ->
  required (parameters (definition tool)) = Some (field :: rest) ->
  is_primitive params = true ->
  serialisable params = true ->
  exists message w' evs,
    executeTool E toolName params w = (Throw (JsError message), w')
    /\ trace w' = (trace w ++ evs)%list
    /\ invoked evs = [].
Proof.
  intros Htool Hreq Hprim Hser.
  destruct (executeTool_prelude E "" toolName params w Hser)
    as (id & w2 & Hrun & Hev & Hid & Hpos).
  rewrite Htool in Hrun.
  assert (Hthrow : exists message,
             validateParameters E params (parameters (definition tool))
             = Throw (JsError message)).
  { unfold validateParameters. rewrite Hreq. cbn [check_required].
    destruct params; try discriminate; eexists; reflexivity. }
  destruct Hthrow as (message & Hthrow).
  exists message, w2, [execution_entry E id toolName params].
  split; [|split; [exact (evolves_trace Hev)|reflexivity]].
  rewrite Hrun. unfold executeTool_found. rewrite Hthrow. reflexivity.
Qed.

Lemma executeTool_throws_on_primitive_witness :
  exists message w' evs,
    executeTool node "file_read" (JNumber 5) fresh
    = (Throw (JsError message), w')
    /\ trace w' = (trace fresh ++ evs)%list
    /\ invoked evs = [].
Proof.
  apply (executeTool_throws_on_primitive node "file_read" file_read_tool
                                         "path" []);
    reflexivity.
Defined.

Lemma invoked_cons_other ev evs :
  match ev with ToolInvoked _ _ => False | _ => True end ->
  invoked (ev :: evs) = invoked evs.
Proof. destruct ev; intros H; try reflexivity; contradiction. Qed.

(** X3.  When the parameters pass validation and the function of the tool
    throws, [executeTool] returns a result with [success = false] and the
    message of the exception as its error: the failure is logged as
    ['Tool execution failed'] and no latency is recorded for the tool. *)
Theorem executeTool_contains_tool_failure (E : Env) (toolName : string)
        (tool : RegisteredTool) (params : JsValue) (e : Exn) (w : World) :
  assoc toolName (toolRegistry w) = Some tool ->
  serialisable params = true ->
  validateParameters E params (parameters (definition tool)) = Ok None ->
  (forall n, execute tool params n = Throw e) ->
  exists duration w' evs,
    executeTool E toolName params w
    = (Ok {| success := false; result := None;
             error := Some (error_message e);
             executionTimeMs := duration |}, w')
    /\ trace w' = (trace w ++ evs)%list
    /\ invoked evs = [(toolName, params)]
    /\ errors_logged evs = [("Tool execution failed", error_message e)]
    /\ latencies_recorded evs = [].
Proof.
  intros Htool Hser Hvalid Hthrow.
  destruct (executeTool_prelude E "" toolName params w Hser)
    as (id & w2 & Hrun & Hev & Hid & Hpos).
  rewrite Htool in Hrun.
  pose proof (run_tool_run toolName tool params w2) as Hrt.
  rewrite Hthrow in Hrt.
  set (w3 := set_ticks (S (ticks w2))
               (set_trace (trace w2 ++ [ToolInvoked toolName params]) w2))
    in Hrt.
  assert (Hid3 : or_undefined (correlationId w3) = Some id) by exact Hid.
  pose proof (logger_set E Error "Tool execution failed"
                [ ("correlationId", JString id);
                  ("toolName", JString toolName);
                  ("error", JString (error_message e)) ] w3 id Hid3) as Hlog.
  eexists _, _, _. split; [|split; [|split; [|split]]].
  - rewrite Hrun. unfold executeTool_found. rewrite Hvalid, bind_lift_ok.
    cbn [or_undefined].
    erewrite try_throw; [|run_with Hrt; reflexivity].
    run_with Hlog. rewrite bind_Date_now. reflexivity.
  - cbn [trace set_ticks set_trace]. unfold w3.
    cbn [trace set_ticks set_trace]. rewrite (evolves_trace Hev).
    repeat rewrite <- app_assoc. reflexivity.
  - reflexivity.
  - reflexivity.
  - reflexivity.
Qed.

Lemma executeTool_contains_tool_failure_witness :
  exists duration w' evs,
    executeTool node "broken" (JObject []) broken
    = (Ok {| success := false; result := None;
             error := Some "ENOENT: no such file or directory";
             executionTimeMs := duration |}, w')
    /\ trace w' = (trace broken ++ evs)%list
    /\ invoked evs = [("broken", JObject [])]
    /\ errors_logged evs
       = [("Tool execution failed", "ENOENT: no such file or directory")]
    /\ latencies_recorded evs = [].
Proof.
  apply (executeTool_contains_tool_failure
           node "broken"
           {| execute := failing_tool; definition := lenient_definition |}
           (JObject []) (JsError "ENOENT: no such file or directory") broken);
    [reflexivity|reflexivity|reflexivity|intros n; reflexivity].
Defined.

Lemma typeof_in_names v : In (typeof v) typeof_names.
Proof. destruct v; simpl; auto 7. Qed.

Lemma includes_type_single t actual :
  includes_type [Some t] actual = String.eqb actual t.
Proof. simpl. apply orb_false_r. Qed.



Lemma assoc_app_absent {V : Type} k (l1 l2 : list (string * V)) :
  assoc k l1 = None -> assoc k (l1 ++ l2) = assoc k l2.
Proof.
  induction l1 as [|[k' v'] l1 IH]; [reflexivity|].
  unfold assoc in *. simpl. destruct (String.eqb k k'); [discriminate|exact IH].
Qed.

Lemma assoc_insert_other {V : Type} k k' (v : V) l1 l2 :
  k <> k' -> assoc k (l1 ++ (k', v) :: l2) = assoc k (l1 ++ l2).
Proof.
  intros Hne. induction l1 as [|[k1 v1] l1 IH].
  - unfold assoc. simpl. apply String.eqb_neq in Hne. now rewrite Hne.
  - unfold assoc in *. simpl.
    destruct (String.eqb k k1); [reflexivity|exact IH].
Qed.

Lemma first_error_app props l1 l2 :
  first_error props (l1 ++ l2)
  = match first_error props l1 with
    | Some msg => Some msg
    | None => first_error props l2
    end.
Proof.
  induction l1 as [|e l1 IH]; [reflexivity|].
  simpl. destruct (check_entry props e); [reflexivity|exact IH].
Qed.

(** X5.  A parameter the schema does not declare is not looked at: adding
    one, under a name that no object inherits and that the object does not
    hold yet, to parameters that pass validation gives parameters that pass
    validation, whatever its value and its place among the properties. *)
Theorem undeclared_parameter_accepted (E : Env) (schema : ParameterSchema)
        (key : string) (value : JsValue)
        (before after : list (string * JsValue)) :
  validateParameters E (JObject (before ++ after)) schema = Ok None ->
  assoc key (properties schema) = None ->
  in_list key Object_prototype_keys = false ->
  assoc key (before ++ after) = None ->
  validateParameters E (JObject (before ++ (key, value) :: after)) schema
  = Ok None.
Proof.
  intros Hvalid Hundeclared Hproto Hfresh.
  unfold validateParameters in *.
  destruct (required schema) as [requiredFields|]; [|reflexivity].
  rewrite check_required_object in *.
  destruct (find (field_missing (before ++ after)) requiredFields)
    as [field|] eqn:Hfind; [discriminate|].
  assert (Hfind' : find (field_missing (before ++ (key, value) :: after))
                        requiredFields = None).
  { clear Hvalid. induction requiredFields as [|f rest IH]; [reflexivity|].
    simpl in Hfind. simpl.
    destruct (field_missing (before ++ after) f) eqn:Hf; [discriminate|].
    assert (Hf' : field_missing (before ++ (key, value) :: after) f = false).
    { unfold field_missing in *.
      destruct (String.eqb_spec f key) as [->|Hne].
      - rewrite Hfresh in Hf. rewrite Hproto in Hf. discriminate.
      - rewrite (assoc_insert_other (V := JsValue)); assumption. }
    rewrite Hf'. exact (IH Hfind). }
  rewrite Hfind'. cbn [Object_entries] in *.
  injection Hvalid as Hvalid. f_equal.
  rewrite first_error_app in *.
  destruct (first_error (properties schema) before); [discriminate|].
  simpl. unfold lookup_schema. rewrite Hundeclared, Hproto. exact Hvalid.
Qed.

Lemma undeclared_parameter_accepted_witness :
  validateParameters node (JObject search_with_locale)
                     (parameters web_search_definition)
  = Ok None.
Proof.
  apply (undeclared_parameter_accepted
           node (parameters web_search_definition) "locale" (JString "fr")
           [("query", JString "hi")] []);
    reflexivity.
Defined.

(** X6.  A parameter the schema does not declare, but whose name every
    object inherits a property for ([toString], [constructor], ...), is
    looked up in the property table all the same and found on its
    prototype: the parameters are rejected, against any schema with a
    [required] list. *)
Theorem inherited_name_rejected (E : Env) (schema : ParameterSchema)
        (requiredFields : list string) (key : string) (value : JsValue)
        (fields : list (string * JsValue)) :
  required schema = Some requiredFields ->
  assoc key (properties schema) = None ->
  in_list key Object_prototype_keys = true ->
  In (key, value) fields ->
  exists msg,
    validateParameters E (JObject fields) schema = Ok (Some msg)
    /\ descriptive msg.
Proof.
  intros Hreq Hundeclared Hproto Hin.
  unfold validateParameters. rewrite Hreq, check_required_object.
  destruct (find (field_missing fields) requiredFields) as [field|].
  - eexists. split; [reflexivity|]. left. eauto.
  - cbn [Object_entries].
    assert (Hcheck : check_entry (properties schema) (key, value)
                     = Some ("Invalid type for " ++ key ++ ": expected "
                             ++ "" ++ ", got " ++ typeof value)).
    { unfold check_entry, lookup_schema. rewrite Hundeclared, Hproto.
      reflexivity. }
    destruct (first_error_found _ _ _ _ Hin Hcheck)
      as (entry' & msg' & _ & Hc' & Hf').
    exists msg'. rewrite Hf'. split; [reflexivity|].
    eapply check_entry_descriptive; exact Hc'.
Qed.

Lemma inherited_name_rejected_witness :
  exists msg,
    validateParameters node (JObject search_with_toString)
                       (parameters web_search_definition)
    = Ok (Some msg)
    /\ descriptive msg.
Proof.
  apply (inherited_name_rejected
           node (parameters web_search_definition) ["query"] "toString"
           (JString "x"));
    [reflexivity|reflexivity|reflexivity|right; left; reflexivity].
Defined.

Example search_with_toString_message :
  validateParameters node (JObject search_with_toString)
                     (parameters web_search_definition)
  = Ok (Some "Invalid type for toString: expected , got string").
Proof. reflexivity. Qed.

(** X7.  The required fields are checked first and in the order of the
    [required] list: the field reported missing is the first of the list
    that the parameter object lacks (or holds as [null] or [undefined]),
    whatever is wrong with the types and values of the other parameters. *)
Theorem first_missing_field_reported (E : Env) (schema : ParameterSchema)
        (present : list string) (field : string) (rest : list string)
        (fields : list (string * JsValue)) :
  required schema = Some (present ++ field :: rest)%list ->
  forallb (fun f => negb (field_missing fields f)) present = true ->
  field_missing fields field = true ->
  validateParameters E (JObject fields) schema
  = Ok (Some ("Missing required field: " ++ field)).
Proof.
  intros Hreq Hpresent Hmissing.
  unfold validateParameters. rewrite Hreq, check_required_object.
  replace (find (field_missing fields) (present ++ field :: rest)%list)
    with (Some field); [reflexivity|].
  clear Hreq. induction present as [|f present IH].
  - simpl. now rewrite Hmissing.
  - simpl in Hpresent. apply andb_true_iff in Hpresent as [Hf Hpresent].
    simpl. apply negb_true_iff in Hf. rewrite Hf. exact (IH Hpresent).
Qed.

Lemma first_missing_field_reported_witness :
  validateParameters node (JObject write_nothing)
                     (parameters file_write_definition)
  = Ok (Some "Missing required field: path").
Proof.
  apply (first_missing_field_reported
           node (parameters file_write_definition) [] "path" ["content"]);
    reflexivity.
Defined.

(** ** The registry *)

Lemma assoc_set_same {V : Type} k (v : V) l :
  assoc k (Map_set String.eqb k v l) = Some v.
Proof.
  unfold assoc. induction l as [|[k' v'] l IH]; simpl.
  - now rewrite String.eqb_refl.
  - destruct (String.eqb k k') eqn:Hk; simpl; rewrite Hk;
      [reflexivity|exact IH].
Qed.

Lemma assoc_set_other {V : Type} k k0 (v : V) l :
  k0 <> k ->
  assoc k0 (Map_set String.eqb k v l) = assoc k0 l.
Proof.
  intros Hne. unfold assoc. induction l as [|[k' v'] l IH]; simpl.
  - apply String.eqb_neq in Hne. now rewrite Hne.
  - destruct (String.eqb k k') eqn:Hk; simpl.
    + apply String.eqb_eq in Hk. subst k'.
      apply String.eqb_neq in Hne. now rewrite Hne.
    + destruct (String.eqb k0 k'); [reflexivity|exact IH].
Qed.

Lemma Map_set_string_keys {V : Type} k (v : V) l :
  keys (Map_set String.eqb k v l)
  = match assoc k l with
    | Some _ => keys l
    | None => (keys l ++ [k])%list
    end.
Proof.
  unfold keys, assoc. induction l as [|[k' v'] l IH]; [reflexivity|].
  simpl. destruct (String.eqb k k') eqn:Hk; [reflexivity|].
  simpl. rewrite IH. destruct (Map_get String.eqb k l); reflexivity.
Qed.

Lemma Map_set_listing k exec def l :
  assoc k l = None ->
  listing (Map_set String.eqb k {| execute := exec; definition := def |} l)
  = (listing l ++ [def])%list.
Proof.
  unfold listing, assoc. induction l as [|[k' v'] l IH]; [reflexivity|].
  simpl. destruct (String.eqb k k') eqn:Hk; [discriminate|].
  intros H. simpl. now rewrite (IH H).
Qed.

(** X8.  A tool registered with [registerTool] is the one the registry
    answers with under its name, built-in or not: [getToolDefinition]
    returns its definition and the registry holds its function; what is
    registered under any other name is as before. *)
Theorem registerTool_lookup (name other : string) (def : ToolDefinition)
        (exec : JsValue -> nat -> Outcome ToolResult) (w : World) :
  fst (getToolDefinition name (snd (registerTool name def exec w)))
  = Ok (Some def)
  /\ assoc name (toolRegistry (snd (registerTool name def exec w)))
     = Some {| execute := exec; definition := def |}
  /\ (other <> name ->
      assoc other (toolRegistry (snd (registerTool name def exec w)))
      = assoc other (toolRegistry w)
      /\ fst (getToolDefinition other (snd (registerTool name def exec w)))
         = fst (getToolDefinition other w)).
Proof.
  unfold getToolDefinition, registerTool, modify, gets.
  cbn [fst snd toolRegistry set_toolRegistry].
  rewrite assoc_set_same. split; [reflexivity|]. split; [reflexivity|].
  intros Hne. rewrite (assoc_set_other _ _ _ _ Hne). split; reflexivity.
Qed.

(** X9.  [registerTool] keeps the registry in registration order: a name
    that is new goes last, and [getRegisteredTools] lists its definition
    after the ones it listed before; a name that is registered already
    keeps its place, and the number of tools listed does not change. *)
Theorem registerTool_order (name : string) (def : ToolDefinition)
        (exec : JsValue -> nat -> Outcome ToolResult) (w : World) :
  exists tools,
    fst (getRegisteredTools (snd (registerTool name def exec w))) = Ok tools
    /\ match assoc name (toolRegistry w) with
       | None =>
           tools = (listing (toolRegistry w) ++ [def])%list
           /\ keys (toolRegistry (snd (registerTool name def exec w)))
              = (keys (toolRegistry w) ++ [name])%list
       | Some _ =>
           List.length tools = List.length (listing (toolRegistry w))
           /\ keys (toolRegistry (snd (registerTool name def exec w)))
              = keys (toolRegistry w)
       end.
Proof.
  eexists. split; [reflexivity|].
  unfold registerTool, modify. cbn [snd toolRegistry set_toolRegistry].
  rewrite Map_set_string_keys.
  destruct (assoc name (toolRegistry w)) as [old|] eqn:Hold.
  - split; [|reflexivity].
    unfold getRegisteredTools, gets, listing. cbn [fst].
    pose proof (Map_set_string_keys name
                  {| execute := exec; definition := def |} (toolRegistry w))
      as Hkeys.
    rewrite Hold in Hkeys. unfold keys in Hkeys.
    apply (f_equal (@List.length string)) in Hkeys.
    rewrite !length_map in Hkeys. rewrite !length_map. exact Hkeys.
  - split; [|reflexivity].
    exact (Map_set_listing name exec def (toolRegistry w) Hold).
Qed.

(* ===================================================================== *)
(** * The metrics recorder *)
(* ===================================================================== *)

Lemma lastn_all {A : Type} k (l : list A) :
  (List.length l <= k)%nat -> lastn k l = l.
Proof.
  intros H. unfold lastn. replace (List.length l - k)%nat with O by lia.
  reflexivity.
Qed.

Lemma lastn_length {A : Type} k (l : list A) :
  (List.length (lastn k l) <= k)%nat.
Proof. unfold lastn. rewrite length_skipn. lia. Qed.

Lemma lastn_app {A : Type} k (a b : list A) :
  lastn k (lastn k a ++ b)%list = lastn k (a ++ b)%list.
Proof.
  destruct (Nat.le_gt_cases (List.length a) k) as [Hle|Hgt].
  - now rewrite (lastn_all k a Hle).
  - unfold lastn at 1 3. rewrite !length_app.
    assert (Hlen : List.length (lastn k a) = k).
    { unfold lastn. rewrite length_skipn. lia. }
    rewrite Hlen.
    replace (k + List.length b - k)%nat with (List.length b) by lia.
    replace (List.length a + List.length b - k)%nat
      with (List.length b + (List.length a - k))%nat by lia.
    rewrite <- skipn_skipn. f_equal.
    unfold lastn. rewrite skipn_app.
    replace (List.length a - k - List.length a)%nat with O by lia.
    reflexivity.
Qed.

Lemma lastn_push {A : Type} (l : list A) x :
  (List.length l <= 1000)%nat ->
  (if (1000 <? Z.of_nat (List.length (l ++ [x])%list)) then tl (l ++ [x])%list
   else (l ++ [x])%list)
  = lastn 1000 (l ++ [x])%list.
Proof.
  intros Hle. rewrite length_app. cbn [List.length].
  destruct (1000 <? Z.of_nat (List.length l + 1)) eqn:Hfull.
  - apply Z.ltb_lt in Hfull.
    assert (Hlen : List.length l = 1000%nat) by lia.
    unfold lastn. rewrite length_app. cbn [List.length].
    replace (List.length l + 1 - 1000)%nat with 1%nat by lia.
    destruct l; [discriminate|reflexivity].
  - apply Z.ltb_ge in Hfull. symmetry. apply lastn_all.
    rewrite length_app. cbn [List.length]. lia.
Qed.

Lemma samples_recordLatency_same name ms m :
  (List.length (Metrics.samples name m) <= 1000)%nat ->
  Metrics.samples name (Metrics.recordLatency name ms m)
  = lastn 1000 (Metrics.samples name m ++ [ms])%list.
Proof.
  intros Hle. unfold Metrics.recordLatency.
  unfold Metrics.samples at 1. cbn [Metrics.latencies].
  rewrite assoc_set_same. apply lastn_push. exact Hle.
Qed.

Lemma samples_recordLatency_other name other ms m :
  other <> name ->
  Metrics.samples other (Metrics.recordLatency name ms m)
  = Metrics.samples other m.
Proof.
  intros Hne. unfold Metrics.recordLatency, Metrics.samples.
  cbn [Metrics.latencies]. now rewrite assoc_set_other.
Qed.

Lemma samples_record name ev m :
  (List.length (Metrics.samples name m) <= 1000)%nat ->
  Metrics.samples name (Metrics.record m ev)
  = lastn 1000 (Metrics.samples name m ++ latencies_of name [ev])%list.
Proof.
  intros Hle.
  assert (Hsame : Metrics.samples name m
                  = lastn 1000 (Metrics.samples name m ++ [])%list).
  { rewrite app_nil_r. symmetry. apply lastn_all. exact Hle. }
  destruct ev; try exact Hsame.
  cbn [Metrics.record latencies_of flat_map].
  destruct (String.eqb_spec name0 name) as [->|Hne].
  - rewrite app_nil_r. apply samples_recordLatency_same. exact Hle.
  - rewrite samples_recordLatency_other by congruence. exact Hsame.
Qed.

Lemma latencies_of_cons name ev evs :
  latencies_of name (ev :: evs)
  = (latencies_of name [ev] ++ latencies_of name evs)%list.
Proof. unfold latencies_of. simpl. now rewrite app_nil_r. Qed.

Lemma samples_replay name evs : forall m,
  (List.length (Metrics.samples name m) <= 1000)%nat ->
  Metrics.samples name (Metrics.replay evs m)
  = lastn 1000 (Metrics.samples name m ++ latencies_of name evs)%list.
Proof.
  induction evs as [|ev evs IH]; intros m Hle.
  - simpl. rewrite app_nil_r. symmetry. apply lastn_all. exact Hle.
  - cbn [Metrics.replay fold_left].
    change (fold_left Metrics.record evs (Metrics.record m ev))
      with (Metrics.replay evs (Metrics.record m ev)).
    rewrite IH.
    + rewrite (samples_record name ev m Hle), lastn_app.
      rewrite <- app_assoc, <- latencies_of_cons. reflexivity.
    + rewrite (samples_record name ev m Hle). apply lastn_length.
Qed.

(** X10.  The recorder keeps, for every name, a window of the latest 1000
    latencies: after any sequence of [recordLatency] and [incrementCounter]
    calls on a new recorder, what is held under a name is the last 1000 of
    the values recorded under it, in the order they were recorded in; older
    values are gone. *)
Theorem latency_window (name : string) (evs : list Event) :
  Metrics.samples name (Metrics.replay evs Metrics.empty)
  = lastn 1000 (latencies_of name evs)
  /\ (List.length (Metrics.samples name (Metrics.replay evs Metrics.empty))
      <= 1000)%nat.
Proof.
  assert (H : Metrics.samples name (Metrics.replay evs Metrics.empty)
              = lastn 1000 (latencies_of name evs)).
  { rewrite samples_replay; [reflexivity|]. simpl. lia. }
  split; [exact H|]. rewrite H. apply lastn_length.
Qed.

Lemma getCounter_increment_same name v m :
  Metrics.getCounter name (Metrics.incrementCounter name v m)
  = Metrics.getCounter name m + v.
Proof.
  unfold Metrics.incrementCounter. unfold Metrics.getCounter at 1.
  cbn [Metrics.counters]. now rewrite assoc_set_same.
Qed.

Lemma getCounter_increment_other name other v m :
  other <> name ->
  Metrics.getCounter other (Metrics.incrementCounter name v m)
  = Metrics.getCounter other m.
Proof.
  intros Hne. unfold Metrics.incrementCounter, Metrics.getCounter.
  cbn [Metrics.counters]. now rewrite assoc_set_other.
Qed.

Lemma getCounter_recordLatency name other ms m :
  Metrics.getCounter other (Metrics.recordLatency name ms m)
  = Metrics.getCounter other m.
Proof. reflexivity. Qed.

(** X11.  A counter counts: on a new recorder, after the metrics of any
    sequence of events have been recorded, [getCounter] of a name is the
    number of [incrementCounter] calls made for that name; calls for other
    names and recorded latencies do not change it, and a name never
    incremented reads 0. *)
Theorem counter_counts (name : string) (evs : list Event) :
  Metrics.getCounter name (Metrics.replay evs Metrics.empty)
  = Z.of_nat (increments_of name evs).
Proof.
  assert (H : forall m,
             Metrics.getCounter name (Metrics.replay evs m)
             = Metrics.getCounter name m + Z.of_nat (increments_of name evs)).
  { induction evs as [|ev evs IH]; intros m.
    - simpl. lia.
    - cbn [Metrics.replay fold_left].
      change (fold_left Metrics.record evs (Metrics.record m ev))
        with (Metrics.replay evs (Metrics.record m ev)).
      rewrite IH. unfold increments_of. cbn [filter].
      destruct ev; cbn [Metrics.record]; try reflexivity.
      destruct (String.eqb_spec name0 name) as [->|Hne].
      + rewrite getCounter_increment_same. cbn [List.length]. lia.
      + rewrite getCounter_increment_other by congruence. reflexivity. }
  rewrite H. reflexivity.
Qed.

(* ===================================================================== *)
(** * Further properties of the chat service *)
(* ===================================================================== *)

(** ** Identifiers and names of buffered tool calls *)

Lemma last_cons {A : Type} (x d : A) l : last (x :: l) d = last l x.
Proof.
  revert x d. induction l as [|y l IH]; intros x d; [reflexivity|].
  change (last (x :: y :: l) d) with (last (y :: l) d).
  now rewrite (IH y d), (IH y x).
Qed.

Lemma or_else_piece o d :
  or_else o d = if str_truthy (or_else o "") then or_else o "" else d.
Proof. destruct o as [[|c s]|]; reflexivity. Qed.

Lemma buffered_bufferToolCall index buffer tc :
  buffered_id index (bufferToolCall buffer tc)
  = (if Z.eqb (tc_index tc) index
     then if str_truthy (id_piece tc) then id_piece tc
          else buffered_id index buffer
     else buffered_id index buffer)
  /\ buffered_name index (bufferToolCall buffer tc)
     = (if Z.eqb (tc_index tc) index
        then if str_truthy (name_piece tc) then name_piece tc
             else buffered_name index buffer
        else buffered_name index buffer).
Proof.
  unfold buffered_id, buffered_name, bufferToolCall, id_piece, name_piece.
  destruct (Z.eqb_spec (tc_index tc) index) as [<-|Hne].
  - rewrite Map_get_set_same. cbn [entry_id entry_name].
    split; rewrite or_else_piece;
      destruct (Map_get Z.eqb (tc_index tc) buffer); reflexivity.
  - rewrite Map_get_set_other by congruence. split; reflexivity.
Qed.

Lemma buffered_deltas index deltas : forall buffer,
  buffered_id index (fold_left bufferToolCall deltas buffer)
  = last (filter str_truthy
            (map id_piece
                 (filter (fun tc => Z.eqb (tc_index tc) index) deltas)))
         (buffered_id index buffer)
  /\ buffered_name index (fold_left bufferToolCall deltas buffer)
     = last (filter str_truthy
               (map name_piece
                    (filter (fun tc => Z.eqb (tc_index tc) index) deltas)))
            (buffered_name index buffer).
Proof.
  induction deltas as [|tc deltas IH]; intros buffer; [split; reflexivity|].
  cbn [fold_left filter].
  destruct (IH (bufferToolCall buffer tc)) as [Hid Hname].
  destruct (buffered_bufferToolCall index buffer tc) as [Hid1 Hname1].
  rewrite Hid, Hname, Hid1, Hname1.
  destruct (Z.eqb (tc_index tc) index); [|split; reflexivity].
  cbn [map filter].
  split.
  - destruct (str_truthy (id_piece tc)); [now rewrite last_cons|reflexivity].
  - destruct (str_truthy (name_piece tc)); [now rewrite last_cons|reflexivity].
Qed.

(** X12.  Unlike the argument string, the identifier and the name of a
    tool call are not accumulated: after the deltas of a sequence of chunks
    the buffer holds, for an index, the last non-empty identifier and the
    last non-empty name delivered for it.  A name that arrives in two
    deltas is cut down to its second part. *)
Theorem identifier_and_name_overwritten (index : Z)
        (chunks : list StreamChunk) :
  buffered_id index (bufferChunks [] chunks)
  = last_nonempty (map id_piece (deltas_at index chunks))
  /\ buffered_name index (bufferChunks [] chunks)
     = last_nonempty (map name_piece (deltas_at index chunks)).
Proof.
  rewrite bufferChunks_deltas.
  exact (buffered_deltas index (deltas_of chunks) []).
Qed.

Example name_in_halves_buffered :
  bufferChunks [] name_in_halves
  = [ (0, {| entry_id := "call_a"; entry_name := "search";
             entry_arguments := args_hi |}) ].
Proof. reflexivity. Qed.

(** ** How the caller-facing stream ends *)

Lemma settlement_app a b :
  settlement (a ++ b) = (settlement a ++ settlement b)%list.
Proof. apply filter_app. Qed.

Lemma quiet_settlement E sessionId evs :
  quiet E sessionId evs -> settlement evs = [].
Proof.
  induction 1 as [|ev evs Hev _ IH]; [reflexivity|].
  unfold settlement in *. cbn [filter]. rewrite IH.
  destruct ev; try reflexivity; contradiction.
Qed.

Section Settlement.
Variable E : Env.
Variable sessionId : string.

Lemma readLoop_settlement correlation inputStream : forall buffer id w,
  or_undefined (correlationId w) = Some id ->
  exists w' evs,
    readLoop E sessionId correlation inputStream buffer w
    = (match stream_end inputStream with
       | Failed e => Throw e
       | _ => Ok tt
       end, w') /\
    trace w' = (trace w ++ evs)%list /\
    settlement evs = match stream_end inputStream with
                     | Exhausted => [Close]
                     | _ => []
                     end.
Proof.
  induction inputStream as [|[v|e] rest IH]; intros buffer id w Hid.
  - eexists _, [Close]. split; [reflexivity|]. split; reflexivity.
  - destruct (processChoices_run E sessionId correlation (choices v)
                (buffer, false) id w Hid)
      as (w1 & evs1 & Hrun1 & Hev1 & Hquiet1 & _ & _).
    pose proof (evolves_keeps_id sessionId _ _ _ _ Hev1 Hid) as Hid1.
    cbn [readLoop stream_end]. run_with Hrun1.
    rewrite (bind_ok _ _ _ _ _ (enqueue_chunk_run E v w1)).
    cbn [fst snd]. rewrite orb_false_r. fold (finishes v).
    set (w2 := set_trace (trace w1 ++ [Enqueue (encode_chunk E v)]) w1).
    destruct (finishes v).
    + exists w2, (evs1 ++ [Enqueue (encode_chunk E v)])%list.
      split; [reflexivity|]. split.
      * subst w2. world_simpl. rewrite (evolves_trace Hev1).
        now rewrite app_assoc.
      * rewrite settlement_app, (quiet_settlement _ _ _ Hquiet1).
        reflexivity.
    + destruct (IH (fold_left bufferChoice (choices v) buffer) id w2 Hid1)
        as (w3 & evs3 & Hrun3 & Htrace3 & Hsettle3).
      exists w3, ((evs1 ++ [Enqueue (encode_chunk E v)]) ++ evs3)%list.
      split; [exact Hrun3|]. split.
      * rewrite Htrace3. subst w2. world_simpl.
        rewrite (evolves_trace Hev1). now rewrite !app_assoc.
      * rewrite !settlement_app, (quiet_settlement _ _ _ Hquiet1).
        exact Hsettle3.
  - eexists _, []. split; [reflexivity|].
    split; [now rewrite app_nil_r|reflexivity].
Qed.
End Settlement.

(** X13.  How the stream [transformStream] returns is settled: it is
    closed when the input stream is exhausted before any finish reason, and
    errored when a read of the input is rejected; after a chunk with a
    finish reason it is neither closed nor errored: it is left open.
    [transformStream] itself does not throw. *)
Theorem stream_settled_by_input (E : Env) (inputStream : list ReadResult)
        (sessionId : string) (w : World) :
  exists w' evs,
    transformStream E inputStream sessionId w = (Ok tt, w')
    /\ trace w' = (trace w ++ evs)%list
    /\ settlement evs = match stream_end inputStream with
                        | Exhausted => [Close]
                        | Finished => []
                        | Failed e => [StreamError e]
                        end.
Proof.
  destruct (getCorrelationId_run E sessionId w)
    as (id & w0 & Hrun0 & Hev0 & Hid).
  destruct (readLoop_settlement E sessionId id inputStream [] id w0 Hid)
    as (w1 & evs & Hrun & Htrace & Hsettle).
  pose proof (evolves_trace Hev0) as Htrace0. rewrite app_nil_r in Htrace0.
  unfold transformStream. run_with Hrun0.
  destruct (stream_end inputStream) as [| |e].
  - exists w1, evs. run_with Hrun. split; [reflexivity|].
    split; [now rewrite Htrace, Htrace0|exact Hsettle].
  - exists w1, evs. run_with Hrun. split; [reflexivity|].
    split; [now rewrite Htrace, Htrace0|exact Hsettle].
  - exists (set_trace (trace w1 ++ [StreamError e]) w1),
           (evs ++ [StreamError e])%list.
    run_with Hrun. split; [reflexivity|]. split.
    + world_simpl. rewrite Htrace, Htrace0. now rewrite app_assoc.
    + rewrite settlement_app, Hsettle. reflexivity.
Qed.

Section Relay.
Variable E : Env.
Variable sessionId : string.

Lemma processChoices_untouched correlation cs : forall state w,
  existsb finished_with_tool_calls cs = false ->
  processChoices E sessionId correlation state cs w
  = (Ok (fold_left bufferChoice cs (fst state),
         existsb has_finishReason cs || snd state), w).
Proof.
  induction cs as [|c cs IH]; intros [buffer done] w Hnone.
  - reflexivity.
  - cbn [existsb] in Hnone. apply orb_false_iff in Hnone as [Hc Hcs].
    cbn [processChoices]. unfold processChoice at 1. cbn [fst snd].
    rewrite Hc. cbn [andb].
    destruct (has_finishReason c) eqn:Hfin.
    + unfold bind at 1. unfold bind at 1. cbn [ret].
      rewrite (IH _ w Hcs). cbn [fst snd existsb]. rewrite Hfin.
      now rewrite orb_true_r.
    + unfold bind at 1. cbn [ret].
      rewrite (IH _ w Hcs). cbn [fst snd existsb]. rewrite Hfin.
      reflexivity.
Qed.

Lemma readLoop_relay correlation inputStream : forall buffer w,
  forallb (fun v => negb (calls_tools v)) (consumed inputStream) = true ->
  exists w',
    readLoop E sessionId correlation inputStream buffer w
    = (match stream_end inputStream with
       | Failed e => Throw e
       | _ => Ok tt
       end, w')
    /\ trace w'
       = (trace w
          ++ map (fun v => Enqueue (encode_chunk E v)) (consumed inputStream)
          ++ match stream_end inputStream with
             | Exhausted => [Close]
             | _ => []
             end)%list
    /\ messages w' = messages w
    /\ sessions w' = sessions w
    /\ toolRegistry w' = toolRegistry w
    /\ correlationId w' = correlationId w.
Proof.
  induction inputStream as [|[v|e] rest IH]; intros buffer w Hnone.
  - eexists. split; [reflexivity|]. repeat split.
  - cbn [consumed forallb] in Hnone.
    apply andb_true_iff in Hnone as [Hv Hrest].
    apply negb_true_iff in Hv.
    cbn [readLoop consumed stream_end].
    rewrite (bind_ok _ _ _ _ _
               (processChoices_untouched correlation (choices v)
                                         (buffer, false) w Hv)).
    rewrite (bind_ok _ _ _ _ _ (enqueue_chunk_run E v w)).
    cbn [fst snd]. rewrite orb_false_r. fold (finishes v).
    destruct (finishes v).
    + eexists. split; [reflexivity|]. world_simpl.
      cbn [map app]. repeat split.
    + destruct (IH (fold_left bufferChoice (choices v) buffer)
                   (set_trace (trace w ++ [Enqueue (encode_chunk E v)]) w)
                   Hrest)
        as (w' & Hrun & Htrace & Hmsg & Hsess & Hreg & Hid).
      exists w'. split; [exact Hrun|]. split; [|repeat split; assumption].
      rewrite Htrace. world_simpl. cbn [map].
      rewrite <- !app_assoc. reflexivity.
  - eexists. split; [reflexivity|]. cbn [consumed stream_end map app].
    rewrite app_nil_r. repeat split.
Qed.
End Relay.

(** X14.  On an input stream none of whose chunks, up to the one that ends
    the reading, carries the finish reason [tool_calls], [transformStream]
    is a relay: every chunk read goes to the caller as one line, in order,
    and nothing else happens but the settling of the stream: no tool is
    executed, nothing is logged, nothing is written to the store, no
    completion is requested. *)
Theorem relay_without_tool_calls (E : Env) (inputStream : list ReadResult)
        (sessionId : string) (w : World) :
  forallb (fun v => negb (calls_tools v)) (consumed inputStream) = true ->
  exists w',
    transformStream E inputStream sessionId w = (Ok tt, w')
    /\ trace w'
       = (trace w
          ++ map (fun v => Enqueue (encode_chunk E v)) (consumed inputStream)
          ++ match stream_end inputStream with
             | Exhausted => [Close]
             | Finished => []
             | Failed e => [StreamError e]
             end)%list
    /\ messages w' = messages w
    /\ sessions w' = sessions w
    /\ toolRegistry w' = toolRegistry w.
Proof.
  intros Hnone.
  destruct (getCorrelationId_run E "a" w) as (id & w0 & Hrun0 & Hev0 & Hid).
  destruct (getCorrelationId_run E "b" w) as (id' & w0' & Hrun0' & Hev0' & _).
  rewrite Hrun0 in Hrun0'. injection Hrun0' as <- <-.
  pose proof (evolves_trace Hev0) as Htrace0. rewrite app_nil_r in Htrace0.
  pose proof (evolves_messages Hev0) as Hmsg0.
  change (created []) with (@nil MessageRow) in Hmsg0.
  rewrite app_nil_r in Hmsg0.
  pose proof (evolves_registry Hev0) as Hreg0.
  assert (Hsess0 : sessions w0 = sessions w).
  { symmetry. apply (sessions_touched_apart "a" "b");
      [discriminate|exact (evolves_sessions Hev0)
      |exact (evolves_sessions Hev0')]. }
  destruct (readLoop_relay E sessionId id inputStream [] w0 Hnone)
    as (w1 & Hrun & Htrace & Hmsg & Hsess & Hreg & _).
  unfold transformStream. run_with Hrun0.
  destruct (stream_end inputStream) as [| |e].
  - exists w1. run_with Hrun. split; [reflexivity|].
    rewrite Htrace, Htrace0, Hmsg, Hmsg0, Hsess, Hsess0, Hreg, Hreg0.
    repeat split.
  - exists w1. run_with Hrun. split; [reflexivity|].
    rewrite Htrace, Htrace0, Hmsg, Hmsg0, Hsess, Hsess0, Hreg, Hreg0.
    repeat split.
  - exists (set_trace (trace w1 ++ [StreamError e]) w1).
    run_with Hrun. split; [reflexivity|]. world_simpl.
    rewrite Htrace, Htrace0, Hmsg, Hmsg0, Hsess, Hsess0, Hreg, Hreg0.
    rewrite app_nil_r, <- app_assoc. repeat split.
Qed.

Lemma relay_without_tool_calls_witness :
  exists w',
    transformStream node sunny_continuation "s1" home = (Ok tt, w')
    /\ trace w'
       = (trace home
          ++ map (fun v => Enqueue (encode_chunk node v))
                 (consumed sunny_continuation)
          ++ match stream_end sunny_continuation with
             | Exhausted => [Close]
             | Finished => []
             | Failed e => [StreamError e]
             end)%list
    /\ messages w' = messages home
    /\ sessions w' = sessions home
    /\ toolRegistry w' = toolRegistry home.
Proof.
  apply (relay_without_tool_calls node sunny_continuation "s1" home).
  vm_compute. reflexivity.
Defined.

(* ===================================================================== *)
(** * The rate limiter *)
(* ===================================================================== *)

Lemma assoc_filter_kept {V : Type} keep k (v : V) l :
  assoc k l = Some v -> keep (k, v) = true ->
  assoc k (filter keep l) = Some v.
Proof.
  unfold assoc. induction l as [|[k' v'] l IH]; [discriminate|].
  cbn [Map_get filter].
  destruct (String.eqb_spec k k') as [<-|Hne].
  - intros [= ->] Hkeep. rewrite Hkeep. cbn [Map_get].
    now rewrite String.eqb_refl.
  - intros Hl Hkeep. destruct (keep (k', v')); [|exact (IH Hl Hkeep)].
    cbn [Map_get]. apply String.eqb_neq in Hne. rewrite Hne.
    exact (IH Hl Hkeep).
Qed.

Lemma assoc_In {V : Type} k (v : V) l : assoc k l = Some v -> In (k, v) l.
Proof.
  unfold assoc. induction l as [|[k' v'] l IH]; [discriminate|].
  cbn [Map_get]. destruct (String.eqb_spec k k') as [<-|Hne].
  - intros [= ->]. left. reflexivity.
  - intros H. right. exact (IH H).
Qed.

Lemma idle_cleanup ip t0 now store :
  idle ip t0 store -> idle ip t0 (cleanup now store).
Proof.
  unfold idle, cleanup. intros H.
  destruct (10000 <? Z.of_nat (List.length store)); [|exact H].
  apply Forall_forall. intros kv Hin. apply filter_In in Hin as [Hin _].
  exact (proj1 (Forall_forall _ _) H kv Hin).
Qed.

Lemma idle_set_other ip t0 k v store :
  k <> ip -> idle ip t0 store -> idle ip t0 (Map_set String.eqb k v store).
Proof.
  unfold idle. intros Hne H. induction H as [|[k' v'] l Hhead Hrest IH].
  - constructor; [|constructor]. cbn. congruence.
  - cbn [Map_set]. destruct (String.eqb_spec k k') as [<-|Hk].
    + constructor; [cbn; congruence|exact Hrest].
    + constructor; [exact Hhead|exact IH].
Qed.

Lemma cleanup_keeps ip record now store :
  assoc ip store = Some record -> now <= record_resetTime record ->
  assoc ip (cleanup now store) = Some record.
Proof.
  intros Hrec Hlive. unfold cleanup.
  destruct (10000 <? Z.of_nat (List.length store)); [|exact Hrec].
  apply assoc_filter_kept; [exact Hrec|]. cbn [snd].
  apply negb_true_iff. apply Z.ltb_ge. exact Hlive.
Qed.

(** What [applyRateLimit] does to the record of a client that is running
    until after [now], on a request of another client. *)
Lemma applyRateLimit_other ip record request now stamp store :
  client request <> ip ->
  assoc ip store = Some record -> now <= record_resetTime record ->
  assoc ip (snd (applyRateLimit request now stamp store)) = Some record.
Proof.
  intros Hne Hrec Hlive. unfold applyRateLimit.
  assert (Hset : forall v,
             assoc ip
               (cleanup now (Map_set String.eqb (client request) v store))
             = Some record).
  { intros v. apply cleanup_keeps; [|exact Hlive].
    rewrite assoc_set_other by congruence. exact Hrec. }
  destruct (assoc (client request) store) as [r|]; [|cbn [snd]; apply Hset].
  destruct (now <? record_resetTime r); [|cbn [snd]; apply Hset].
  destruct (maxRequests <=? record_count r); cbn [snd]; [exact Hrec|apply Hset].
Qed.

Lemma applyRateLimit_other_idle ip t0 request now stamp store :
  client request <> ip -> idle ip t0 store ->
  idle ip t0 (snd (applyRateLimit request now stamp store)).
Proof.
  intros Hne Hidle. unfold applyRateLimit.
  assert (Hset : forall v,
             idle ip t0
               (cleanup now (Map_set String.eqb (client request) v store))).
  { intros v. apply idle_cleanup. apply idle_set_other; assumption. }
  destruct (assoc (client request) store) as [r|]; [|cbn [snd]; apply Hset].
  destruct (now <? record_resetTime r); [|cbn [snd]; apply Hset].
  destruct (maxRequests <=? record_count r); cbn [snd];
    [exact Hidle|apply Hset].
Qed.

(** The first request of a client without a running record opens one. *)
Lemma applyRateLimit_opens request t0 now stamp store :
  idle (client request) t0 store -> t0 <= now ->
  fst (applyRateLimit request now stamp store) = None
  /\ assoc (client request) (snd (applyRateLimit request now stamp store))
     = Some {| record_count := 1; record_resetTime := now + windowMs |}.
Proof.
  intros Hidle Hnow. unfold applyRateLimit.
  assert (Hdead : match assoc (client request) store with
                  | Some record =>
                      if now <? record_resetTime record then Some record
                      else None
                  | None => None
                  end = None).
  { destruct (assoc (client request) store) as [r|] eqn:Hrec; [|reflexivity].
    pose proof (proj1 (Forall_forall _ _) Hidle _ (assoc_In _ _ _ Hrec)
                      eq_refl) as Hr.
    cbn [snd] in Hr.
    destruct (Z.ltb_spec now (record_resetTime r)); [lia|reflexivity]. }
  rewrite Hdead. cbn [fst snd]. split; [reflexivity|].
  apply cleanup_keeps; [apply assoc_set_same|].
  cbn [record_resetTime]. unfold windowMs. lia.
Qed.

(** A request of a client whose record is running. *)
Lemma applyRateLimit_counts request record now stamp store :
  assoc (client request) store = Some record ->
  now < record_resetTime record ->
  admitted (fst (applyRateLimit request now stamp store))
  = (record_count record <? maxRequests)
  /\ assoc (client request) (snd (applyRateLimit request now stamp store))
     = Some (if (record_count record <? maxRequests)
             then {| record_count := record_count record + 1;
                     record_resetTime := record_resetTime record |}
             else record).
Proof.
  intros Hrec Hlive. unfold applyRateLimit. rewrite Hrec.
  apply Z.ltb_lt in Hlive. rewrite Hlive. apply Z.ltb_lt in Hlive.
  rewrite Z.leb_antisym.
  destruct (record_count record <? maxRequests); cbn [negb fst snd admitted].
  - split; [reflexivity|].
    apply cleanup_keeps; [apply assoc_set_same|]. cbn [record_resetTime]. lia.
  - split; [reflexivity|exact Hrec].
Qed.

Lemma requests_of_cons ip request now stamp calls :
  requests_of ip ((request, now, stamp) :: calls)
  = if String.eqb (client request) ip then S (requests_of ip calls)
    else requests_of ip calls.
Proof.
  unfold requests_of. cbn [filter fst].
  destruct (String.eqb (client request) ip); reflexivity.
Qed.

Lemma serve_cons request now stamp calls store :
  serve ((request, now, stamp) :: calls) store
  = (fst (applyRateLimit request now stamp store)
     :: fst (serve calls (snd (applyRateLimit request now stamp store))),
     snd (serve calls (snd (applyRateLimit request now stamp store)))).
Proof.
  cbn [serve]. destruct (applyRateLimit request now stamp store).
  cbn [fst snd]. destruct (serve calls r). reflexivity.
Qed.

(** While the record of a client is running, with [seen] requests counted,
    its requests are admitted up to the hundredth. *)
Lemma running_window ip t1 calls : forall store record seen,
  assoc ip store = Some record ->
  t1 <= record_resetTime record ->
  (1 <= seen)%nat ->
  record_count record = Z.of_nat (Nat.min seen 100) ->
  Forall (fun c => snd (fst c) < t1) calls ->
  admissions ip calls (fst (serve calls store))
  = map (fun k => (k <? 100)%nat) (seq seen (requests_of ip calls)).
Proof.
  induction calls as [|[[request now] stamp] calls IH];
    intros store record seen Hrec Hlive Hseen Hcount Htimes; [reflexivity|].
  inversion Htimes as [|? ? Hnow Hrest]; subst. cbn [fst snd] in Hnow.
  rewrite serve_cons, requests_of_cons. cbn [fst admissions].
  destruct (String.eqb_spec (client request) ip) as [Hip|Hne].
  - subst ip.
    destruct (applyRateLimit_counts request record now stamp store Hrec)
      as (Hadm & Hrec'); [lia|].
    cbn [seq map]. f_equal.
    + rewrite Hadm, Hcount. unfold maxRequests.
      destruct (Nat.ltb_spec seen 100);
        [apply Z.ltb_lt|apply Z.ltb_ge]; lia.
    + eapply IH; [exact Hrec'| | | |exact Hrest].
      * destruct (record_count record <? maxRequests); cbn; lia.
      * lia.
      * rewrite Hcount. unfold maxRequests.
        destruct (Z.ltb_spec (Z.of_nat (Nat.min seen 100)) 100);
          cbn [record_count]; lia.
  - eapply IH; [|exact Hlive|exact Hseen|exact Hcount|exact Hrest].
    apply applyRateLimit_other; [exact Hne|exact Hrec|lia].
Qed.

(** X15.  The limiter admits the first hundred requests of a client in a
    window and refuses the rest.  Take a client without a running record at
    [t0] and any requests, of this client and of others, that the limiter
    sees from [t0] on and less than a minute later: the ones of this client
    are admitted up to the hundredth and refused from then on, whatever the
    other clients do and in whatever order the clock readings come. *)
Theorem window_admits_first_hundred (ip : string) (t0 : Z)
        (calls : list (NextRequest * Z * Z)) (store : RateLimitStore) :
  Forall (fun kv => fst kv = ip -> record_resetTime (snd kv) <= t0) store ->
  Forall (fun c => t0 <= snd (fst c) < t0 + windowMs) calls ->
  admissions ip calls (fst (serve calls store))
  = map (fun k => (k <? 100)%nat) (seq 0 (requests_of ip calls)).
Proof.
  intros Hidle Htimes. fold (idle ip t0 store) in Hidle.
  revert store Hidle.
  induction calls as [|[[request now] stamp] calls IH]; intros store Hidle;
    [reflexivity|].
  inversion Htimes as [|? ? Hnow Hrest]; subst. cbn [fst snd] in Hnow.
  rewrite serve_cons, requests_of_cons. cbn [fst admissions].
  destruct (String.eqb_spec (client request) ip) as [Hip|Hne].
  - subst ip.
    destruct (applyRateLimit_opens request t0 now stamp store Hidle)
      as [Hadm Hrec]; [lia|].
    cbn [seq map]. rewrite Hadm. cbn [admitted]. f_equal.
    apply (running_window (client request) (t0 + windowMs) calls _ _ 1%nat
                          Hrec).
    + cbn [record_resetTime]. lia.
    + lia.
    + reflexivity.
    + eapply Forall_impl; [|exact Hrest]. intros c Hc. cbn beta in Hc. lia.
  - apply IH; [exact Hrest|].
    apply applyRateLimit_other_idle; assumption.
Qed.

(** Three requests of one client and one of another, on a new store. *)
Lemma window_admits_first_hundred_witness :
  admissions "10.0.0.1"
    [ (request_from "10.0.0.1" "/api/health", 1000, 1000);
      (request_from "10.0.0.2" "/api/health", 30000, 30000);
      (request_from "10.0.0.1" "/api/health", 2000, 2000);
      (request_from "10.0.0.1" "/api/health", 60999, 60999) ]
    (fst (serve
            [ (request_from "10.0.0.1" "/api/health", 1000, 1000);
              (request_from "10.0.0.2" "/api/health", 30000, 30000);
              (request_from "10.0.0.1" "/api/health", 2000, 2000);
              (request_from "10.0.0.1" "/api/health", 60999, 60999) ] []))
  = map (fun k => (k <? 100)%nat)
        (seq 0 (requests_of "10.0.0.1"
                  [ (request_from "10.0.0.1" "/api/health", 1000, 1000);
                    (request_from "10.0.0.2" "/api/health", 30000, 30000);
                    (request_from "10.0.0.1" "/api/health", 2000, 2000);
                    (request_from "10.0.0.1" "/api/health", 60999, 60999) ])).
Proof.
  apply (window_admits_first_hundred "10.0.0.1" 1000).
  - constructor.
  - repeat constructor; cbn; unfold windowMs; lia.
Defined.

(** A hundred and one requests of one client within a second, and one more
    a minute later. *)
Example hundred_and_first_refused :
  admissions "10.0.0.1"
    (map (fun k => (request_from "10.0.0.1" "/api/health",
                    1000 + Z.of_nat k, 1000 + Z.of_nat k)) (seq 0 101)
     ++ [ (request_from "10.0.0.1" "/api/health", 61000, 61000) ])
    (fst (serve
            (map (fun k => (request_from "10.0.0.1" "/api/health",
                            1000 + Z.of_nat k, 1000 + Z.of_nat k))
                 (seq 0 101)
             ++ [ (request_from "10.0.0.1" "/api/health", 61000, 61000) ])
            []))
  = (repeat true 100 ++ [false; true])%list.
Proof. vm_compute. reflexivity. Qed.

(** X16.  A refusal is a response with status 429 and the code
    [RATE_LIMITED], whose [Retry-After] is the time left to the end of the
    window in seconds, rounded up and so at least 1; the refused request is
    not counted and the store is left as it is: refused requests do not
    prolong the window. *)
Theorem refusal_leaves_the_store (request : NextRequest) (now stamp : Z)
        (store : RateLimitStore) (response : MiddlewareResponse) :
  fst (applyRateLimit request now stamp store) = Some response ->
  snd (applyRateLimit request now stamp store) = store
  /\ exists record,
       assoc (client request) store = Some record
       /\ now < record_resetTime record
       /\ maxRequests <= record_count record
       /\ 1 <= ceil_div (record_resetTime record - now) 1000
       /\ response
          = Respond 429
              (Some {| body_code := "RATE_LIMITED";
                       body_message :=
                         "Too many requests. Please try again later.";
                       body_timestamp := stamp |})
              [ ("Retry-After",
                  Z_to_string (ceil_div (record_resetTime record - now) 1000));
                ("X-RateLimit-Limit", "100");
                ("X-RateLimit-Remaining", "0");
                ("X-RateLimit-Reset",
                  Z_to_string (ceil_div (record_resetTime record) 1000)) ].
Proof.
  unfold applyRateLimit.
  destruct (assoc (client request) store) as [record|]; [|discriminate].
  destruct (Z.ltb_spec now (record_resetTime record)) as [Hlive|];
    [|discriminate].
  destruct (Z.leb_spec maxRequests (record_count record)) as [Hfull|];
    [|discriminate].
  cbn [fst snd]. intros [= <-]. split; [reflexivity|].
  exists record. repeat split; try assumption.
  unfold ceil_div. apply Z.div_le_lower_bound; lia.
Qed.

Lemma refusal_leaves_the_store_witness :
  fst (applyRateLimit (request_from "10.0.0.1" "/api/health") 1500 1501
         [ ("10.0.0.1",
            {| record_count := 100; record_resetTime := 61000 |}) ])
  = Some (Respond 429
            (Some {| body_code := "RATE_LIMITED";
                     body_message :=
                       "Too many requests. Please try again later.";
                     body_timestamp := 1501 |})
            [ ("Retry-After", "60"); ("X-RateLimit-Limit", "100");
              ("X-RateLimit-Remaining", "0"); ("X-RateLimit-Reset", "61") ])
  /\ snd (applyRateLimit (request_from "10.0.0.1" "/api/health") 1500 1501
            [ ("10.0.0.1",
               {| record_count := 100; record_resetTime := 61000 |}) ])
     = [ ("10.0.0.1", {| record_count := 100; record_resetTime := 61000 |}) ].
Proof.
  split; [vm_compute; reflexivity|].
  apply (refusal_leaves_the_store
           (request_from "10.0.0.1" "/api/health") 1500 1501
           [ ("10.0.0.1",
              {| record_count := 100; record_resetTime := 61000 |}) ]
           (Respond 429
              (Some {| body_code := "RATE_LIMITED";
                       body_message :=
                         "Too many requests. Please try again later.";
                       body_timestamp := 1501 |})
              [ ("Retry-After", "60"); ("X-RateLimit-Limit", "100");
                ("X-RateLimit-Remaining", "0");
                ("X-RateLimit-Reset", "61") ])).
  vm_compute. reflexivity.
Defined.

(* ===================================================================== *)
(** * Authentication in the middleware *)
(* ===================================================================== *)

(** X17.  The key of the header [X-API-Key] is not looked at.  A request
    that is not a preflight, that the limiter admits and that carries no
    [Bearer] token goes on with its headers as they were sent, whatever the
    key (so long as it is not empty) and whatever the path, the protected
    ones included. *)
Theorem api_key_not_verified (verifyToken : string -> option JWTPayload)
        (Headers_value : string -> Outcome string) (request : NextRequest)
        (now stamp : Z) (store : RateLimitStore) (key : string) :
  String.eqb (request_method request) "OPTIONS" = false ->
  fst (applyRateLimit request now stamp store) = None ->
  String.prefix "Bearer "
    (or_else (Headers_get "authorization" (request_headers request)) "")
  = false ->
  Headers_get "x-api-key" (request_headers request) = Some key ->
  str_truthy key = true ->
  middleware verifyToken Headers_value request now stamp store
  = (Ok (Next None), snd (applyRateLimit request now stamp store)).
Proof.
  intros Hmethod Hadmitted Hbearer Hkey Htruthy.
  unfold middleware. rewrite Hmethod.
  destruct (applyRateLimit request now stamp store) as [answer store'].
  cbn [fst snd] in *. subst answer.
  destruct (some_prefix publicPaths (request_pathname request));
    [reflexivity|].
  destruct (some_prefix protectedPaths (request_pathname request));
    [|reflexivity].
  rewrite Hbearer, Hkey. cbn [or_undefined]. rewrite Htruthy.
  destruct (or_undefined (Headers_get "authorization"
                                      (request_headers request)));
    reflexivity.
Qed.

Lemma api_key_not_verified_witness :
  middleware (fun _ => None) (fun text => Ok text) keyed_request 1000 1000 []
  = (Ok (Next None), snd (applyRateLimit keyed_request 1000 1000 [])).
Proof.
  apply (api_key_not_verified (fun _ => None) (fun text => Ok text)
                              keyed_request 1000 1000 [] "x");
    reflexivity.
Defined.

Lemma Headers_get_set_same name value h :
  Headers_get name (Headers_set name value h) = Some value.
Proof. apply assoc_set_same. Qed.

Lemma Headers_get_set_other name other value h :
  other <> name ->
  Headers_get other (Headers_set name value h) = Headers_get other h.
Proof. apply assoc_set_other. Qed.

Lemma prefix_append s t : String.prefix s (s ++ t) = true.
Proof.
  induction s as [|a s IH]; [destruct t; reflexivity|].
  cbn [append String.prefix].
  destruct (ascii_dec a a); [exact IH|contradiction].
Qed.

(** X18.  On a protected path a [Bearer] token decides alone.  When
    [verifyToken] refuses it the answer is 401 with [INVALID_TOKEN],
    whatever key the request carries beside it.  When it is verified, the
    request goes on with the three identity headers set from the payload,
    in place of what the client sent under these names, and with its other
    headers as they were. *)
Theorem bearer_token_decides (verifyToken : string -> option JWTPayload)
        (Headers_value : string -> Outcome string) (request : NextRequest)
        (now stamp : Z) (store : RateLimitStore) (token : string) :
  String.eqb (request_method request) "OPTIONS" = false ->
  fst (applyRateLimit request now stamp store) = None ->
  some_prefix publicPaths (request_pathname request) = false ->
  some_prefix protectedPaths (request_pathname request) = true ->
  Headers_get "authorization" (request_headers request)
  = Some ("Bearer " ++ token) ->
  match verifyToken token with
  | None =>
      middleware verifyToken Headers_value request now stamp store
      = (Ok (Respond 401
               (Some {| body_code := "INVALID_TOKEN";
                        body_message := "Invalid or expired token";
                        body_timestamp := stamp |}) []),
         snd (applyRateLimit request now stamp store))
  | Some payload =>
      forall id mail position,
        Headers_value (js_to_string (payload_sub payload)) = Ok id ->
        Headers_value (js_to_string (payload_email payload)) = Ok mail ->
        Headers_value (js_to_string (payload_role payload)) = Ok position ->
        exists h,
          middleware verifyToken Headers_value request now stamp store
          = (Ok (Next (Some h)),
             snd (applyRateLimit request now stamp store))
          /\ Headers_get "x-user-id" h = Some id
          /\ Headers_get "x-user-email" h = Some mail
          /\ Headers_get "x-user-role" h = Some position
          /\ forall name,
               name <> "x-user-id" -> name <> "x-user-email" ->
               name <> "x-user-role" ->
               Headers_get name h
               = Headers_get name (request_headers request)
  end.
Proof.
  intros Hmethod Hadmitted Hpublic Hprotected Hauth.
  unfold middleware. rewrite Hmethod.
  destruct (applyRateLimit request now stamp store) as [answer store'].
  cbn [fst snd] in *. subst answer.
  rewrite Hpublic, Hprotected, Hauth.
  change (or_undefined (Some ("Bearer " ++ token)))
    with (Some ("Bearer " ++ token)).
  change (or_else (Some ("Bearer " ++ token)) "") with ("Bearer " ++ token).
  rewrite prefix_append.
  change (slice 7 ("Bearer " ++ token)) with token.
  cbv iota.
  destruct (verifyToken token) as [payload|]; [|reflexivity].
  intros id mail position Hid Hmail Hrole.
  unfold set_header. rewrite Hid, Hmail, Hrole.
  eexists. split; [reflexivity|].
  split; [|split; [|split]].
  - rewrite !Headers_get_set_other by discriminate.
    apply Headers_get_set_same.
  - rewrite Headers_get_set_other by discriminate.
    apply Headers_get_set_same.
  - apply Headers_get_set_same.
  - intros name H1 H2 H3.
    rewrite !Headers_get_set_other by assumption. reflexivity.
Qed.

Lemma bearer_token_decides_witness :
  middleware (fun _ => None) (fun text => Ok text) bearer_request 1000 1001 []
  = (Ok (Respond 401
           (Some {| body_code := "INVALID_TOKEN";
                    body_message := "Invalid or expired token";
                    body_timestamp := 1001 |}) []),
     snd (applyRateLimit bearer_request 1000 1001 [])).
Proof.
  apply (bearer_token_decides (fun _ => None) (fun text => Ok text)
                              bearer_request 1000 1001 [] "abc");
    reflexivity.
Defined.

Example bearer_identity_replaces_the_clients :
  fst (middleware
         (fun _ => Some {| payload_sub := JString "u1";
                           payload_email := JUndefined;
                           payload_role := JString "member" |})
         (fun text => Ok text) bearer_request 1000 1001 [])
  = Ok (Next (Some [ ("authorization", "Bearer abc"); ("x-api-key", "x");
                     ("x-user-id", "u1"); ("x-user-email", "undefined");
                     ("x-user-role", "member") ])).
Proof. reflexivity. Qed.

(* ===================================================================== *)
(** * The authentication module *)
(* ===================================================================== *)

Lemma split_plain sep s : mentions sep s = false -> String_split sep s = [s].
Proof.
  induction s as [|c s IH]; [reflexivity|].
  cbn [mentions String_split]. intros H. apply orb_false_iff in H as [Hc Hs].
  rewrite Hc, (IH Hs). reflexivity.
Qed.

Lemma split_append sep a rest :
  mentions sep a = false ->
  String_split sep (a ++ String sep rest) = a :: String_split sep rest.
Proof.
  induction a as [|c a IH].
  - intros _. cbn [append String_split]. now rewrite Ascii.eqb_refl.
  - cbn [mentions append String_split]. intros H.
    apply orb_false_iff in H as [Hc Ha]. rewrite Hc, (IH Ha). reflexivity.
Qed.

(** X19.  [getUserId] does not verify the token.  Of a token of three parts
    it decodes the middle one and answers with the [sub] of the object
    found there, whatever the first part and the signature are; without a
    [sub] the answer is [undefined], and the key of the request is not
    looked at. *)
Theorem getUserId_ignores_signature (E : Env)
        (atob : string -> Outcome string) (request : NextRequest)
        (header body signature text : string)
        (fields : list (string * JsValue)) :
  mentions "." header = false ->
  mentions "." body = false ->
  mentions "." signature = false ->
  Headers_get "authorization" (request_headers request)
  = Some ("Bearer " ++ header ++ "." ++ body ++ "." ++ signature) ->
  atob body = Ok text ->
  JSON_parse E text = Ok (JObject fields) ->
  getUserId E atob request
  = Some match assoc "sub" fields with
         | Some v => v
         | None => JUndefined
         end.
Proof.
  intros Hheader Hbody Hsignature Hauth Hatob Hparse.
  unfold getUserId. rewrite Hauth.
  change (or_else (Some ("Bearer " ++ header ++ "." ++ body ++ "."
                         ++ signature)) "")
    with ("Bearer " ++ header ++ "." ++ body ++ "." ++ signature).
  rewrite prefix_append.
  change (slice 7 ("Bearer " ++ header ++ "." ++ body ++ "." ++ signature))
    with (header ++ String "." (body ++ String "." signature)).
  unfold verifyTokenSync.
  rewrite (split_append _ _ _ Hheader), (split_append _ _ _ Hbody),
    (split_plain _ _ Hsignature).
  rewrite Hatob, Hparse. reflexivity.
Qed.

(** A token with nothing for a signature, whose middle part decodes to
    claims that name an administrator. *)
Lemma getUserId_ignores_signature_witness :
  getUserId node sample_atob (token_request "x.eyJzdWIiOiJhZG1pbiJ9.")
  = Some (JString "admin").
Proof.
  apply (getUserId_ignores_signature
           node sample_atob (token_request "x.eyJzdWIiOiJhZG1pbiJ9.")
           "x" "eyJzdWIiOiJhZG1pbiJ9" "" admin_claims
           [("sub", JString "admin")]);
    reflexivity.
Defined.

(** ** API keys *)

Lemma byte_texts_ok : forallb byte_text_ok (seq 0 256) = true.
Proof. vm_compute. reflexivity. Qed.

Lemma byte_text (byte : N) :
  (byte < 256)%N ->
  exists a b,
    padStart 2 "0" (toString16 byte) = String a (String b EmptyString)
    /\ is_hex a = true /\ is_hex b = true
    /\ (16 * digit_of a + digit_of b)%N = byte.
Proof.
  intros Hbyte.
  pose proof (proj1 (forallb_forall _ _) byte_texts_ok (N.to_nat byte)) as H.
  rewrite in_seq in H. specialize (H ltac:(lia)).
  unfold byte_text_ok in H. rewrite N2Nat.id in H.
  destruct (padStart 2 "0" (toString16 byte)) as [|a [|b [|c rest]]];
    try discriminate.
  apply andb_true_iff in H as [H Hvalue].
  apply andb_true_iff in H as [Ha Hb].
  exists a, b. repeat split; try assumption. now apply N.eqb_eq.
Qed.

(** The text of some bytes: its length, its digits, and the bytes read
    back from it. *)
Lemma text_of_bytes (bytes : list N) :
  Forall (fun byte => (byte < 256)%N) bytes ->
  let text := join "" (map (fun byte => padStart 2 "0" (toString16 byte))
                           bytes) in
  String.length text = (2 * List.length bytes)%nat
  /\ forallb is_hex (list_ascii_of_string text) = true
  /\ unhex text = bytes.
Proof.
  induction 1 as [|byte bytes Hbyte _ IH]; [repeat split|].
  cbn zeta in *. cbn [map]. rewrite join_empty_cons.
  destruct (byte_text byte Hbyte) as (a & b & -> & Ha & Hb & Hvalue).
  destruct IH as (Hlen & Hhex & Hback).
  cbn [append String.length list_ascii_of_string forallb unhex].
  rewrite Hlen, Ha, Hb, Hhex, Hback, Hvalue.
  split; [cbn [List.length]; lia|]. split; reflexivity.
Qed.

Lemma getRandomValues_bytes length : forall r,
  Forall (fun byte => (byte < 256)%N) (getRandomValues length r)
  /\ List.length (getRandomValues length r) = length.
Proof.
  induction length as [|l IH]; intros r; [split; [constructor|reflexivity]|].
  destruct (IH (r / 256)%N) as [Hall Hlen]. cbn [getRandomValues].
  split; [|cbn; now rewrite Hlen].
  constructor; [|exact Hall]. apply N.mod_lt. discriminate.
Qed.

Lemma number_of_random length : forall r,
  number_of (getRandomValues length r) = (r mod 256 ^ N.of_nat length)%N.
Proof.
  induction length as [|l IH]; intros r.
  - cbn. now rewrite N.mod_1_r.
  - cbn [getRandomValues number_of]. rewrite IH.
    rewrite Nat2N.inj_succ, N.pow_succ_r'.
    symmetry. apply N.Div0.mod_mul_r.
Qed.

Lemma random_of_residue length : forall r,
  getRandomValues length (r mod 256 ^ N.of_nat length)
  = getRandomValues length r.
Proof.
  induction length as [|l IH]; intros r; [reflexivity|].
  rewrite Nat2N.inj_succ, N.pow_succ_r'. cbn [getRandomValues].
  rewrite N.Div0.mod_mul_r.
  assert (Hlow : ((r mod 256 + 256 * ((r / 256) mod 256 ^ N.of_nat l)) mod 256
                  = r mod 256)%N).
  { rewrite (N.mul_comm 256), N.Div0.mod_add. apply N.Div0.mod_mod. }
  assert (Hhigh : ((r mod 256 + 256 * ((r / 256) mod 256 ^ N.of_nat l)) / 256
                   = (r / 256) mod 256 ^ N.of_nat l)%N).
  { rewrite (N.mul_comm 256), N.div_add by discriminate.
    rewrite N.div_small; [reflexivity|]. apply N.mod_lt. discriminate. }
  rewrite Hlow, Hhigh, IH. reflexivity.
Qed.

(** X20.  An API key is 64 digits of lower-case hexadecimal notation that
    carry all the 256 random bits drawn for it: the bytes read back from
    the key are the bytes drawn, so two keys are the same only when the
    same bits were drawn. *)
Theorem generateApiKey_carries_all_bits (r r' : N) :
  String.length (generateApiKey r) = 64%nat
  /\ forallb is_hex (list_ascii_of_string (generateApiKey r)) = true
  /\ unhex (generateApiKey r) = getRandomValues 32 r
  /\ (generateApiKey r = generateApiKey r'
      <-> (r mod 2 ^ 256 = r' mod 2 ^ 256)%N).
Proof.
  assert (Hkey : forall x,
             String.length (generateApiKey x) = 64%nat
             /\ forallb is_hex (list_ascii_of_string (generateApiKey x)) = true
             /\ unhex (generateApiKey x) = getRandomValues 32 x).
  { intros x. destruct (getRandomValues_bytes 32 x) as [Hall Hlen].
    destruct (text_of_bytes _ Hall) as (H1 & H2 & H3).
    unfold generateApiKey. rewrite H1, Hlen. repeat split; assumption. }
  destruct (Hkey r) as (Hlen & Hhex & Hback).
  split; [exact Hlen|]. split; [exact Hhex|]. split; [exact Hback|].
  change (2 ^ 256)%N with (256 ^ N.of_nat 32)%N.
  split.
  - intros Hsame.
    rewrite <- !number_of_random.
    rewrite <- Hback, Hsame, (proj2 (proj2 (Hkey r'))). reflexivity.
  - intros Hsame. unfold generateApiKey.
    rewrite <- (random_of_residue 32 r), Hsame, random_of_residue.
    reflexivity.
Qed.

(* ===================================================================== *)
(** * Further properties of the memory service *)
(* ===================================================================== *)

Section Memory.
Variable E : Env.

(** A computation that starts with [getCorrelationId] runs the same from
    the world that call leaves. *)
Lemma after_getCorrelationId {A : Type} (k : string -> M A) w id w0 :
  getCorrelationId E w = (Ok id, w0) ->
  or_undefined (correlationId w0) = Some id ->
  bind (getCorrelationId E) k w = bind (getCorrelationId E) k w0.
Proof.
  intros Hrun Hid.
  rewrite (bind_ok _ _ _ _ _ Hrun),
    (bind_ok _ _ _ _ _ (getCorrelationId_set E w0 id Hid)).
  reflexivity.
Qed.

Lemma getCorrelationId_frame w :
  exists id w0,
    getCorrelationId E w = (Ok id, w0)
    /\ or_undefined (correlationId w0) = Some id
    /\ trace w0 = trace w /\ messages w0 = messages w
    /\ sessions w0 = sessions w /\ toolRegistry w0 = toolRegistry w.
Proof.
  destruct (getCorrelationId_run E "a" w) as (id & w0 & Hrun & Hev & Hid).
  destruct (getCorrelationId_run E "b" w) as (id' & w0' & Hrun' & Hev' & _).
  rewrite Hrun in Hrun'. injection Hrun' as <- <-.
  exists id, w0. split; [exact Hrun|]. split; [exact Hid|].
  split; [|split; [|split]].
  - rewrite (evolves_trace Hev). apply app_nil_r.
  - rewrite (evolves_messages Hev). apply app_nil_r.
  - symmetry. apply (sessions_touched_apart "a" "b");
      [discriminate|exact (evolves_sessions Hev)
      |exact (evolves_sessions Hev')].
  - exact (evolves_registry Hev).
Qed.

Lemma session_rows_app sessionId rows w :
  filter (fun r => String.eqb (row_sessionId r) sessionId)
         (messages w ++ rows)
  = (session_rows sessionId w
     ++ filter (fun r => String.eqb (row_sessionId r) sessionId) rows)%list.
Proof. apply filter_app. Qed.

(** [saveMessage] from a world whose identifier is set, when the
    insertion is accepted. *)
Lemma saveMessage_inserted sessionId message id w :
  or_undefined (correlationId w) = Some id ->
  db_fails E (ticks w) = None ->
  exists w',
    saveMessage E sessionId message w
    = (match db_fails E (S (S (ticks w))) with
       | Some _ => Throw (JsError "Failed to save message")
       | None =>
           match find_session sessionId w with
           | Some _ => Ok (row_of sessionId message)
           | None => Throw (JsError "Failed to save message")
           end
       end, w')
    /\ messages w' = (messages w ++ [row_of sessionId message])%list
    /\ or_undefined (correlationId w') = Some id
    /\ (db_fails E (S (S (ticks w))) <> None -> sessions w' = sessions w).
Proof.
  intros Hid Hdb1. unfold saveMessage.
  run_with (getCorrelationId_set E w id Hid).
  erewrite bind_ok; [|apply (logger_set E _ _ _ _ id); exact Hid].
  match goal with
  | |- context [try_catch _ _ ?w0] => set (w2 := w0)
  end.
  assert (Hid2 : or_undefined (correlationId w2) = Some id) by exact Hid.
  destruct (db_fails E (S (S (ticks w)))) as [e|] eqn:Hdb2.
  { eexists. split; [|split; [|split]].
    - erewrite try_throw.
      2:{ rewrite bind_db_call. subst w2. world_simpl. rewrite Hdb1.
          rewrite bind_modify, bind_emit.
          erewrite bind_throw; [reflexivity|].
          rewrite update_session_timestamp_run. world_simpl.
          rewrite Hdb2. reflexivity. }
      erewrite bind_ok; [|apply (logger_set E _ _ _ _ id); exact Hid].
      reflexivity.
    - reflexivity.
    - exact Hid.
    - intros _. reflexivity. }
  destruct (find_session sessionId w) as [s|] eqn:Hfind.
  - eexists. split; [|split; [|split]].
    + erewrite try_ok; [reflexivity|].
      rewrite bind_db_call. subst w2. world_simpl. rewrite Hdb1.
      rewrite bind_modify, bind_emit.
      erewrite bind_ok.
      2:{ rewrite update_session_timestamp_run. world_simpl.
          rewrite Hdb2. unfold find_session in *. world_simpl.
          rewrite Hfind. reflexivity. }
      unfold incrementCounter. rewrite bind_emit. reflexivity.
    + reflexivity.
    + exact Hid.
    + intros H. contradiction.
  - eexists. split; [|split; [|split]].
    + erewrite try_throw.
      2:{ rewrite bind_db_call. subst w2. world_simpl. rewrite Hdb1.
          rewrite bind_modify, bind_emit.
          erewrite bind_throw; [reflexivity|].
          rewrite update_session_timestamp_run. world_simpl.
          rewrite Hdb2. unfold find_session in *. world_simpl.
          rewrite Hfind. reflexivity. }
      erewrite bind_ok; [|apply (logger_set E _ _ _ _ id); exact Hid].
      reflexivity.
    + reflexivity.
    + exact Hid.
    + intros H. contradiction.
Qed.
End Memory.

(** X21.  A message that [saveMessage] has saved is read back by
    [getMessages], after the messages the session held, as long as the
    limit is not reached: what comes back is the first [limit] messages of
    the session, the new one last among them.  In a session that holds
    [limit] messages or more the answer is what it was before the save.
    An empty name or tool call identifier comes back as [undefined]. *)
Theorem saved_message_read_back (E : Env) (sessionId : string)
        (message : ChatMessage) (limit : nat) (w : World) :
  no_database_faults E ->
  find_session sessionId w <> None ->
  exists w1 w2,
    saveMessage E sessionId message w
    = (Ok (row_of sessionId message), w1)
    /\ getMessages E sessionId limit w1
       = (Ok (firstn limit
                (map row_to_message (session_rows sessionId w)
                 ++ [row_to_message (row_of sessionId message)])%list), w2).
Proof.
  intros Hdb Hsession.
  destruct (getCorrelationId_frame E w)
    as (id & w0 & Hrun0 & Hid & _ & Hmsg0 & Hsess0 & _).
  destruct (saveMessage_inserted E sessionId message id w0 Hid (Hdb _))
    as (w1 & Hrun1 & Hmsg1 & Hid1 & _).
  rewrite Hdb in Hrun1.
  assert (Hfind0 : find_session sessionId w0 = find_session sessionId w).
  { unfold find_session. now rewrite Hsess0. }
  rewrite Hfind0 in Hrun1.
  destruct (find_session sessionId w) as [s|]; [|contradiction].
  destruct (getMessages_run E sessionId limit id w1 Hid1)
    as (r & w2 & evs & Hrun2 & _ & _ & Hread).
  rewrite (Hread (Hdb _)) in Hrun2.
  exists w1, w2. split.
  - unfold saveMessage.
    rewrite (after_getCorrelationId E _ w id w0 Hrun0 Hid). exact Hrun1.
  - rewrite Hrun2. unfold session_rows at 1.
    rewrite Hmsg1, Hmsg0, filter_app. cbn [filter row_of row_sessionId].
    rewrite String.eqb_refl, <- firstn_map, map_app. reflexivity.
Qed.

(** A greeting with an empty name, saved in [home]. *)
Lemma saved_message_read_back_witness :
  exists w1 w2,
    saveMessage node "s1" hello home = (Ok (row_of "s1" hello), w1)
    /\ getMessages node "s1" 100 w1
       = (Ok (firstn 100
                (map row_to_message (session_rows "s1" home)
                 ++ [row_to_message (row_of "s1" hello)])%list), w2).
Proof.
  apply (saved_message_read_back node "s1" hello 100 home).
  - intros n. reflexivity.
  - discriminate.
Defined.

Example empty_name_read_back_undefined :
  fst (bind (saveMessage node "s1" hello)
            (fun _ => getMessages node "s1" 100) home)
  = Ok [ {| msg_role := User; msg_content := "Hello";
            msg_name := None; msg_toolCallId := None |} ].
Proof. vm_compute. reflexivity. Qed.

(** X22.  [saveMessage] is not atomic.  When the database accepts the
    insertion of the row (its next operation) and then rejects the update
    of the session (the operation after one reading of the clock),
    [saveMessage] throws [Failed to save message], and the row it reports
    as not saved is in the message table. *)
Theorem message_kept_when_update_fails (E : Env) (sessionId id : string)
        (message : ChatMessage) (e : Exn) (w : World) :
  or_undefined (correlationId w) = Some id ->
  db_fails E (ticks w) = None ->
  db_fails E (S (S (ticks w))) = Some e ->
  exists w',
    saveMessage E sessionId message w
    = (Throw (JsError "Failed to save message"), w')
    /\ messages w' = (messages w ++ [row_of sessionId message])%list
    /\ sessions w' = sessions w.
Proof.
  intros Hid Hinsert Hupdate.
  destruct (saveMessage_inserted E sessionId message id w Hid Hinsert)
    as (w' & Hrun & Hmsg & _ & Hsess).
  rewrite Hupdate in Hrun, Hsess.
  exists w'. split; [exact Hrun|]. split; [exact Hmsg|].
  apply Hsess. discriminate.
Qed.

Lemma message_kept_when_update_fails_witness :
  exists w',
    saveMessage flaky "s1" hello traced
    = (Throw (JsError "Failed to save message"), w')
    /\ messages w' = (messages traced ++ [row_of "s1" hello])%list
    /\ sessions w' = sessions traced.
Proof.
  apply (message_kept_when_update_fails
           flaky "s1" "c1" hello (JsError "Connection lost") traced);
    reflexivity.
Defined.

(* ===================================================================== *)
(** * Further properties of [processChat] *)
(* ===================================================================== *)

Lemma requested_app a b :
  requested (a ++ b) = (requested a ++ requested b)%list.
Proof. apply flat_map_app. Qed.

Section Chat.
Variable E : Env.

(** [getSession] from a world whose identifier is set, when the database
    answers. *)
Lemma getSession_answer sessionId id w :
  or_undefined (correlationId w) = Some id ->
  db_fails E (ticks w) = None ->
  getSession E sessionId w
  = (Ok (find_session sessionId w),
     match find_session sessionId w with
     | Some _ => set_ticks (S (ticks w)) w
     | None =>
         set_trace
           (trace w ++ [Log Warn "Session not found" id
                            [ ("correlationId", JString id);
                              ("sessionId", JString sessionId) ]])
           (set_ticks (S (ticks w)) w)
     end).
Proof.
  intros Hid Hdb. unfold getSession.
  run_with (getCorrelationId_set E w id Hid).
  destruct (find_session sessionId w) as [s|] eqn:Hfind.
  - erewrite try_ok; [reflexivity|].
    rewrite bind_db_call, Hdb, bind_gets.
    unfold find_session in *. world_simpl. rewrite Hfind. reflexivity.
  - erewrite try_ok; [reflexivity|].
    rewrite bind_db_call, Hdb, bind_gets.
    unfold find_session in *. world_simpl. rewrite Hfind.
    erewrite bind_ok; [|apply (logger_set E _ _ _ _ id); exact Hid].
    reflexivity.
Qed.

(** What [getSession] throws is its own error. *)
Lemma getSession_throws sessionId id w e w' :
  or_undefined (correlationId w) = Some id ->
  getSession E sessionId w = (Throw e, w') ->
  e = JsError "Failed to get session".
Proof.
  intros Hid. destruct (db_fails E (ticks w)) as [e0|] eqn:Hdb.
  - unfold getSession. run_with (getCorrelationId_set E w id Hid).
    erewrite try_throw; [|rewrite bind_db_call, Hdb; reflexivity].
    erewrite bind_ok; [|apply (logger_set E _ _ _ _ id); exact Hid].
    intros [= <- _]. reflexivity.
  - rewrite (getSession_answer sessionId id w Hid Hdb). discriminate.
Qed.
End Chat.



(** X24.  What [processChat] rejects with is an [APIError], whatever went
    wrong: one with the code [CHAT_ERROR], or else the very [APIError] that
    the request of the completion was rejected with. *)
Theorem processChat_rejects_with_api_errors (E : Env)
        (request : ChatRequest) (w : World) (e : Exn) :
  fst (processChat E request w) = Throw e ->
  exists code message status,
    e = ApiError code message status
    /\ (e = ApiError "CHAT_ERROR" "Failed to process chat" None
        \/ exists completion n, completions_create E completion n = Throw e).
Proof.
  destruct (getCorrelationId_frame E w) as (id & w0 & Hrun0 & Hid & _).
  unfold processChat. run_with Hrun0.
  rewrite (bind_ok _ _ _ _ _ (logger_set E _ _ _ w0 id Hid)).
  match goal with
  | |- context [try_catch _ _ ?w1'] => set (w1 := w1')
  end.
  assert (Hid1 : or_undefined (correlationId w1) = Some id) by exact Hid.
  assert (Hhandler : forall e0 wb,
            or_undefined (correlationId wb) = Some id ->
            fst ((logger E Error "Chat processing failed"
                    [ ("correlationId", JString id);
                      ("error", JString (error_message e0)) ] ;;;
                  (throw (chat_error e0) : M unit)) wb) = Throw e ->
            (forall code message status,
               e0 = ApiError code message status ->
               exists completion n,
                 completions_create E completion n = Throw e0) ->
            exists code message status,
              e = ApiError code message status
              /\ (e = ApiError "CHAT_ERROR" "Failed to process chat" None
                  \/ exists completion n,
                       completions_create E completion n = Throw e)).
  { intros e0 wb Hidb Hrun Hsource.
    rewrite (bind_ok _ _ _ _ _ (logger_set E _ _ _ wb id Hidb)) in Hrun.
    cbn in Hrun. injection Hrun as <-.
    destruct e0 as [m|code message status|v];
      try (exists "CHAT_ERROR", "Failed to process chat", None;
           split; [reflexivity|left; reflexivity]).
    exists code, message, status. split; [reflexivity|].
    right. exact (Hsource code message status eq_refl). }
  destruct (getSession E (chat_sessionId request) w1) as [[[s|]|e1] w2]
    eqn:Hsession.
  - destruct (getSession_run E (chat_sessionId request) id w1 Hid1)
      as (r2 & w2' & evs2 & Hrun2 & Hev2 & _).
    rewrite Hsession in Hrun2. injection Hrun2 as <- <-.
    pose proof (evolves_keeps_id _ _ _ _ _ Hev2 Hid1) as Hid2.
    destruct (create_completion_run E (chat_sessionId request)
                (firstRequest request s
                   (map (fun t => definition (snd t)) (toolRegistry w2)))
                w2) as (w3 & Hrun3 & Hev3 & Hsame3).
    destruct (completions_create E _ (ticks w2)) as [stream|e2] eqn:Hcreate.
    + destruct (transformStream_run E (chat_sessionId request) stream w3)
        as (w4 & evs4 & Hrun4 & _).
      erewrite try_ok.
      2:{ run_with Hsession. unfold getRegisteredTools. rewrite bind_gets.
          run_with Hrun3. exact Hrun4. }
      discriminate.
    + erewrite try_throw.
      2:{ run_with Hsession. unfold getRegisteredTools. rewrite bind_gets.
          run_with Hrun3. reflexivity. }
      intros Hrun. apply (Hhandler e2 w3); [|exact Hrun|].
      * unfold or_undefined in *. now rewrite Hsame3.
      * intros code message status ->. eauto.
  - destruct (getSession_run E (chat_sessionId request) id w1 Hid1)
      as (r2 & w2' & evs2 & Hrun2 & Hev2 & _).
    rewrite Hsession in Hrun2. injection Hrun2 as <- <-.
    pose proof (evolves_keeps_id _ _ _ _ _ Hev2 Hid1) as Hid2.
    erewrite try_throw; [|run_with Hsession; reflexivity].
    intros Hrun. apply (Hhandler _ w2 Hid2 Hrun). discriminate.
  - destruct (getSession_run E (chat_sessionId request) id w1 Hid1)
      as (r2 & w2' & evs2 & Hrun2 & Hev2 & _).
    rewrite Hsession in Hrun2. injection Hrun2 as <- <-.
    pose proof (evolves_keeps_id _ _ _ _ _ Hev2 Hid1) as Hid2.
    pose proof (getSession_throws E _ id w1 e1 w2 Hid1 Hsession) as ->.
    erewrite try_throw; [|run_with Hsession; reflexivity].
    intros Hrun. apply (Hhandler _ w2 Hid2 Hrun). discriminate.
Qed.

Lemma processChat_rejects_with_api_errors_witness :
  exists code message status,
    ApiError "CHAT_ERROR" "Failed to process chat" None
    = ApiError code message status
    /\ (ApiError "CHAT_ERROR" "Failed to process chat" None
        = ApiError "CHAT_ERROR" "Failed to process chat" None
        \/ exists completion n,
             completions_create node completion n
             = Throw (ApiError "CHAT_ERROR" "Failed to process chat" None)).
Proof.
  apply (processChat_rejects_with_api_errors node stray_request fresh).
  vm_compute. reflexivity.
Defined.

(** X25.  With a session that exists and a database that answers,
    [processChat] requests one completion before anything is streamed: for
    the system prompt (of the request, else of the session, else the
    default one) followed by the messages of the request, with every
    registered tool on offer, in the order of registration.  Nothing of
    the message table goes into this request.  [processChat] returns when
    the provider accepts the request and rejects when it does not. *)
Theorem processChat_first_request (E : Env) (request : ChatRequest)
        (session : SessionRow) (w : World) :
  no_database_faults E ->
  find_session (chat_sessionId request) w = Some session ->
  exists r w' evs more n,
    processChat E request w = (r, w')
    /\ trace w' = (trace w ++ evs)%list
    /\ requested evs
       = firstRequest request session (listing (toolRegistry w)) :: more
    /\ r = match completions_create E
                   (firstRequest request session (listing (toolRegistry w)))
                   n with
           | Ok _ => Ok tt
           | Throw e => Throw (chat_error e)
           end.
Proof.
  intros Hdb Hfind.
  destruct (getCorrelationId_frame E w)
    as (id & w0 & Hrun0 & Hid & Htrace0 & _ & Hsess0 & Hreg0).
  unfold processChat. run_with Hrun0.
  rewrite (bind_ok _ _ _ _ _ (logger_set E _ _ _ w0 id Hid)).
  fold (processing_entry id request).
  set (w1 := set_trace (trace w0 ++ [processing_entry id request]) w0).
  assert (Hid1 : or_undefined (correlationId w1) = Some id) by exact Hid.
  assert (Hfind1 : find_session (chat_sessionId request) w1 = Some session).
  { unfold find_session in *. subst w1. world_simpl. now rewrite Hsess0. }
  pose proof (getSession_answer E (chat_sessionId request) id w1 Hid1 (Hdb _))
    as Hsession.
  rewrite Hfind1 in Hsession.
  set (w2 := set_ticks (S (ticks w1)) w1) in Hsession.
  set (first := firstRequest request session (listing (toolRegistry w))).
  destruct (create_completion_run E (chat_sessionId request) first w2)
    as (w3 & Hrun3 & Hev3 & Hsame3).
  assert (Htools : map (fun t => definition (snd t)) (toolRegistry w2)
                   = listing (toolRegistry w)).
  { unfold listing. subst w2 w1. world_simpl. now rewrite Hreg0. }
  assert (Htrace3 : trace w3
                    = (trace w ++ [processing_entry id request;
                                   CompletionCall first])%list).
  { rewrite (evolves_trace Hev3). subst w2 w1. world_simpl.
    rewrite Htrace0, <- app_assoc. reflexivity. }
  assert (Hid3 : or_undefined (correlationId w3) = Some id).
  { rewrite Hsame3. exact Hid. }
  destruct (completions_create E first (ticks w2)) as [stream|e] eqn:Hcreate.
  - destruct (transformStream_run E (chat_sessionId request) stream w3)
      as (w4 & evs4 & Hrun4 & Hev4 & _).
    exists (Ok tt), w4,
      ([processing_entry id request; CompletionCall first] ++ evs4)%list,
      (requested evs4), (ticks w2).
    erewrite try_ok.
    2:{ run_with Hsession. unfold getRegisteredTools. rewrite bind_gets.
        rewrite Htools. fold first. run_with Hrun3. exact Hrun4. }
    split; [reflexivity|]. split; [|split].
    + rewrite (evolves_trace Hev4), Htrace3, <- app_assoc. reflexivity.
    + rewrite requested_app. reflexivity.
    + rewrite Hcreate. reflexivity.
  - eexists (Throw (chat_error e)), _,
      [processing_entry id request; CompletionCall first; _],
      [], (ticks w2).
    erewrite try_throw.
    2:{ run_with Hsession. unfold getRegisteredTools. rewrite bind_gets.
        rewrite Htools. fold first. run_with Hrun3. reflexivity. }
    rewrite (bind_ok _ _ _ _ _ (logger_set E _ _ _ w3 id Hid3)).
    split; [reflexivity|]. split; [|split].
    + world_simpl. rewrite Htrace3, <- app_assoc. reflexivity.
    + reflexivity.
    + rewrite Hcreate. reflexivity.
Qed.

Lemma processChat_first_request_witness :
  exists r w' evs more n,
    processChat node hello_request home = (r, w')
    /\ trace w' = (trace home ++ evs)%list
    /\ requested evs
       = firstRequest hello_request support_session
                      (listing (toolRegistry home)) :: more
    /\ r = match completions_create node
                   (firstRequest hello_request support_session
                                 (listing (toolRegistry home)))
                   n with
           | Ok _ => Ok tt
           | Throw e => Throw (chat_error e)
           end.
Proof.
  apply (processChat_first_request node hello_request support_session home).
  - intros n. reflexivity.
  - reflexivity.
Defined.

(** The messages of the first request do not come from the store. *)
Example first_request_messages :
  req_messages (firstRequest hello_request support_session [])
  = [ SystemParam "Be brief."; UserParam "Hello" None ].
Proof. reflexivity. Qed.
